(** * jupusd-program: quotes, period limits and the peg-price flag

    A shallow embedding of the pricing helpers of the SDK
    ([packages/sdk/src/quote/mint.ts], [packages/sdk/src/quote/redeem.ts]),
    of the period-limit check ([findPeriodLimitViolation]) and of the
    peg-price flag parser of the CLI ([parsePegPriceFlag],
    [parseU64StringFlag]), of the boolean, status, fee-rate and feed-id
    flags and of the print helpers ([formatPegPrice], [formatU128Le],
    [formatRole]), followed by the properties proved about them.

    Conventions.
    - A JavaScript [bigint] is a [Z].  On bigints [/] truncates toward zero
      ([Z.quot]), [%] is the matching remainder ([Z.rem]) and [**] is
      [Z.pow].
    - A JavaScript [number] is either integer valued ([Int z], the case in
      which [Number.isInteger] answers true) or not ([NonInt]: a fraction,
      NaN or an infinity).
    - [throw new Error(msg)] is the result [Err e], one constructor of
      [error] per message. *)

From Stdlib Require Import ZArith String Ascii List Bool Lia.
Import ListNotations.

Open Scope Z_scope.

(** ** JavaScript values and failure *)

Inductive number : Type :=
| Int (z : Z)
| NonInt.

(** The union type [bigint | number]. *)
Inductive bigint_or_number : Type :=
| BigInt (z : Z)
| Number (n : number).

(** The fields named in [`${field} must be ...`] messages. *)
Inductive field : Type :=
| vault_decimals      (* "vault.decimals" *)
| config_decimals     (* "config.decimals" *)
| amount_field        (* "amount" *)
| limit_durationSeconds   (* "limit.durationSeconds" *)
| limit_maxMintAmount     (* "limit.maxMintAmount" *)
| limit_maxRedeemAmount   (* "limit.maxRedeemAmount" *)
| limit_windowStart       (* "limit.windowStart" *)
| limit_mintedAmount      (* "limit.mintedAmount" *)
| limit_redeemedAmount.   (* "limit.redeemedAmount" *)

Inductive error : Type :=
| NotFiniteInteger            (* "Numeric inputs must be finite integers to avoid precision loss" *)
| AmountInNotPositive         (* "amountIn must be greater than zero" *)
| PegPriceNotPositive         (* "config.pegPriceUsd must be greater than zero" *)
| OraclePriceNotPositive      (* "oraclePriceUsd must be greater than zero" *)
| OraclePriceOutOfBounds      (* "oraclePriceUsd is outside of the vault's configured bounds" *)
| NotNonNegativeInteger (f : field)  (* `${field} must be a non-negative integer` *)
| MintFeeRateInvalid          (* "mintFeeRate must be a non-negative integer" *)
| RedeemFeeRateInvalid        (* "redeemFeeRate must be a non-negative integer" *)
| MintFeeExceedsAmount        (* "Mint fee exceeds the provided amount" *)
| RedeemFeeExceedsAmount      (* "Redeem fee exceeds the provided amount" *)
| PegPriceZero                (* "pegPriceUsd cannot be zero" *)
| OraclePriceZero             (* "oraclePriceUsd cannot be zero" *)
| ExponentInvalid             (* "Decimal exponents must be a non-negative integer" *)
| NotFiniteIntegerField (f : field)  (* `${field} must be a finite integer` *)
| AmountNotPositive           (* "amount must be greater than zero" *)
| OperationInvalid.           (* 'operation must be either "mint" or "redeem"' *)

Inductive result (E A : Type) : Type :=
| Ok (a : A)
| Err (e : E).

Arguments Ok {E A} a.
Arguments Err {E A} e.

Definition bind {E A B : Type} (r : result E A) (k : A -> result E B)
  : result E B :=
  match r with
  | Ok a => k a
  | Err e => Err e
  end.

Notation "x <- r ;; k" := (bind r (fun x => k))
  (at level 61, r at next level, right associativity).

Definition succeeds {E A : Type} (r : result E A) : Prop :=
  exists a, r = Ok a.

Definition fails {E A : Type} (r : result E A) : Prop :=
  exists e, r = Err e.

(** ** The account records, as far as the quotes and limits read them

    The generated [Config], [Vault], [Benefactor] and [PeriodLimit] types
    declare the 64-bit fields as [bigint] and [decimals] and the fee rates
    as [number]. *)

Module PeriodLimit.
Record t : Type := mk {
  durationSeconds : Z;
  maxMintAmount : Z;
  maxRedeemAmount : Z;
  mintedAmount : Z;
  redeemedAmount : Z;
  windowStart : Z
  }.
End PeriodLimit.

Module Config.
Record t : Type := mk {
  pegPriceUsd : Z;
  decimals : number;
  periodLimits : list PeriodLimit.t
  }.
End Config.

Module Vault.
Record t : Type := mk {
  minOraclePriceUsd : Z;
  maxOraclePriceUsd : Z;
  decimals : number;
  periodLimits : list PeriodLimit.t
  }.
End Vault.

Module Benefactor.
Record t : Type := mk {
  mintFeeRate : number;
  redeemFeeRate : number;
  periodLimits : list PeriodLimit.t
  }.
End Benefactor.

(** [MintQuoteInput] and [RedeemQuoteInput] have the same shape; TypeScript
  types being structural, they are one type. *)
Module QuoteInput.
Record t : Type := mk {
  amountIn : bigint_or_number;
  config : Config.t;
  benefactor : Benefactor.t;
  vault : Vault.t;
  oraclePriceUsd : bigint_or_number
  }.
End QuoteInput.

(** ** packages/sdk/src/quote/mint.ts *)

Module Mint.

Definition BASIS_POINTS : Z := 10000.
Definition PEG_PRICE_DECIMALS : Z := 4.
Definition ORACLE_PRICE_DECIMALS : Z := 8.
Definition PEG_PRICE_SCALE : Z := 10 ^ PEG_PRICE_DECIMALS.
Definition ORACLE_PRICE_SCALE : Z := 10 ^ ORACLE_PRICE_DECIMALS.

Definition MintQuoteInput : Type := QuoteInput.t.

Record MintQuote : Type := mkMintQuote {
  amountIn : Z;
  feeAmount : Z;
  netAmount : Z;
  oracleAmount : Z;
  oneToOneAmount : Z;
  mintAmount : Z
  }.

Definition ceilBigInt (n d : Z) : Z :=
  Z.quot n d + (if Z.rem n d =? 0 then 0 else 1).

Definition toBigInt (value : bigint_or_number) : result error Z :=
  match value with
  | BigInt z => Ok z
  | Number NonInt => Err NotFiniteInteger
  | Number (Int z) => Ok z
  end.

Definition ensureNonNegativeInteger (value : number) (f : field)
  : result error number :=
  match value with
  | NonInt => Err (NotNonNegativeInteger f)
  | Int z => if z <? 0 then Err (NotNonNegativeInteger f) else Ok (Int z)
  end.

Definition pow10 (exponent : number) : result error Z :=
  match exponent with
  | NonInt => Err ExponentInvalid
  | Int z => if z <? 0 then Err ExponentInvalid else Ok (10 ^ z)
  end.

Definition computeMintFee (amount : Z) (mintFeeRate : number)
  : result error Z :=
  match mintFeeRate with
  | NonInt => Err MintFeeRateInvalid
  | Int rate =>
      if rate <? 0 then Err MintFeeRateInvalid
      else Ok (ceilBigInt (amount * rate) BASIS_POINTS)
  end.

Definition computeOracleAmount
  (amount oraclePriceUsd pegPriceUsd lpScale vaultScale : Z)
  : result error Z :=
  if pegPriceUsd =? 0 then Err PegPriceZero
  else Ok (Z.quot (amount * oraclePriceUsd * lpScale * PEG_PRICE_SCALE)
                  (pegPriceUsd * vaultScale * ORACLE_PRICE_SCALE)).

Definition computeOneToOneAmount
  (netAmount pegPriceUsd lpScale vaultScale : Z) : result error Z :=
  if pegPriceUsd =? 0 then Err PegPriceZero
  else Ok (Z.quot (netAmount * PEG_PRICE_SCALE * lpScale)
                  (pegPriceUsd * vaultScale)).

Definition getMintQuote (input : MintQuoteInput) : result error MintQuote :=
  amountIn <- toBigInt (QuoteInput.amountIn input) ;;
  if amountIn <=? 0 then Err AmountInNotPositive else
  pegPriceUsd <- toBigInt (BigInt (Config.pegPriceUsd (QuoteInput.config input))) ;;
  if pegPriceUsd <=? 0 then Err PegPriceNotPositive else
  oraclePriceUsd <- toBigInt (QuoteInput.oraclePriceUsd input) ;;
  if oraclePriceUsd <=? 0 then Err OraclePriceNotPositive else
  minOraclePrice' <- toBigInt (BigInt (Vault.minOraclePriceUsd (QuoteInput.vault input))) ;;
  let minOraclePrice :=
    minOraclePrice' * 10 ^ (ORACLE_PRICE_DECIMALS - PEG_PRICE_DECIMALS) in
  if oraclePriceUsd <? minOraclePrice then Err OraclePriceOutOfBounds else
  vaultDecimals <-
    ensureNonNegativeInteger (Vault.decimals (QuoteInput.vault input)) vault_decimals ;;
  lpMintDecimals <-
    ensureNonNegativeInteger (Config.decimals (QuoteInput.config input)) config_decimals ;;
  vaultScale <- pow10 vaultDecimals ;;
  lpScale <- pow10 lpMintDecimals ;;
  feeAmount <-
    computeMintFee amountIn (Benefactor.mintFeeRate (QuoteInput.benefactor input)) ;;
  if feeAmount >? amountIn then Err MintFeeExceedsAmount else
  let netAmount := amountIn - feeAmount in
  oracleAmount <-
    computeOracleAmount amountIn oraclePriceUsd pegPriceUsd lpScale vaultScale ;;
  oneToOneAmount <-
    computeOneToOneAmount netAmount pegPriceUsd lpScale vaultScale ;;
  let mintAmount :=
    if oracleAmount <? oneToOneAmount then oracleAmount else oneToOneAmount in
  Ok {| amountIn := amountIn;
        feeAmount := feeAmount;
        netAmount := netAmount;
        oracleAmount := oracleAmount;
        oneToOneAmount := oneToOneAmount;
        mintAmount := mintAmount |}.

End Mint.

(** ** packages/sdk/src/quote/redeem.ts *)

Module Redeem.

Definition BASIS_POINTS : Z := 10000.

Definition RedeemQuoteInput : Type := QuoteInput.t.

Record RedeemQuote : Type := mkRedeemQuote {
  amountIn : Z;
  feeAmount : Z;
  netAmount : Z;
  oracleAmount : Z;
  oneToOneAmount : Z;
  redeemAmount : Z
  }.

Definition toBigInt (value : bigint_or_number) : result error Z :=
  match value with
  | BigInt z => Ok z
  | Number NonInt => Err NotFiniteInteger
  | Number (Int z) => Ok z
  end.

Definition ensureNonNegativeInteger (value : number) (f : field)
  : result error number :=
  match value with
  | NonInt => Err (NotNonNegativeInteger f)
  | Int z => if z <? 0 then Err (NotNonNegativeInteger f) else Ok (Int z)
  end.

Definition pow10 (exponent : number) : result error Z :=
  match exponent with
  | NonInt => Err ExponentInvalid
  | Int z => if z <? 0 then Err ExponentInvalid else Ok (10 ^ z)
  end.

Definition computeRedeemFee (amount : Z) (redeemFeeRate : number)
  : result error Z :=
  match redeemFeeRate with
  | NonInt => Err RedeemFeeRateInvalid
  | Int rate =>
      if rate <? 0 then Err RedeemFeeRateInvalid
      else Ok (Mint.ceilBigInt (amount * rate) BASIS_POINTS)
  end.

Definition computeOracleAmount
  (amount oraclePriceUsd pegPriceUsd lpScale vaultScale : Z)
  : result error Z :=
  if oraclePriceUsd =? 0 then Err OraclePriceZero
  else Ok (Z.quot (amount * pegPriceUsd * vaultScale * Mint.ORACLE_PRICE_SCALE)
                  (oraclePriceUsd * lpScale * Mint.PEG_PRICE_SCALE)).

Definition computeOneToOneAmount
  (netAmount pegPriceUsd lpScale vaultScale : Z) : result error Z :=
  if pegPriceUsd =? 0 then Err PegPriceZero
  else Ok (Z.quot (netAmount * pegPriceUsd * vaultScale)
                  (Mint.PEG_PRICE_SCALE * lpScale)).

Definition getRedeemQuote (input : RedeemQuoteInput)
  : result error RedeemQuote :=
  amountIn <- toBigInt (QuoteInput.amountIn input) ;;
  if amountIn <=? 0 then Err AmountInNotPositive else
  pegPriceUsd <- toBigInt (BigInt (Config.pegPriceUsd (QuoteInput.config input))) ;;
  if pegPriceUsd <=? 0 then Err PegPriceNotPositive else
  oraclePriceUsd <- toBigInt (QuoteInput.oraclePriceUsd input) ;;
  if oraclePriceUsd <=? 0 then Err OraclePriceNotPositive else
  minOraclePrice' <- toBigInt (BigInt (Vault.minOraclePriceUsd (QuoteInput.vault input))) ;;
  let minOraclePrice :=
    minOraclePrice'
    * 10 ^ (Mint.ORACLE_PRICE_DECIMALS - Mint.PEG_PRICE_DECIMALS) in
  maxOraclePrice' <- toBigInt (BigInt (Vault.maxOraclePriceUsd (QuoteInput.vault input))) ;;
  let maxOraclePrice :=
    maxOraclePrice'
    * 10 ^ (Mint.ORACLE_PRICE_DECIMALS - Mint.PEG_PRICE_DECIMALS) in
  if (oraclePriceUsd <? minOraclePrice) || (oraclePriceUsd >? maxOraclePrice)
  then Err OraclePriceOutOfBounds else
  vaultDecimals <-
    ensureNonNegativeInteger (Vault.decimals (QuoteInput.vault input)) vault_decimals ;;
  lpMintDecimals <-
    ensureNonNegativeInteger (Config.decimals (QuoteInput.config input)) config_decimals ;;
  vaultScale <- pow10 vaultDecimals ;;
  lpScale <- pow10 lpMintDecimals ;;
  feeAmount <-
    computeRedeemFee amountIn
      (Benefactor.redeemFeeRate (QuoteInput.benefactor input)) ;;
  if feeAmount >? amountIn then Err RedeemFeeExceedsAmount else
  let netAmount := amountIn - feeAmount in
  oracleAmount <-
    computeOracleAmount amountIn oraclePriceUsd pegPriceUsd lpScale vaultScale ;;
  oneToOneAmount <-
    computeOneToOneAmount netAmount pegPriceUsd lpScale vaultScale ;;
  let redeemAmount :=
    if oracleAmount <? oneToOneAmount then oracleAmount else oneToOneAmount in
  Ok {| amountIn := amountIn;
        feeAmount := feeAmount;
        netAmount := netAmount;
        oracleAmount := oracleAmount;
        oneToOneAmount := oneToOneAmount;
        redeemAmount := redeemAmount |}.

End Redeem.

(** ** The period-limit check of the SDK ([findPeriodLimitViolation]) *)

Module PeriodLimits.

(** The union of the string literals "mint" and "redeem". *)
Inductive PeriodLimitCheckOperation : Type :=
| mint
| redeem.

Record PeriodLimitCheckInput : Type := mkInput {
  amount : bigint_or_number;
  operation : PeriodLimitCheckOperation;
  benefactor : Benefactor.t;
  config : Config.t;
  vault : Vault.t
}.

(** The union of the string literals "config", "vault" and "benefactor". *)
Inductive PeriodLimitViolationAccount : Type :=
| account_config
| account_vault
| account_benefactor.

Record PeriodLimitViolation : Type := mkViolation {
  account : PeriodLimitViolationAccount;
  remainingAmount : Z
}.

Definition toBigInt (value : bigint_or_number) (f : field) : result error Z :=
  match value with
  | BigInt z => Ok z
  | Number NonInt => Err (NotFiniteIntegerField f)
  | Number (Int z) => Ok z
  end.

Definition getRemainingCapacity
  (limit : PeriodLimit.t) (now : Z) (operation : PeriodLimitCheckOperation)
  : result error (option Z) :=
  durationSeconds <-
    toBigInt (BigInt (PeriodLimit.durationSeconds limit)) limit_durationSeconds ;;
  if durationSeconds =? 0 then Ok None else
  maxAmount <-
    match operation with
    | mint => toBigInt (BigInt (PeriodLimit.maxMintAmount limit)) limit_maxMintAmount
    | redeem => toBigInt (BigInt (PeriodLimit.maxRedeemAmount limit)) limit_maxRedeemAmount
    end ;;
  if maxAmount =? 0 then Ok (Some 0) else
  windowStart <- toBigInt (BigInt (PeriodLimit.windowStart limit)) limit_windowStart ;;
  let windowElapsed := now - windowStart in
  usedAmount <-
    (if windowElapsed >=? durationSeconds then Ok 0
     else match operation with
          | mint => toBigInt (BigInt (PeriodLimit.mintedAmount limit)) limit_mintedAmount
          | redeem => toBigInt (BigInt (PeriodLimit.redeemedAmount limit)) limit_redeemedAmount
          end) ;;
  Ok (Some (maxAmount - usedAmount)).

(** The [for ... of] loop, as a recursion on the remaining slots. *)
Fixpoint findLimitExceedance
  (periodLimits : list PeriodLimit.t) (amount now : Z)
  (operation : PeriodLimitCheckOperation) : result error (option Z) :=
  match periodLimits with
  | [] => Ok None
  | limit :: rest =>
      remaining <- getRemainingCapacity limit now operation ;;
      match remaining with
      | Some r =>
          if amount >? r then Ok (Some (if r >? 0 then r else 0))
          else findLimitExceedance rest amount now operation
      | None => findLimitExceedance rest amount now operation
      end
  end.

(** [now] stands for [BigInt(Math.floor(Date.now() / 1000))], the only
    thing the function reads from its environment.  This is the function
    on the inputs of its declared type, where [operation] is one of the two
    literals and the test on it after the amount cannot fire; the function
    on an arbitrary operation string, with that test, is
    [PeriodLimitsUntyped.findPeriodLimitViolation] below. *)
Definition findPeriodLimitViolation (now : Z) (input : PeriodLimitCheckInput)
  : result error (option PeriodLimitViolation) :=
  amount <- toBigInt (amount input) amount_field ;;
  if amount <=? 0 then Err AmountNotPositive else
  let operation := operation input in
  configRemaining <-
    findLimitExceedance (Config.periodLimits (config input)) amount now operation ;;
  match configRemaining with
  | Some r => Ok (Some {| account := account_config; remainingAmount := r |})
  | None =>
  vaultRemaining <-
    findLimitExceedance (Vault.periodLimits (vault input)) amount now operation ;;
  match vaultRemaining with
  | Some r => Ok (Some {| account := account_vault; remainingAmount := r |})
  | None =>
  benefactorRemaining <-
    findLimitExceedance (Benefactor.periodLimits (benefactor input)) amount now operation ;;
  match benefactorRemaining with
  | Some r => Ok (Some {| account := account_benefactor; remainingAmount := r |})
  | None => Ok None
  end end end.

End PeriodLimits.

(** ** The CLI: [parseU64StringFlag] (utils/common.ts) and
    [parsePegPriceFlag] (commands/update-config.ts and its multisig twin)

    A JavaScript string is the list of its code units; the development
    covers the strings whose code units fit in eight bits. *)

Module Cli.

Definition js_string : Type := list ascii.

Inductive cli_error : Type :=
| InvalidU64Flag (flagName : string) (raw : js_string)
    (* `Invalid value for --${flagName}. Expected a non-negative integer but received: ${raw}` *)
| UnableToParseU64 (flagName : string) (raw : js_string)
    (* `Unable to parse --${flagName} as a 64-bit unsigned integer: ...`,
       wrapping `Value for --${flagName} exceeds the maximum u64 ...` *)
| InvalidPegPrice (value : js_string)
    (* `Invalid value for --peg-price-usd. Provide a positive decimal number ...` *)
| PegPricePrecision (value : js_string)
    (* `Peg price precision cannot exceed 4 decimal places. Received: ${value}` *)
| PegPriceNotPositive'
    (* "Peg price must be greater than 0" *)
| PegPriceTooLarge (value : js_string).
    (* `Peg price must be less than 2. Received: ${value}` *)

Definition PEG_PRICE_DECIMALS : nat := 4.

(** [\d] *)
Definition is_digit (c : ascii) : bool :=
  let n := nat_of_ascii c in ((48 <=? n) && (n <=? 57))%nat.

(** The white space and line terminators that [String.prototype.trim]
    strips, among the code units below 256: tab, line feed, vertical tab,
    form feed, carriage return, space and no-break space. *)
Definition is_whitespace (c : ascii) : bool :=
  let n := nat_of_ascii c in
  (((9 <=? n) && (n <=? 13)) || (n =? 32) || (n =? 160))%nat.

Fixpoint trimStart (s : js_string) : js_string :=
  match s with
  | [] => []
  | c :: s' => if is_whitespace c then trimStart s' else s
  end.

Definition trimEnd (s : js_string) : js_string := rev (trimStart (rev s)).

Definition trim (s : js_string) : js_string := trimEnd (trimStart s).

(** [/^\d+$/.test(s)] *)
Definition test_digits (s : js_string) : bool :=
  match s with
  | [] => false
  | _ :: _ => forallb is_digit s
  end.

(** The longest prefix of digits, and what follows it. *)
Fixpoint take_digits (s : js_string) : js_string * js_string :=
  match s with
  | [] => ([], [])
  | c :: s' =>
      if is_digit c then let (d, r) := take_digits s' in (c :: d, r)
      else ([], s)
  end.

(** [/^\d+(\.\d+)?$/.test(s)]: the greedy run of digits is the only run
    after which the rest of the pattern can match. *)
Definition test_decimal (s : js_string) : bool :=
  match take_digits s with
  | ([], _) => false
  | (_ :: _, []) => true
  | (_ :: _, c :: f) => Ascii.eqb c "." && test_digits f
  end.

(** [s.split(sep)] for a one-character separator. *)
Fixpoint split (sep : ascii) (s : js_string) : list js_string :=
  match s with
  | [] => [[]]
  | c :: s' =>
      if Ascii.eqb c sep then [] :: split sep s'
      else match split sep s' with
           | seg :: segs => (c :: seg) :: segs
           | [] => [[c]]
           end
  end.

(** [s.padEnd(n, "0")] *)
Definition padEnd (s : js_string) (n : nat) : js_string :=
  s ++ repeat "0"%char (n - length s)%nat.

Definition digit_value (c : ascii) : Z := Z.of_nat (nat_of_ascii c) - 48.

(** [BigInt(s)] on a string of decimal digits (the only strings it is
    applied to here). *)
Definition BigInt_of_string (s : js_string) : Z :=
  fold_left (fun acc c => 10 * acc + digit_value c) s 0.

Definition parseU64StringFlag (raw : js_string) (flagName : string)
  : result cli_error Z :=
  if negb (test_digits raw) then Err (InvalidU64Flag flagName raw) else
  let value := BigInt_of_string raw in
  let max := Z.shiftl 1 64 - 1 in
  if value >? max then Err (UnableToParseU64 flagName raw)
  else Ok value.

(** [s.replace(/\.$/, empty)] *)
Definition strip_final_dot (s : js_string) : js_string :=
  match rev s with
  | c :: r => if Ascii.eqb c "." then rev r else s
  | [] => s
  end.

Record PegPrice : Type := mkPegPrice {
  scaledValue : Z;
  displayValue : js_string
}.

Definition parsePegPriceFlag (value : js_string) : result cli_error PegPrice :=
  let trimmed := trim value in
  if negb (test_decimal trimmed) then Err (InvalidPegPrice value) else
  let parts := split "." trimmed in
  let whole := nth 0 parts [] in
  let fraction := nth 1 parts [] in
  if (PEG_PRICE_DECIMALS <? length fraction)%nat
  then Err (PegPricePrecision value) else
  let paddedFraction := padEnd fraction PEG_PRICE_DECIMALS in
  wholeValue <- parseU64StringFlag whole "peg-price-usd" ;;
  let fractionalValue :=
    match paddedFraction with
    | [] => 0
    | _ :: _ => BigInt_of_string paddedFraction
    end in
  let scalingFactor := 10 ^ Z.of_nat PEG_PRICE_DECIMALS in
  let scaledValue := wholeValue * scalingFactor + fractionalValue in
  if scaledValue <=? 0 then Err PegPriceNotPositive' else
  let maxPegPrice := 2 * 10 ^ Z.of_nat PEG_PRICE_DECIMALS in
  if scaledValue >=? maxPegPrice then Err (PegPriceTooLarge value) else
  let displayFraction := firstn PEG_PRICE_DECIMALS paddedFraction in
  let displayValue := strip_final_dot (whole ++ "."%char :: displayFraction) in
  Ok {| scaledValue := scaledValue; displayValue := displayValue |}.

End Cli.

(** ** The scenario of the specification, and the formulas as it words them *)

Definition scenario_config : Config.t :=
  {| Config.pegPriceUsd := 10000;
     Config.decimals := Int 6;
     Config.periodLimits := [] |}.

Definition scenario_vault : Vault.t :=
  {| Vault.minOraclePriceUsd := 9000;
     Vault.maxOraclePriceUsd := 11000;
     Vault.decimals := Int 6;
     Vault.periodLimits := [] |}.

Definition scenario_benefactor : Benefactor.t :=
  {| Benefactor.mintFeeRate := Int 25;
     Benefactor.redeemFeeRate := Int 25;
     Benefactor.periodLimits := [] |}.

Definition scenario_input : QuoteInput.t :=
  {| QuoteInput.amountIn := BigInt 1000000000;
     QuoteInput.config := scenario_config;
     QuoteInput.benefactor := scenario_benefactor;
     QuoteInput.vault := scenario_vault;
     QuoteInput.oraclePriceUsd := BigInt 100000000 |}.

Definition scenario_mint_quote : Mint.MintQuote :=
  {| Mint.amountIn := 1000000000;
     Mint.feeAmount := 2500000;
     Mint.netAmount := 997500000;
     Mint.oracleAmount := 1000000000;
     Mint.oneToOneAmount := 997500000;
     Mint.mintAmount := 997500000 |}.

Definition scenario_redeem_quote : Redeem.RedeemQuote :=
  {| Redeem.amountIn := 1000000000;
     Redeem.feeAmount := 2500000;
     Redeem.netAmount := 997500000;
     Redeem.oracleAmount := 1000000000;
     Redeem.oneToOneAmount := 997500000;
     Redeem.redeemAmount := 997500000 |}.

(** Oracle price above the vault's rescaled maximum (1.2 against 1.1). *)
Definition high_oracle_input : QuoteInput.t :=
  {| QuoteInput.amountIn := BigInt 1000000000;
     QuoteInput.config := scenario_config;
     QuoteInput.benefactor := scenario_benefactor;
     QuoteInput.vault := scenario_vault;
     QuoteInput.oraclePriceUsd := BigInt 120000000 |}.

(** The scenario for half the amount, and its quotes. *)
Definition half_amount_input : QuoteInput.t :=
  {| QuoteInput.amountIn := BigInt 500000000;
     QuoteInput.config := scenario_config;
     QuoteInput.benefactor := scenario_benefactor;
     QuoteInput.vault := scenario_vault;
     QuoteInput.oraclePriceUsd := BigInt 100000000 |}.

Definition half_amount_mint_quote : Mint.MintQuote :=
  {| Mint.amountIn := 500000000;
     Mint.feeAmount := 1250000;
     Mint.netAmount := 498750000;
     Mint.oracleAmount := 500000000;
     Mint.oneToOneAmount := 498750000;
     Mint.mintAmount := 498750000 |}.

Definition half_amount_redeem_quote : Redeem.RedeemQuote :=
  {| Redeem.amountIn := 500000000;
     Redeem.feeAmount := 1250000;
     Redeem.netAmount := 498750000;
     Redeem.oracleAmount := 500000000;
     Redeem.oneToOneAmount := 498750000;
     Redeem.redeemAmount := 498750000 |}.

(** Redeeming what the scenario minted, and the quote for it. *)
Definition redeem_minted_input : QuoteInput.t :=
  {| QuoteInput.amountIn := BigInt 997500000;
     QuoteInput.config := scenario_config;
     QuoteInput.benefactor := scenario_benefactor;
     QuoteInput.vault := scenario_vault;
     QuoteInput.oraclePriceUsd := BigInt 100000000 |}.

Definition redeem_minted_quote : Redeem.RedeemQuote :=
  {| Redeem.amountIn := 997500000;
     Redeem.feeAmount := 2493750;
     Redeem.netAmount := 995006250;
     Redeem.oracleAmount := 997500000;
     Redeem.oneToOneAmount := 995006250;
     Redeem.redeemAmount := 995006250 |}.

(** The scenario at an oracle price of 1.05, and its quotes. *)
Definition dearer_oracle_input : QuoteInput.t :=
  {| QuoteInput.amountIn := BigInt 1000000000;
     QuoteInput.config := scenario_config;
     QuoteInput.benefactor := scenario_benefactor;
     QuoteInput.vault := scenario_vault;
     QuoteInput.oraclePriceUsd := BigInt 105000000 |}.

Definition dearer_oracle_mint_quote : Mint.MintQuote :=
  {| Mint.amountIn := 1000000000;
     Mint.feeAmount := 2500000;
     Mint.netAmount := 997500000;
     Mint.oracleAmount := 1050000000;
     Mint.oneToOneAmount := 997500000;
     Mint.mintAmount := 997500000 |}.

Definition dearer_oracle_redeem_quote : Redeem.RedeemQuote :=
  {| Redeem.amountIn := 1000000000;
     Redeem.feeAmount := 2500000;
     Redeem.netAmount := 997500000;
     Redeem.oracleAmount := 952380952;
     Redeem.oneToOneAmount := 997500000;
     Redeem.redeemAmount := 952380952 |}.

(** The scenario without fee, and its mint quote. *)
Definition no_fee_input : QuoteInput.t :=
  {| QuoteInput.amountIn := BigInt 1000000000;
     QuoteInput.config := scenario_config;
     QuoteInput.benefactor :=
       {| Benefactor.mintFeeRate := Int 0;
          Benefactor.redeemFeeRate := Int 0;
          Benefactor.periodLimits := [] |};
     QuoteInput.vault := scenario_vault;
     QuoteInput.oraclePriceUsd := BigInt 100000000 |}.

Definition no_fee_mint_quote : Mint.MintQuote :=
  {| Mint.amountIn := 1000000000;
     Mint.feeAmount := 0;
     Mint.netAmount := 1000000000;
     Mint.oracleAmount := 1000000000;
     Mint.oneToOneAmount := 1000000000;
     Mint.mintAmount := 1000000000 |}.

(** A peg of 0.5000 with the oracle price equal to it, and no fee. *)
Definition half_peg_input : QuoteInput.t :=
  {| QuoteInput.amountIn := BigInt 1000000000;
     QuoteInput.config :=
       {| Config.pegPriceUsd := 5000;
          Config.decimals := Int 6;
          Config.periodLimits := [] |};
     QuoteInput.benefactor :=
       {| Benefactor.mintFeeRate := Int 0;
          Benefactor.redeemFeeRate := Int 0;
          Benefactor.periodLimits := [] |};
     QuoteInput.vault :=
       {| Vault.minOraclePriceUsd := 4000;
          Vault.maxOraclePriceUsd := 6000;
          Vault.decimals := Int 6;
          Vault.periodLimits := [] |};
     QuoteInput.oraclePriceUsd := BigInt 50000000 |}.

(** The specification's wording of the mint oracle valuation, with
    [10^8] both above and below the division bar. *)
Definition spec_mint_oracleAmount (amountIn oraclePriceUsd pegPriceUsd lpScale vaultScale : Z) : Z :=
  (amountIn * oraclePriceUsd * lpScale * 10 ^ 8)
  / (pegPriceUsd * vaultScale * 10 ^ 8).

(** ** Period limits: what the specification calls a violated slot, and
    the slot of its test *)

(** The cap and the counter of a slot that an operation looks at. *)
Definition maxAmount_of
  (operation : PeriodLimits.PeriodLimitCheckOperation) (limit : PeriodLimit.t)
  : Z :=
  match operation with
  | PeriodLimits.mint => PeriodLimit.maxMintAmount limit
  | PeriodLimits.redeem => PeriodLimit.maxRedeemAmount limit
  end.

Definition counter_of
  (operation : PeriodLimits.PeriodLimitCheckOperation) (limit : PeriodLimit.t)
  : Z :=
  match operation with
  | PeriodLimits.mint => PeriodLimit.mintedAmount limit
  | PeriodLimits.redeem => PeriodLimit.redeemedAmount limit
  end.

(** The remaining capacity of a slot in closed form ([None]: the slot is
    disabled). *)
Definition remaining_of
  (limit : PeriodLimit.t) (now : Z)
  (operation : PeriodLimits.PeriodLimitCheckOperation) : option Z :=
  if PeriodLimit.durationSeconds limit =? 0 then None
  else if maxAmount_of operation limit =? 0 then Some 0
  else if now - PeriodLimit.windowStart limit
          >=? PeriodLimit.durationSeconds limit
       then Some (maxAmount_of operation limit)
       else Some (maxAmount_of operation limit - counter_of operation limit).

(** A slot is violated by [amount] when it has a remaining capacity and the
    amount exceeds it. *)
Definition slot_violated
  (amount now : Z) (operation : PeriodLimits.PeriodLimitCheckOperation)
  (limit : PeriodLimit.t) : bool :=
  match PeriodLimits.getRemainingCapacity limit now operation with
  | Ok (Some remaining) => amount >? remaining
  | _ => false
  end.

(** The list of slots of the owner a violation names. *)
Definition limits_of
  (account : PeriodLimits.PeriodLimitViolationAccount)
  (input : PeriodLimits.PeriodLimitCheckInput) : list PeriodLimit.t :=
  match account with
  | PeriodLimits.account_config =>
      Config.periodLimits (PeriodLimits.config input)
  | PeriodLimits.account_vault =>
      Vault.periodLimits (PeriodLimits.vault input)
  | PeriodLimits.account_benefactor =>
      Benefactor.periodLimits (PeriodLimits.benefactor input)
  end.

(** One hour, at most 1000 either way, 900 used, window opened at 0. *)
Definition hourly_limit : PeriodLimit.t :=
  {| PeriodLimit.durationSeconds := 3600;
     PeriodLimit.maxMintAmount := 1000;
     PeriodLimit.maxRedeemAmount := 1000;
     PeriodLimit.mintedAmount := 900;
     PeriodLimit.redeemedAmount := 900;
     PeriodLimit.windowStart := 0 |}.

(** The same slot in the lists of all three owners. *)
Definition limited_everywhere (amount : Z) : PeriodLimits.PeriodLimitCheckInput :=
  {| PeriodLimits.amount := BigInt amount;
     PeriodLimits.operation := PeriodLimits.mint;
     PeriodLimits.benefactor :=
       {| Benefactor.mintFeeRate := Int 25;
          Benefactor.redeemFeeRate := Int 25;
          Benefactor.periodLimits := [hourly_limit] |};
     PeriodLimits.config :=
       {| Config.pegPriceUsd := 10000;
          Config.decimals := Int 6;
          Config.periodLimits := [hourly_limit] |};
     PeriodLimits.vault :=
       {| Vault.minOraclePriceUsd := 9000;
          Vault.maxOraclePriceUsd := 11000;
          Vault.decimals := Int 6;
          Vault.periodLimits := [hourly_limit] |} |}.

(** A benefactor slot that is switched on and allows no minting. *)
Definition blocked_limit : PeriodLimit.t :=
  {| PeriodLimit.durationSeconds := 60;
     PeriodLimit.maxMintAmount := 0;
     PeriodLimit.maxRedeemAmount := 500;
     PeriodLimit.mintedAmount := 0;
     PeriodLimit.redeemedAmount := 0;
     PeriodLimit.windowStart := 0 |}.

Definition blocked_input (amount : Z) : PeriodLimits.PeriodLimitCheckInput :=
  {| PeriodLimits.amount := BigInt amount;
     PeriodLimits.operation := PeriodLimits.mint;
     PeriodLimits.benefactor :=
       {| Benefactor.mintFeeRate := Int 0;
          Benefactor.redeemFeeRate := Int 0;
          Benefactor.periodLimits := [blocked_limit] |};
     PeriodLimits.config := scenario_config;
     PeriodLimits.vault := scenario_vault |}.

(** The slot in the lists of the vault and the benefactor only. *)
Definition limited_below_config (amount : Z) : PeriodLimits.PeriodLimitCheckInput :=
  {| PeriodLimits.amount := BigInt amount;
     PeriodLimits.operation := PeriodLimits.mint;
     PeriodLimits.benefactor := PeriodLimits.benefactor (limited_everywhere amount);
     PeriodLimits.config := scenario_config;
     PeriodLimits.vault := PeriodLimits.vault (limited_everywhere amount) |}.

(** ** The peg-price flag: decimal numerals and their scaled value *)

Definition str : string -> Cli.js_string := list_ascii_of_string.

(** The number a string of digits denotes, by position. *)
Fixpoint decimal_value (s : Cli.js_string) : Z :=
  match s with
  | [] => 0
  | c :: s' => Cli.digit_value c * 10 ^ Z.of_nat (length s') + decimal_value s'
  end.

(** [s] is the numeral [whole], or [whole.fraction] when [fraction] is not
    empty. *)
Definition decimal_shape (s whole fraction : Cli.js_string) : Prop :=
  whole <> [] /\
  forallb Cli.is_digit whole = true /\
  forallb Cli.is_digit fraction = true /\
  s = whole ++ match fraction with
               | [] => []
               | _ :: _ => "."%char :: fraction
               end.

(** [whole.fraction] times [10^4], for a fraction of at most four digits. *)
Definition scaled_of (whole fraction : Cli.js_string) : Z :=
  decimal_value whole * 10 ^ 4
  + decimal_value fraction * 10 ^ (4 - Z.of_nat (length fraction)).

(** ** JavaScript string helpers used by the other CLI functions *)

Module Js.

Fixpoint eqb (a b : Cli.js_string) : bool :=
  match a, b with
  | [], [] => true
  | x :: a', y :: b' => Ascii.eqb x y && eqb a' b'
  | _, _ => false
  end.

(** [String.prototype.toLowerCase] on the code units below 256: the Latin
    capitals A to Z, and the capitals from U+00C0 to U+00DE other than the
    multiplication sign U+00D7, move up by 32. *)
Definition lower_char (c : ascii) : ascii :=
  let n := nat_of_ascii c in
  if (((65 <=? n) && (n <=? 90))
      || ((192 <=? n) && (n <=? 222) && negb (n =? 215)))%nat
  then ascii_of_nat (n + 32)
  else c.

Definition toLowerCase (s : Cli.js_string) : Cli.js_string :=
  map lower_char s.

(** The digit of value [d] in [toString]: 0 to 9, then a to z. *)
Definition digit_char (d : Z) : ascii :=
  if d <? 10 then ascii_of_nat (Z.to_nat (48 + d))
  else ascii_of_nat (Z.to_nat (87 + d)).

(** The digits of [n >= 0] in front of [acc], most significant first. *)
Fixpoint digits_acc (fuel : nat) (radix n : Z) (acc : Cli.js_string)
  : Cli.js_string :=
  match fuel with
  | O => acc
  | S fuel' =>
      let acc' := digit_char (n mod radix) :: acc in
      if n / radix =? 0 then acc' else digits_acc fuel' radix (n / radix) acc'
  end.

(** [n.toString(radix)] for a bigint: a minus sign for a negative number,
    then the digits of the absolute value.  The number of binary digits
    bounds the number of digits in any radix. *)
Definition toString (radix n : Z) : Cli.js_string :=
  let m := Z.abs n in
  let digits := digits_acc (S (Z.to_nat (Z.log2 m))) radix m [] in
  if n <? 0 then "-"%char :: digits else digits.

(** [s.padStart(n, "0")] *)
Definition padStart (s : Cli.js_string) (n : nat) : Cli.js_string :=
  repeat "0"%char (n - length s)%nat ++ s.

Fixpoint drop_zeros (s : Cli.js_string) : Cli.js_string :=
  match s with
  | [] => []
  | c :: s' => if Ascii.eqb c "0" then drop_zeros s' else s
  end.

(** [s.replace(/0+$/, empty)] *)
Definition strip_final_zeros (s : Cli.js_string) : Cli.js_string :=
  rev (drop_zeros (rev s)).

(** [parts.join(sep)] *)
Fixpoint join (sep : Cli.js_string) (parts : list Cli.js_string)
  : Cli.js_string :=
  match parts with
  | [] => []
  | [part] => part
  | part :: rest => part ++ sep ++ join sep rest
  end.

End Js.

(** ** utils/common.ts and utils/benefactor.ts: flags *)

Module Flags.

Inductive flag_error : Type :=
| InvalidBoolean (flagName : string) (raw : Cli.js_string)
    (* `Invalid value for --${flagName}. Expected a boolean-like value (true/false). Received: ${raw}` *)
| InvalidBenefactorStatus (flagName : string) (raw : Cli.js_string)
    (* `Invalid value for --${flagName}. Expected a value like active/disabled or true/false. Received: ${raw}` *)
| FlagRequired (flagName : string)
    (* `--${flagName} is required.` *)
| FlagNotInteger (flagName : string)
    (* `--${flagName} must be an integer.` *)
| FeeRateOutOfRange (flagName : string).
    (* `--${flagName} must be between 0 and 10000 (inclusive).` *)

Definition true_words : list Cli.js_string :=
  map str ["true"; "t"; "1"; "yes"; "y"; "on"; "enable"; "enabled"]%string.

Definition false_words : list Cli.js_string :=
  map str ["false"; "f"; "0"; "no"; "n"; "off"; "disable"; "disabled"]%string.

(** [words.includes(s)] *)
Definition includes (words : list Cli.js_string) (s : Cli.js_string) : bool :=
  existsb (Js.eqb s) words.

Definition parseBooleanFlag (raw : Cli.js_string) (flagName : string)
  : result flag_error bool :=
  let normalized := Js.toLowerCase (Cli.trim raw) in
  if includes true_words normalized then Ok true
  else if includes false_words normalized then Ok false
  else Err (InvalidBoolean flagName raw).

Inductive BenefactorStatus : Type :=
| Active
| Disabled.

Record ParsedBenefactorStatus : Type := mkBenefactorStatus {
  benefactor_name : Cli.js_string;
  benefactor_status : BenefactorStatus
}.

Definition parseBenefactorStatusFlag (raw : Cli.js_string) (flagName : string)
  : result flag_error ParsedBenefactorStatus :=
  let normalized := Js.toLowerCase (Cli.trim raw) in
  if Js.eqb normalized (str "active")
  then Ok {| benefactor_name := str "active"; benefactor_status := Active |}
  else if Js.eqb normalized (str "disabled")
          || Js.eqb normalized (str "inactive")
  then Ok {| benefactor_name := str "disabled";
             benefactor_status := Disabled |}
  else
    match parseBooleanFlag raw flagName with
    | Ok isActive =>
        Ok {| benefactor_name :=
                if isActive then str "active" else str "disabled";
              benefactor_status := if isActive then Active else Disabled |}
    | Err _ => Err (InvalidBenefactorStatus flagName raw)
    end.

(** [value] is a [number] or [undefined]. *)
Definition parseBenefactorFeeRateFlag (value : option number) (flagName : string)
  : result flag_error number :=
  match value with
  | None => Err (FlagRequired flagName)
  | Some NonInt => Err (FlagNotInteger flagName)
  | Some (Int z) =>
      if (z <? 0) || (z >? 10000) then Err (FeeRateOutOfRange flagName)
      else Ok (Int z)
  end.

End Flags.

(** ** The print commands: [formatPegPrice], [formatU128Le], [formatRole] *)

Module Print.

Definition PEG_PRICE_DECIMALS : nat := 4.

Definition formatPegPrice (value : Z) : Cli.js_string :=
  let scalingFactor := 10 ^ Z.of_nat PEG_PRICE_DECIMALS in
  let whole := Z.quot value scalingFactor in
  let fraction := Z.rem value scalingFactor in
  if fraction =? 0 then Js.toString 10 whole else
  let fractionString :=
    Js.strip_final_zeros
      (Js.padStart (Js.toString 10 fraction) PEG_PRICE_DECIMALS) in
  if (0 <? length fractionString)%nat
  then Js.toString 10 whole ++ "."%char :: fractionString
  else Js.toString 10 whole.

(** The loop of [formatU128Le]: [result += BigInt(value[i]) << (i * 8)]. *)
Fixpoint sum_bytes (value : list Byte.byte) (i result : Z) : Z :=
  match value with
  | [] => result
  | b :: rest =>
      sum_bytes rest (i + 1)
        (result + Z.shiftl (Z.of_N (Byte.to_N b)) (i * 8))
  end.

Definition formatU128Le (value : list Byte.byte) : Cli.js_string :=
  Js.toString 10 (sum_bytes value 0 0).

Definition OPERATOR_ROLE_NAMES : list Cli.js_string :=
  map str ["admin"; "period-manager"; "global-disabler"; "vault-manager";
           "vault-disabler"; "benefactor-manager"; "benefactor-disabler";
           "peg-manager"; "collateral-manager"]%string.

(** The first loop of [formatRole], from [index] on: the names, with their
    bit, of the roles whose bit is set. *)
Fixpoint activeRoles_from (names : list Cli.js_string) (index value : Z)
  : list Cli.js_string :=
  match names with
  | [] => []
  | name :: rest =>
      let bit := Z.shiftl 1 index in
      let later := activeRoles_from rest (index + 1) value in
      if Z.land value bit =? 0 then later
      else (name ++ str " (bit " ++ Js.toString 10 index ++ str ")") :: later
  end.

Definition knownMask : Z :=
  Z.shiftl 1 (Z.of_nat (length OPERATOR_ROLE_NAMES)) - 1.

Definition unknownMask (value : Z) : Z := Z.land value (Z.lnot knownMask).

Definition formatRole (value : Z) : Cli.js_string :=
  let activeRoles := activeRoles_from OPERATOR_ROLE_NAMES 0 value in
  let unknownMask := unknownMask value in
  let raw := str " (raw " ++ Js.toString 10 value ++ str ")" in
  if (length activeRoles =? 0)%nat && (unknownMask =? 0)
  then str "none" ++ raw
  else
    let parts :=
      (if (0 <? length activeRoles)%nat
       then [Js.join (str ", ") activeRoles] else [])
      ++ (if unknownMask =? 0 then []
          else [str "unknown mask 0x" ++ Js.toString 16 unknownMask]) in
    Js.join (str "; ") parts ++ raw.

End Print.

(** ** commands/update-vault.ts: [parsePythFeedId] *)

Module UpdateVault.

Inductive vault_error : Type :=
| InvalidPythFeedId.
    (* "--pyth-feed-id must be a 64-character hex string representing 32 bytes" *)

(** [s.replace(/^0x/, empty)] *)
Definition strip_0x (s : Cli.js_string) : Cli.js_string :=
  match s with
  | c0 :: c1 :: rest =>
      if Ascii.eqb c0 "0" && Ascii.eqb c1 "x" then rest else s
  | _ => s
  end.

(** [[0-9a-f]] *)
Definition is_hex (c : ascii) : bool :=
  let n := nat_of_ascii c in
  (((48 <=? n) && (n <=? 57)) || ((97 <=? n) && (n <=? 102)))%nat.

Definition hex_value (c : ascii) : Z :=
  let n := Z.of_nat (nat_of_ascii c) in
  if n <=? 57 then n - 48 else n - 87.

(** [/^[0-9a-f]{64}$/.test(s)] *)
Definition test_hex64 (s : Cli.js_string) : bool :=
  (length s =? 64)%nat && forallb is_hex s.

(** [Number.parseInt(s, 16)] on a string of lower-case hexadecimal digits
    (the only strings it is applied to here). *)
Definition parseInt16 (s : Cli.js_string) : Z :=
  fold_left (fun acc c => 16 * acc + hex_value c) s 0.

(** [s.slice(from, to)] for [0 <= from <= to]. *)
Definition slice (s : Cli.js_string) (from to : nat) : Cli.js_string :=
  firstn (to - from) (skipn from s).

(** The loop filling the 32 bytes, from index [i]. *)
Fixpoint fill_bytes (count i : nat) (normalized : Cli.js_string) : list Z :=
  match count with
  | O => []
  | S count' =>
      parseInt16 (slice normalized (i * 2) (i * 2 + 2))
      :: fill_bytes count' (S i) normalized
  end.

Definition parsePythFeedId (value : Cli.js_string)
  : result vault_error (list Z) :=
  let normalized := strip_0x (Js.toLowerCase value) in
  if negb (test_hex64 normalized) then Err InvalidPythFeedId
  else Ok (fill_bytes 32 0 normalized).

End UpdateVault.

(** ** [findPeriodLimitViolation] on an operation that is any string

    The declared type of [operation] is erased when the code runs, and the
    function tests the string itself, after the amount. *)

Module PeriodLimitsUntyped.

Record PeriodLimitCheckInput : Type := mkInput {
  amount : bigint_or_number;
  operation : Cli.js_string;
  benefactor : Benefactor.t;
  config : Config.t;
  vault : Vault.t
}.

(** Past the test the string is "mint" or "redeem"; the helpers compare it
    with "mint" and take the redeem side otherwise. *)
Definition narrow (operation : Cli.js_string)
  : PeriodLimits.PeriodLimitCheckOperation :=
  if Js.eqb operation (str "mint") then PeriodLimits.mint
  else PeriodLimits.redeem.

Definition findPeriodLimitViolation (now : Z) (input : PeriodLimitCheckInput)
  : result error (option PeriodLimits.PeriodLimitViolation) :=
  amount <- PeriodLimits.toBigInt (amount input) amount_field ;;
  if amount <=? 0 then Err AmountNotPositive else
  let operation := operation input in
  if negb (Js.eqb operation (str "mint"))
     && negb (Js.eqb operation (str "redeem"))
  then Err OperationInvalid else
  let operation := narrow operation in
  configRemaining <-
    PeriodLimits.findLimitExceedance
      (Config.periodLimits (config input)) amount now operation ;;
  match configRemaining with
  | Some r =>
      Ok (Some {| PeriodLimits.account := PeriodLimits.account_config;
                  PeriodLimits.remainingAmount := r |})
  | None =>
  vaultRemaining <-
    PeriodLimits.findLimitExceedance
      (Vault.periodLimits (vault input)) amount now operation ;;
  match vaultRemaining with
  | Some r =>
      Ok (Some {| PeriodLimits.account := PeriodLimits.account_vault;
                  PeriodLimits.remainingAmount := r |})
  | None =>
  benefactorRemaining <-
    PeriodLimits.findLimitExceedance
      (Benefactor.periodLimits (benefactor input)) amount now operation ;;
  match benefactorRemaining with
  | Some r =>
      Ok (Some {| PeriodLimits.account := PeriodLimits.account_benefactor;
                  PeriodLimits.remainingAmount := r |})
  | None => Ok None
  end end end.

End PeriodLimitsUntyped.



(** [limited_everywhere] with an operation string of the caller's. *)
Definition limited_everywhere_as (operation : Cli.js_string) (amount : Z)
  : PeriodLimitsUntyped.PeriodLimitCheckInput :=
  let input := limited_everywhere amount in
  {| PeriodLimitsUntyped.amount := PeriodLimits.amount input;
     PeriodLimitsUntyped.operation := operation;
     PeriodLimitsUntyped.benefactor := PeriodLimits.benefactor input;
     PeriodLimitsUntyped.config := PeriodLimits.config input;
     PeriodLimitsUntyped.vault := PeriodLimits.vault input |}.

(** ** What the print helpers are measured against *)

(** The number that bytes denote, least significant byte first. *)
Fixpoint le_value (bytes : list Byte.byte) : Z :=
  match bytes with
  | [] => 0
  | b :: rest => Z.of_N (Byte.to_N b) + 256 * le_value rest
  end.

(** The named roles with their bit, the ones a mask sets, the label
    [formatRole] prints for one, and the value of a set of bits. *)
Definition role_bits : list (Cli.js_string * Z) :=
  combine Print.OPERATOR_ROLE_NAMES
          (map Z.of_nat (seq 0 (length Print.OPERATOR_ROLE_NAMES))).

Definition reported_roles (value : Z) : list (Cli.js_string * Z) :=
  filter (fun role => Z.testbit value (snd role)) role_bits.

Definition role_label (role : Cli.js_string * Z) : Cli.js_string :=
  fst role ++ str " (bit " ++ Js.toString 10 (snd role) ++ str ")".

Definition bits_total (roles : list (Cli.js_string * Z)) : Z :=
  fold_right (fun role total => 2 ^ snd role + total) 0 roles.

(** Bytes written as lower-case hexadecimal, two digits each. *)
Definition hex_of_bytes (bytes : list Z) : Cli.js_string :=
  flat_map (fun b => [Js.digit_char (b / 16); Js.digit_char (b mod 16)]) bytes.

(** A feed id of 32 bytes. *)
Definition sample_feed_id : list Z :=
  [255; 0; 97; 4; 200; 33; 18; 250; 7; 64; 129; 3; 77; 190; 45; 222;
   16; 5; 171; 90; 31; 248; 2; 119; 60; 205; 11; 154; 83; 240; 9; 128].

(** * Properties *)

(** ** Integer division on non-negative operands *)

Lemma quot_is_floor (n d : Z) : 0 <= n -> 0 < d -> Z.quot n d = n / d.
Proof. intros Hn Hd. apply Z.quot_div_nonneg; assumption. Qed.

(** [ceilBigInt] is the ceiling of the quotient: the least [f] with
    [n <= d * f]. *)
Lemma ceilBigInt_ceiling (n d : Z) :
  0 <= n -> 0 < d ->
  d * (Mint.ceilBigInt n d - 1) < n <= d * Mint.ceilBigInt n d.
Proof.
  intros Hn Hd. unfold Mint.ceilBigInt.
  rewrite Z.quot_div_nonneg, Z.rem_mod_nonneg by lia.
  pose proof (Z.div_mod n d ltac:(lia)) as E.
  pose proof (Z.mod_pos_bound n d Hd) as B.
  destruct (Z.eqb_spec (n mod d) 0); nia.
Qed.

Lemma ceilBigInt_le (a r : Z) :
  0 <= a -> 0 <= r <= 10000 -> 0 <= Mint.ceilBigInt (a * r) 10000 <= a.
Proof.
  intros Ha Hr.
  pose proof (ceilBigInt_ceiling (a * r) 10000 ltac:(nia) ltac:(lia)) as C.
  nia.
Qed.

Lemma pow10_pos (z : Z) : 0 <= z -> 0 < 10 ^ z.
Proof. intros. apply Z.pow_pos_nonneg; lia. Qed.

(** Case analysis along the tests a hypothesis went through, and the
    arithmetic reading of the tests. *)
Ltac head_scrutinee t :=
  lazymatch t with
  | match ?x with _ => _ end =>
      lazymatch x with
      | match _ with _ => _ end => head_scrutinee x
      | _ => x
      end
  end.

Ltac walk H :=
  repeat (cbv beta iota in H;
          match type of H with
          | ?lhs = _ =>
              let x := head_scrutinee lhs in
              destruct x eqn:?; try discriminate H
          end).

Ltac tests_to_props :=
  repeat match goal with
  | H : (_ <=? _) = true |- _ => apply Z.leb_le in H
  | H : (_ <=? _) = false |- _ => apply Z.leb_gt in H
  | H : (_ <? _) = true |- _ => apply Z.ltb_lt in H
  | H : (_ <? _) = false |- _ => apply Z.ltb_ge in H
  | H : (_ >? _) = _ |- _ => rewrite Z.gtb_ltb in H
  | H : (_ >=? _) = _ |- _ => rewrite Z.geb_leb in H
  | H : (_ =? _) = true |- _ => apply Z.eqb_eq in H
  | H : (_ =? _) = false |- _ => apply Z.eqb_neq in H
  | H : (_ || _)%bool = true |- _ => apply orb_true_iff in H
  | H : (_ || _)%bool = false |- _ => apply orb_false_iff in H; destruct H
  end.

(** ** What a successful quote went through *)

Lemma getMintQuote_Ok_inv (input : Mint.MintQuoteInput) (q : Mint.MintQuote) :
  Mint.getMintQuote input = Ok q ->
  exists a p vd ld r,
    Mint.toBigInt (QuoteInput.amountIn input) = Ok a /\
    Mint.toBigInt (QuoteInput.oraclePriceUsd input) = Ok p /\
    Vault.decimals (QuoteInput.vault input) = Int vd /\
    Config.decimals (QuoteInput.config input) = Int ld /\
    Benefactor.mintFeeRate (QuoteInput.benefactor input) = Int r /\
    0 < a /\ 0 < Config.pegPriceUsd (QuoteInput.config input) /\ 0 < p /\
    Vault.minOraclePriceUsd (QuoteInput.vault input) * 10 ^ 4 <= p /\
    0 <= vd /\ 0 <= ld /\ 0 <= r /\
    Mint.ceilBigInt (a * r) 10000 <= a /\
    let peg := Config.pegPriceUsd (QuoteInput.config input) in
    let fee := Mint.ceilBigInt (a * r) 10000 in
    let oracleAmount :=
      Z.quot (a * p * 10 ^ ld * 10 ^ 4) (peg * 10 ^ vd * 10 ^ 8) in
    let oneToOneAmount :=
      Z.quot ((a - fee) * 10 ^ 4 * 10 ^ ld) (peg * 10 ^ vd) in
    q = {| Mint.amountIn := a;
           Mint.feeAmount := fee;
           Mint.netAmount := a - fee;
           Mint.oracleAmount := oracleAmount;
           Mint.oneToOneAmount := oneToOneAmount;
           Mint.mintAmount :=
             if oracleAmount <? oneToOneAmount then oracleAmount
             else oneToOneAmount |}.
Proof.
  unfold Mint.getMintQuote, bind. intros H.
  destruct (Mint.toBigInt (QuoteInput.amountIn input)) as [a|] eqn:Ea;
    [|discriminate].
  destruct (Z.leb_spec a 0); [discriminate|].
  cbn [Mint.toBigInt] in H.
  destruct (Z.leb_spec (Config.pegPriceUsd (QuoteInput.config input)) 0);
    [discriminate|].
  destruct (Mint.toBigInt (QuoteInput.oraclePriceUsd input)) as [p|] eqn:Ep;
    [|discriminate].
  destruct (Z.leb_spec p 0); [discriminate|].
  change (10 ^ (Mint.ORACLE_PRICE_DECIMALS - Mint.PEG_PRICE_DECIMALS))
    with (10 ^ 4) in H.
  destruct (Z.ltb_spec p
              (Vault.minOraclePriceUsd (QuoteInput.vault input) * 10 ^ 4));
    [discriminate|].
  unfold Mint.ensureNonNegativeInteger in H.
  destruct (Vault.decimals (QuoteInput.vault input)) as [vd|] eqn:Evd;
    [|discriminate].
  destruct (Z.ltb_spec vd 0); [discriminate|].
  destruct (Config.decimals (QuoteInput.config input)) as [ld|] eqn:Eld;
    [|discriminate].
  destruct (Z.ltb_spec ld 0); [discriminate|].
  unfold Mint.pow10 in H.
  destruct (Z.ltb_spec vd 0); [lia|].
  destruct (Z.ltb_spec ld 0); [lia|].
  unfold Mint.computeMintFee in H.
  destruct (Benefactor.mintFeeRate (QuoteInput.benefactor input))
    as [r|] eqn:Er; [|discriminate].
  destruct (Z.ltb_spec r 0); [discriminate|].
  change Mint.BASIS_POINTS with 10000 in H.
  destruct (Z.gtb_spec (Mint.ceilBigInt (a * r) 10000) a); [discriminate|].
  unfold Mint.computeOracleAmount, Mint.computeOneToOneAmount in H.
  destruct (Z.eqb_spec (Config.pegPriceUsd (QuoteInput.config input)) 0);
    [lia|].
  change Mint.PEG_PRICE_SCALE with (10 ^ 4) in H.
  change Mint.ORACLE_PRICE_SCALE with (10 ^ 8) in H.
  injection H as <-.
  exists a, p, vd, ld, r. repeat split; try assumption; lia.
Qed.

Lemma getMintQuote_Ok_intro (input : Mint.MintQuoteInput) (a p vd ld r : Z) :
  Mint.toBigInt (QuoteInput.amountIn input) = Ok a ->
  Mint.toBigInt (QuoteInput.oraclePriceUsd input) = Ok p ->
  Vault.decimals (QuoteInput.vault input) = Int vd ->
  Config.decimals (QuoteInput.config input) = Int ld ->
  Benefactor.mintFeeRate (QuoteInput.benefactor input) = Int r ->
  0 < a -> 0 < Config.pegPriceUsd (QuoteInput.config input) -> 0 < p ->
  Vault.minOraclePriceUsd (QuoteInput.vault input) * 10 ^ 4 <= p ->
  0 <= vd -> 0 <= ld -> 0 <= r ->
  Mint.ceilBigInt (a * r) 10000 <= a ->
  let peg := Config.pegPriceUsd (QuoteInput.config input) in
  let fee := Mint.ceilBigInt (a * r) 10000 in
  let oracleAmount :=
    Z.quot (a * p * 10 ^ ld * 10 ^ 4) (peg * 10 ^ vd * 10 ^ 8) in
  let oneToOneAmount :=
    Z.quot ((a - fee) * 10 ^ 4 * 10 ^ ld) (peg * 10 ^ vd) in
  Mint.getMintQuote input =
    Ok {| Mint.amountIn := a;
          Mint.feeAmount := fee;
          Mint.netAmount := a - fee;
          Mint.oracleAmount := oracleAmount;
          Mint.oneToOneAmount := oneToOneAmount;
          Mint.mintAmount :=
            if oracleAmount <? oneToOneAmount then oracleAmount
            else oneToOneAmount |}.
Proof.
  intros Ea Ep Evd Eld Er Ha Hpeg Hp Hmin Hvd Hld Hr Hfee.
  unfold Mint.getMintQuote, bind.
  rewrite Ea, Ep, Evd, Eld, Er.
  cbn [Mint.toBigInt Mint.ensureNonNegativeInteger Mint.computeMintFee].
  change (10 ^ (Mint.ORACLE_PRICE_DECIMALS - Mint.PEG_PRICE_DECIMALS))
    with (10 ^ 4).
  change Mint.BASIS_POINTS with 10000.
  destruct (Z.leb_spec a 0); [lia|].
  destruct (Z.leb_spec (Config.pegPriceUsd (QuoteInput.config input)) 0);
    [lia|].
  destruct (Z.leb_spec p 0); [lia|].
  destruct (Z.ltb_spec p
              (Vault.minOraclePriceUsd (QuoteInput.vault input) * 10 ^ 4));
    [lia|].
  destruct (Z.ltb_spec vd 0); [lia|].
  destruct (Z.ltb_spec ld 0); [lia|].
  cbn [Mint.pow10].
  destruct (Z.ltb_spec vd 0); [lia|].
  destruct (Z.ltb_spec ld 0); [lia|].
  destruct (Z.ltb_spec r 0); [lia|].
  destruct (Z.gtb_spec (Mint.ceilBigInt (a * r) 10000) a); [lia|].
  unfold Mint.computeOracleAmount, Mint.computeOneToOneAmount.
  destruct (Z.eqb_spec (Config.pegPriceUsd (QuoteInput.config input)) 0);
    [lia|].
  reflexivity.
Qed.

Lemma getRedeemQuote_Ok_inv
  (input : Redeem.RedeemQuoteInput) (q : Redeem.RedeemQuote) :
  Redeem.getRedeemQuote input = Ok q ->
  exists a p vd ld r,
    Redeem.toBigInt (QuoteInput.amountIn input) = Ok a /\
    Redeem.toBigInt (QuoteInput.oraclePriceUsd input) = Ok p /\
    Vault.decimals (QuoteInput.vault input) = Int vd /\
    Config.decimals (QuoteInput.config input) = Int ld /\
    Benefactor.redeemFeeRate (QuoteInput.benefactor input) = Int r /\
    0 < a /\ 0 < Config.pegPriceUsd (QuoteInput.config input) /\ 0 < p /\
    Vault.minOraclePriceUsd (QuoteInput.vault input) * 10 ^ 4 <= p /\
    p <= Vault.maxOraclePriceUsd (QuoteInput.vault input) * 10 ^ 4 /\
    0 <= vd /\ 0 <= ld /\ 0 <= r /\
    Mint.ceilBigInt (a * r) 10000 <= a /\
    let peg := Config.pegPriceUsd (QuoteInput.config input) in
    let fee := Mint.ceilBigInt (a * r) 10000 in
    let oracleAmount :=
      Z.quot (a * peg * 10 ^ vd * 10 ^ 8) (p * 10 ^ ld * 10 ^ 4) in
    let oneToOneAmount :=
      Z.quot ((a - fee) * peg * 10 ^ vd) (10 ^ 4 * 10 ^ ld) in
    q = {| Redeem.amountIn := a;
           Redeem.feeAmount := fee;
           Redeem.netAmount := a - fee;
           Redeem.oracleAmount := oracleAmount;
           Redeem.oneToOneAmount := oneToOneAmount;
           Redeem.redeemAmount :=
             if oracleAmount <? oneToOneAmount then oracleAmount
             else oneToOneAmount |}.
Proof.
  unfold Redeem.getRedeemQuote, bind. intros H.
  destruct (Redeem.toBigInt (QuoteInput.amountIn input)) as [a|] eqn:Ea;
    [|discriminate].
  destruct (Z.leb_spec a 0); [discriminate|].
  cbn [Redeem.toBigInt] in H.
  destruct (Z.leb_spec (Config.pegPriceUsd (QuoteInput.config input)) 0);
    [discriminate|].
  destruct (Redeem.toBigInt (QuoteInput.oraclePriceUsd input)) as [p|] eqn:Ep;
    [|discriminate].
  destruct (Z.leb_spec p 0); [discriminate|].
  change (10 ^ (Mint.ORACLE_PRICE_DECIMALS - Mint.PEG_PRICE_DECIMALS))
    with (10 ^ 4) in H.
  destruct (Z.ltb_spec p
              (Vault.minOraclePriceUsd (QuoteInput.vault input) * 10 ^ 4));
    [discriminate|].
  destruct (Z.gtb_spec p
              (Vault.maxOraclePriceUsd (QuoteInput.vault input) * 10 ^ 4));
    [discriminate|].
  cbn [orb] in H.
  unfold Redeem.ensureNonNegativeInteger in H.
  destruct (Vault.decimals (QuoteInput.vault input)) as [vd|] eqn:Evd;
    [|discriminate].
  destruct (Z.ltb_spec vd 0); [discriminate|].
  destruct (Config.decimals (QuoteInput.config input)) as [ld|] eqn:Eld;
    [|discriminate].
  destruct (Z.ltb_spec ld 0); [discriminate|].
  unfold Redeem.pow10 in H.
  destruct (Z.ltb_spec vd 0); [lia|].
  destruct (Z.ltb_spec ld 0); [lia|].
  unfold Redeem.computeRedeemFee in H.
  destruct (Benefactor.redeemFeeRate (QuoteInput.benefactor input))
    as [r|] eqn:Er; [|discriminate].
  destruct (Z.ltb_spec r 0); [discriminate|].
  change Redeem.BASIS_POINTS with 10000 in H.
  destruct (Z.gtb_spec (Mint.ceilBigInt (a * r) 10000) a); [discriminate|].
  unfold Redeem.computeOracleAmount, Redeem.computeOneToOneAmount in H.
  destruct (Z.eqb_spec p 0); [lia|].
  destruct (Z.eqb_spec (Config.pegPriceUsd (QuoteInput.config input)) 0);
    [lia|].
  change Mint.PEG_PRICE_SCALE with (10 ^ 4) in H.
  change Mint.ORACLE_PRICE_SCALE with (10 ^ 8) in H.
  injection H as <-.
  exists a, p, vd, ld, r. repeat split; try assumption; lia.
Qed.

Lemma getRedeemQuote_Ok_intro
  (input : Redeem.RedeemQuoteInput) (a p vd ld r : Z) :
  Redeem.toBigInt (QuoteInput.amountIn input) = Ok a ->
  Redeem.toBigInt (QuoteInput.oraclePriceUsd input) = Ok p ->
  Vault.decimals (QuoteInput.vault input) = Int vd ->
  Config.decimals (QuoteInput.config input) = Int ld ->
  Benefactor.redeemFeeRate (QuoteInput.benefactor input) = Int r ->
  0 < a -> 0 < Config.pegPriceUsd (QuoteInput.config input) -> 0 < p ->
  Vault.minOraclePriceUsd (QuoteInput.vault input) * 10 ^ 4 <= p ->
  p <= Vault.maxOraclePriceUsd (QuoteInput.vault input) * 10 ^ 4 ->
  0 <= vd -> 0 <= ld -> 0 <= r ->
  Mint.ceilBigInt (a * r) 10000 <= a ->
  let peg := Config.pegPriceUsd (QuoteInput.config input) in
  let fee := Mint.ceilBigInt (a * r) 10000 in
  let oracleAmount :=
    Z.quot (a * peg * 10 ^ vd * 10 ^ 8) (p * 10 ^ ld * 10 ^ 4) in
  let oneToOneAmount :=
    Z.quot ((a - fee) * peg * 10 ^ vd) (10 ^ 4 * 10 ^ ld) in
  Redeem.getRedeemQuote input =
    Ok {| Redeem.amountIn := a;
          Redeem.feeAmount := fee;
          Redeem.netAmount := a - fee;
          Redeem.oracleAmount := oracleAmount;
          Redeem.oneToOneAmount := oneToOneAmount;
          Redeem.redeemAmount :=
            if oracleAmount <? oneToOneAmount then oracleAmount
            else oneToOneAmount |}.
Proof.
  intros Ea Ep Evd Eld Er Ha Hpeg Hp Hmin Hmax Hvd Hld Hr Hfee.
  unfold Redeem.getRedeemQuote, bind.
  rewrite Ea, Ep, Evd, Eld, Er.
  cbn [Redeem.toBigInt Redeem.ensureNonNegativeInteger
       Redeem.computeRedeemFee].
  change (10 ^ (Mint.ORACLE_PRICE_DECIMALS - Mint.PEG_PRICE_DECIMALS))
    with (10 ^ 4).
  change Redeem.BASIS_POINTS with 10000.
  destruct (Z.leb_spec a 0); [lia|].
  destruct (Z.leb_spec (Config.pegPriceUsd (QuoteInput.config input)) 0);
    [lia|].
  destruct (Z.leb_spec p 0); [lia|].
  destruct (Z.ltb_spec p
              (Vault.minOraclePriceUsd (QuoteInput.vault input) * 10 ^ 4));
    [lia|].
  destruct (Z.gtb_spec p
              (Vault.maxOraclePriceUsd (QuoteInput.vault input) * 10 ^ 4));
    [lia|].
  cbn [orb].
  destruct (Z.ltb_spec vd 0); [lia|].
  destruct (Z.ltb_spec ld 0); [lia|].
  cbn [Redeem.pow10].
  destruct (Z.ltb_spec vd 0); [lia|].
  destruct (Z.ltb_spec ld 0); [lia|].
  destruct (Z.ltb_spec r 0); [lia|].
  destruct (Z.gtb_spec (Mint.ceilBigInt (a * r) 10000) a); [lia|].
  unfold Redeem.computeOracleAmount, Redeem.computeOneToOneAmount.
  destruct (Z.eqb_spec p 0); [lia|].
  destruct (Z.eqb_spec (Config.pegPriceUsd (QuoteInput.config input)) 0);
    [lia|].
  reflexivity.
Qed.

(** ** The quotes *)

(** C1. Whenever [getMintQuote] succeeds its [mintAmount] is the minimum of
    the [oracleAmount] and the [oneToOneAmount] of the same quote, and
    whenever [getRedeemQuote] succeeds its [redeemAmount] is the minimum of
    its [oracleAmount] and [oneToOneAmount]. *)
Theorem quote_amount_is_min :
  (forall input q,
     Mint.getMintQuote input = Ok q ->
     Mint.mintAmount q = Z.min (Mint.oracleAmount q) (Mint.oneToOneAmount q))
  /\
  (forall input q,
     Redeem.getRedeemQuote input = Ok q ->
     Redeem.redeemAmount q
     = Z.min (Redeem.oracleAmount q) (Redeem.oneToOneAmount q)).
Proof.
  split; intros input q H.
  - apply getMintQuote_Ok_inv in H.
    destruct H as (a & p & vd & ld & r & H). decompose [and] H. clear H.
    cbv zeta in *.
    subst q. cbn [Mint.mintAmount Mint.oracleAmount Mint.oneToOneAmount].
    match goal with |- context [?x <? ?y] => destruct (Z.ltb_spec x y) end;
      lia.
  - apply getRedeemQuote_Ok_inv in H.
    destruct H as (a & p & vd & ld & r & H). decompose [and] H. clear H.
    cbv zeta in *.
    subst q.
    cbn [Redeem.redeemAmount Redeem.oracleAmount Redeem.oneToOneAmount].
    match goal with |- context [?x <? ?y] => destruct (Z.ltb_spec x y) end;
      lia.
Qed.

Lemma quote_amount_is_min_witness :
  Mint.mintAmount scenario_mint_quote
  = Z.min (Mint.oracleAmount scenario_mint_quote)
          (Mint.oneToOneAmount scenario_mint_quote)
  /\
  Redeem.redeemAmount scenario_redeem_quote
  = Z.min (Redeem.oracleAmount scenario_redeem_quote)
          (Redeem.oneToOneAmount scenario_redeem_quote).
Proof.
  split.
  - apply (proj1 quote_amount_is_min scenario_input). vm_compute. reflexivity.
  - apply (proj2 quote_amount_is_min scenario_input). vm_compute. reflexivity.
Defined.

(** C2, as the code has it.  Whenever [getMintQuote] succeeds, its
    [oracleAmount] is the floor of
    [amountIn * oraclePriceUsd * lpScale * 10^4
     / (pegPriceUsd * vaultScale * 10^8)],
    with [lpScale = 10^config.decimals] and [vaultScale = 10^vault.decimals]:
    the numerator carries the peg-price scale [10^4], not [10^8]. *)
Theorem mint_oracleAmount_formula :
  forall input q a p vd ld,
    Mint.toBigInt (QuoteInput.amountIn input) = Ok a ->
    Mint.toBigInt (QuoteInput.oraclePriceUsd input) = Ok p ->
    Vault.decimals (QuoteInput.vault input) = Int vd ->
    Config.decimals (QuoteInput.config input) = Int ld ->
    Mint.getMintQuote input = Ok q ->
    let lpScale := 10 ^ ld in
    let vaultScale := 10 ^ vd in
    Mint.oracleAmount q
    = (a * p * lpScale * 10 ^ 4)
      / (Config.pegPriceUsd (QuoteInput.config input) * vaultScale * 10 ^ 8).
Proof.
  intros input q a p vd ld Ea Ep Evd Eld H.
  apply getMintQuote_Ok_inv in H.
  destruct H as (a' & p' & vd' & ld' & r & H). decompose [and] H. clear H.
  cbv zeta in *.
  assert (a' = a) by congruence. assert (p' = p) by congruence.
  assert (vd' = vd) by congruence. assert (ld' = ld) by congruence.
  subst a' p' vd' ld' q. cbn [Mint.oracleAmount]. cbv zeta.
  pose proof (pow10_pos vd ltac:(lia)). pose proof (pow10_pos ld ltac:(lia)).
  apply quot_is_floor; nia.
Qed.

Lemma mint_oracleAmount_formula_witness :
  Mint.oracleAmount scenario_mint_quote
  = (1000000000 * 100000000 * 10 ^ 6 * 10 ^ 4) / (10000 * 10 ^ 6 * 10 ^ 8).
Proof.
  apply (mint_oracleAmount_formula scenario_input scenario_mint_quote
           1000000000 100000000 6 6); reflexivity.
Defined.

(** C2, as the specification words it, fails on the scenario of the
    specification itself: the quote has [oracleAmount = 10^9], the worded
    formula gives [10^13]. *)
Lemma mint_oracleAmount_spec_formula_fails :
  Mint.getMintQuote scenario_input = Ok scenario_mint_quote /\
  Mint.oracleAmount scenario_mint_quote = 1000000000 /\
  spec_mint_oracleAmount 1000000000 100000000 10000 (10 ^ 6) (10 ^ 6)
  = 10000000000000 /\
  Mint.oracleAmount scenario_mint_quote
  <> spec_mint_oracleAmount 1000000000 100000000 10000 (10 ^ 6) (10 ^ 6).
Proof.
  repeat split; try reflexivity. vm_compute. discriminate.
Qed.

(** C3. With [config.decimals = 6], [vault.decimals = 6],
    [config.pegPriceUsd = 10000], [oraclePriceUsd = 100000000],
    [benefactor.mintFeeRate = 25], [amountIn = 1000000000] and the oracle
    price not below the vault's rescaled minimum, [getMintQuote] succeeds
    with fee 2500000, net 997500000, oracle amount 1000000000, one-to-one
    amount 997500000 and mint amount 997500000. *)
Theorem scenario_mint_quote_correct :
  forall input,
    Mint.toBigInt (QuoteInput.amountIn input) = Ok 1000000000 ->
    Mint.toBigInt (QuoteInput.oraclePriceUsd input) = Ok 100000000 ->
    Config.decimals (QuoteInput.config input) = Int 6 ->
    Vault.decimals (QuoteInput.vault input) = Int 6 ->
    Config.pegPriceUsd (QuoteInput.config input) = 10000 ->
    Benefactor.mintFeeRate (QuoteInput.benefactor input) = Int 25 ->
    Vault.minOraclePriceUsd (QuoteInput.vault input) * 10 ^ 4 <= 100000000 ->
    Mint.getMintQuote input =
      Ok {| Mint.amountIn := 1000000000;
            Mint.feeAmount := 2500000;
            Mint.netAmount := 997500000;
            Mint.oracleAmount := 1000000000;
            Mint.oneToOneAmount := 997500000;
            Mint.mintAmount := 997500000 |}.
Proof.
  intros input Ea Ep Eld Evd Epeg Er Hmin.
  rewrite (getMintQuote_Ok_intro input 1000000000 100000000 6 6 25);
    try assumption; try lia.
  - rewrite Epeg. reflexivity.
  - vm_compute. discriminate.
Qed.

Lemma scenario_mint_quote_correct_witness :
  Mint.getMintQuote scenario_input = Ok scenario_mint_quote.
Proof.
  apply (scenario_mint_quote_correct scenario_input);
    try reflexivity.
  vm_compute. discriminate.
Defined.

(** C6. For an amount [a >= 0] and a rate [0 <= r <= 10000] the fee of
    either direction is the ceiling of [a * r / 10000] (the least [f] with
    [a * r <= 10000 * f]) and is at most [a]; at [r = 10000] the fee is [a]
    and a quote has [netAmount = 0]; so with [r <= 10000] neither
    [getMintQuote] nor [getRedeemQuote] ends in its fee-exceeds-amount
    error. *)
Theorem fee_is_ceiling_and_bounded :
  (forall a r,
     0 <= a -> 0 <= r <= 10000 ->
     exists fee,
       Mint.computeMintFee a (Int r) = Ok fee /\
       Redeem.computeRedeemFee a (Int r) = Ok fee /\
       10000 * (fee - 1) < a * r <= 10000 * fee /\
       fee <= a /\
       (r = 10000 -> fee = a /\ a - fee = 0))
  /\
  (forall input r,
     Benefactor.mintFeeRate (QuoteInput.benefactor input) = Int r ->
     0 <= r <= 10000 ->
     Mint.getMintQuote input <> Err MintFeeExceedsAmount /\
     (r = 10000 ->
      forall q, Mint.getMintQuote input = Ok q ->
                Mint.feeAmount q = Mint.amountIn q /\ Mint.netAmount q = 0))
  /\
  (forall input r,
     Benefactor.redeemFeeRate (QuoteInput.benefactor input) = Int r ->
     0 <= r <= 10000 ->
     Redeem.getRedeemQuote input <> Err RedeemFeeExceedsAmount /\
     (r = 10000 ->
      forall q, Redeem.getRedeemQuote input = Ok q ->
                Redeem.feeAmount q = Redeem.amountIn q /\
                Redeem.netAmount q = 0)).
Proof.
  assert (full : forall a, 0 <= a -> Mint.ceilBigInt (a * 10000) 10000 = a).
  { intros a Ha.
    pose proof (ceilBigInt_ceiling (a * 10000) 10000 ltac:(lia) ltac:(lia)).
    lia. }
  split; [|split].
  - intros a r Ha Hr. exists (Mint.ceilBigInt (a * r) 10000).
    unfold Mint.computeMintFee, Redeem.computeRedeemFee.
    change Mint.BASIS_POINTS with 10000.
    change Redeem.BASIS_POINTS with 10000.
    destruct (Z.ltb_spec r 0); [lia|].
    pose proof (ceilBigInt_ceiling (a * r) 10000 ltac:(nia) ltac:(lia)).
    pose proof (ceilBigInt_le a r Ha Hr).
    repeat split; lia.
  - intros input r Er Hr. split.
    + intros H. unfold Mint.getMintQuote, bind in H.
      rewrite Er in H.
      unfold Mint.toBigInt, Mint.ensureNonNegativeInteger, Mint.pow10,
        Mint.computeMintFee, Mint.computeOracleAmount,
        Mint.computeOneToOneAmount in H.
      change Mint.BASIS_POINTS with 10000 in H.
      walk H; tests_to_props;
      match goal with
      | G : _ < Mint.ceilBigInt (?a * r) 10000 |- _ =>
          pose proof (ceilBigInt_le a r ltac:(lia) Hr)
      end;
      lia.
    + intros -> q H. apply getMintQuote_Ok_inv in H.
      destruct H as (a & p & vd & ld & r & H). decompose [and] H. clear H.
      cbv zeta in *.
      assert (r = 10000) by congruence. subst r q.
      cbn [Mint.feeAmount Mint.amountIn Mint.netAmount].
      rewrite full; lia.
  - intros input r Er Hr. split.
    + intros H. unfold Redeem.getRedeemQuote, bind in H.
      rewrite Er in H.
      unfold Redeem.toBigInt, Redeem.ensureNonNegativeInteger, Redeem.pow10,
        Redeem.computeRedeemFee, Redeem.computeOracleAmount,
        Redeem.computeOneToOneAmount in H.
      change Redeem.BASIS_POINTS with 10000 in H.
      walk H; tests_to_props;
      match goal with
      | G : _ < Mint.ceilBigInt (?a * r) 10000 |- _ =>
          pose proof (ceilBigInt_le a r ltac:(lia) Hr)
      end;
      lia.
    + intros -> q H. apply getRedeemQuote_Ok_inv in H.
      destruct H as (a & p & vd & ld & r & H). decompose [and] H. clear H.
      cbv zeta in *.
      assert (r = 10000) by congruence. subst r q.
      cbn [Redeem.feeAmount Redeem.amountIn Redeem.netAmount].
      rewrite full; lia.
Qed.

Lemma fee_is_ceiling_and_bounded_witness :
  (exists fee,
     Mint.computeMintFee 1001 (Int 25) = Ok fee /\
     Redeem.computeRedeemFee 1001 (Int 25) = Ok fee /\
     10000 * (fee - 1) < 1001 * 25 <= 10000 * fee /\
     fee <= 1001 /\
     (25 = 10000 -> fee = 1001 /\ 1001 - fee = 0))
  /\ Mint.getMintQuote scenario_input <> Err MintFeeExceedsAmount
  /\ Redeem.getRedeemQuote scenario_input <> Err RedeemFeeExceedsAmount.
Proof.
  split; [|split].
  - apply (proj1 fee_is_ceiling_and_bounded 1001 25); lia.
  - apply (proj1 (proj2 fee_is_ceiling_and_bounded) scenario_input 25);
      [reflexivity | lia].
  - apply (proj2 (proj2 fee_is_ceiling_and_bounded) scenario_input 25);
      [reflexivity | lia].
Defined.

(** C7. With the other preconditions met, [getMintQuote] fails exactly when
    the oracle price is strictly below [vault.minOraclePriceUsd * 10^4],
    whatever the maximum, while [getRedeemQuote] fails exactly when it is
    strictly below that minimum or strictly above
    [vault.maxOraclePriceUsd * 10^4], in both cases with the
    out-of-bounds error; some input above the rescaled maximum is accepted
    by [getMintQuote] and rejected by [getRedeemQuote]. *)
Theorem oracle_bound_asymmetry :
  (forall input a p vd ld,
     Mint.toBigInt (QuoteInput.amountIn input) = Ok a ->
     Mint.toBigInt (QuoteInput.oraclePriceUsd input) = Ok p ->
     Vault.decimals (QuoteInput.vault input) = Int vd ->
     Config.decimals (QuoteInput.config input) = Int ld ->
     0 < a -> 0 < Config.pegPriceUsd (QuoteInput.config input) -> 0 < p ->
     0 <= vd -> 0 <= ld ->
     let lo := Vault.minOraclePriceUsd (QuoteInput.vault input) * 10 ^ 4 in
     let hi := Vault.maxOraclePriceUsd (QuoteInput.vault input) * 10 ^ 4 in
     (forall r,
        Benefactor.mintFeeRate (QuoteInput.benefactor input) = Int r ->
        0 <= r <= 10000 ->
        (fails (Mint.getMintQuote input) <-> p < lo) /\
        (p < lo -> Mint.getMintQuote input = Err OraclePriceOutOfBounds))
     /\
     (forall r,
        Benefactor.redeemFeeRate (QuoteInput.benefactor input) = Int r ->
        0 <= r <= 10000 ->
        (fails (Redeem.getRedeemQuote input) <-> p < lo \/ hi < p) /\
        (p < lo \/ hi < p ->
         Redeem.getRedeemQuote input = Err OraclePriceOutOfBounds)))
  /\
  (exists input p,
     Mint.toBigInt (QuoteInput.oraclePriceUsd input) = Ok p /\
     Vault.maxOraclePriceUsd (QuoteInput.vault input) * 10 ^ 4 < p /\
     succeeds (Mint.getMintQuote input) /\
     fails (Redeem.getRedeemQuote input)).
Proof.
  split.
  - intros input a p vd ld Ea Ep Evd Eld Ha Hpeg Hp Hvd Hld lo hi.
    split; intros r Er Hr.
    + assert (below : p < lo ->
                      Mint.getMintQuote input = Err OraclePriceOutOfBounds).
      { intros Hlo. unfold Mint.getMintQuote, bind. rewrite Ea, Ep.
        cbn [Mint.toBigInt].
        change (10 ^ (Mint.ORACLE_PRICE_DECIMALS - Mint.PEG_PRICE_DECIMALS))
          with (10 ^ 4).
        destruct (Z.leb_spec a 0); [lia|].
        destruct (Z.leb_spec (Config.pegPriceUsd (QuoteInput.config input)) 0);
          [lia|].
        destruct (Z.leb_spec p 0); [lia|].
        destruct (Z.ltb_spec p
                    (Vault.minOraclePriceUsd (QuoteInput.vault input) * 10 ^ 4));
          [reflexivity | subst lo; lia]. }
      split; [split|]; try assumption.
      * intros [e He]. destruct (Z.lt_ge_cases p lo) as [|Hge]; [assumption|].
        pose proof (ceilBigInt_le a r ltac:(lia) Hr).
        pose proof (getMintQuote_Ok_intro input a p vd ld r
                      Ea Ep Evd Eld Er Ha Hpeg Hp Hge Hvd Hld
                      (proj1 Hr) ltac:(lia)) as Hok.
        cbv zeta in Hok. congruence.
      * intros Hlo. exists OraclePriceOutOfBounds. apply below, Hlo.
    + assert (outside : p < lo \/ hi < p ->
                Redeem.getRedeemQuote input = Err OraclePriceOutOfBounds).
      { intros Hout. unfold Redeem.getRedeemQuote, bind.
        change Redeem.toBigInt with Mint.toBigInt. rewrite Ea, Ep.
        cbn [Mint.toBigInt].
        change (10 ^ (Mint.ORACLE_PRICE_DECIMALS - Mint.PEG_PRICE_DECIMALS))
          with (10 ^ 4).
        destruct (Z.leb_spec a 0); [lia|].
        destruct (Z.leb_spec (Config.pegPriceUsd (QuoteInput.config input)) 0);
          [lia|].
        destruct (Z.leb_spec p 0); [lia|].
        destruct (Z.ltb_spec p
                    (Vault.minOraclePriceUsd (QuoteInput.vault input) * 10 ^ 4));
          [reflexivity|].
        destruct (Z.gtb_spec p
                    (Vault.maxOraclePriceUsd (QuoteInput.vault input) * 10 ^ 4));
          [reflexivity | subst lo hi; lia]. }
      split; [split|]; try assumption.
      * intros [e He].
        destruct (Z.lt_ge_cases p lo) as [|Hge]; [left; assumption|].
        destruct (Z.lt_ge_cases hi p) as [|Hle]; [right; assumption|].
        pose proof (ceilBigInt_le a r ltac:(lia) Hr).
        pose proof (getRedeemQuote_Ok_intro input a p vd ld r
                      Ea Ep Evd Eld Er Ha Hpeg Hp Hge Hle Hvd Hld
                      (proj1 Hr) ltac:(lia)) as Hok.
        cbv zeta in Hok. congruence.
      * intros Hout. exists OraclePriceOutOfBounds. apply outside, Hout.
  - exists high_oracle_input, 120000000.
    split; [reflexivity|].
    split; [vm_compute; reflexivity|].
    split; eexists; vm_compute; reflexivity.
Qed.

Lemma oracle_bound_asymmetry_witness :
  (fails (Mint.getMintQuote scenario_input) <-> 100000000 < 9000 * 10 ^ 4)
  /\
  (fails (Redeem.getRedeemQuote high_oracle_input)
   <-> 120000000 < 9000 * 10 ^ 4 \/ 11000 * 10 ^ 4 < 120000000).
Proof.
  split.
  - apply (proj1 (proj1 oracle_bound_asymmetry scenario_input
                    1000000000 100000000 6 6
                    eq_refl eq_refl eq_refl eq_refl
                    ltac:(lia) ltac:(vm_compute; reflexivity) ltac:(lia)
                    ltac:(lia) ltac:(lia)) 25 eq_refl ltac:(lia)).
  - apply (proj2 (proj1 oracle_bound_asymmetry high_oracle_input
                    1000000000 120000000 6 6
                    eq_refl eq_refl eq_refl eq_refl
                    ltac:(lia) ltac:(vm_compute; reflexivity) ltac:(lia)
                    ltac:(lia) ltac:(lia)) 25 eq_refl ltac:(lia)).
Defined.

(** With the oracle at one dollar and no fee the two mint valuations are
    the same number, whatever the peg. *)
Lemma mint_valuations_agree_at_one_dollar :
  forall input q,
    Mint.getMintQuote input = Ok q ->
    Mint.toBigInt (QuoteInput.oraclePriceUsd input) = Ok (10 ^ 8) ->
    Benefactor.mintFeeRate (QuoteInput.benefactor input) = Int 0 ->
    Mint.oracleAmount q = Mint.oneToOneAmount q.
Proof.
  intros input q H Ep Er.
  apply getMintQuote_Ok_inv in H.
  destruct H as (a & p & vd & ld & r & H). decompose [and] H. clear H.
  cbv zeta in *.
  assert (p = 10 ^ 8) by congruence. assert (r = 0) by congruence.
  subst p r q. cbn [Mint.oracleAmount Mint.oneToOneAmount].
  rewrite Z.mul_0_r. change (Mint.ceilBigInt 0 10000) with 0.
  rewrite Z.sub_0_r.
  pose proof (pow10_pos vd ltac:(lia)).
  replace (a * 10 ^ 8 * 10 ^ ld * 10 ^ 4)
    with ((a * 10 ^ 4 * 10 ^ ld) * 10 ^ 8) by ring.
  apply Z.quot_mul_cancel_r; nia.
Qed.

(** C9, as the code has it.  Whenever [getMintQuote] succeeds with the
    oracle price equal to the peg price rescaled to 8 decimals
    ([oraclePriceUsd = pegPriceUsd * 10^4]), the peg at 1.0000
    ([pegPriceUsd = 10^4]) and a zero mint fee rate, [oracleAmount] and
    [oneToOneAmount] are equal, so they differ by at most one unit. *)
Theorem mint_valuations_agree_at_unit_peg :
  forall input q p,
    Mint.getMintQuote input = Ok q ->
    Mint.toBigInt (QuoteInput.oraclePriceUsd input) = Ok p ->
    p = Config.pegPriceUsd (QuoteInput.config input) * 10 ^ 4 ->
    Config.pegPriceUsd (QuoteInput.config input) = 10 ^ 4 ->
    Benefactor.mintFeeRate (QuoteInput.benefactor input) = Int 0 ->
    Mint.oracleAmount q = Mint.oneToOneAmount q /\
    Z.abs (Mint.oracleAmount q - Mint.oneToOneAmount q) <= 1.
Proof.
  intros input q p H Ep Hp Hpeg Er.
  assert (E : Mint.oracleAmount q = Mint.oneToOneAmount q).
  { apply (mint_valuations_agree_at_one_dollar input q H); [|assumption].
    rewrite Ep, Hp, Hpeg. reflexivity. }
  split; [assumption|]. rewrite E. lia.
Qed.

Lemma mint_valuations_agree_at_unit_peg_witness :
  Mint.oracleAmount no_fee_mint_quote = Mint.oneToOneAmount no_fee_mint_quote
  /\
  Z.abs (Mint.oracleAmount no_fee_mint_quote
         - Mint.oneToOneAmount no_fee_mint_quote) <= 1.
Proof.
  apply (mint_valuations_agree_at_unit_peg
           no_fee_input no_fee_mint_quote 100000000); reflexivity.
Defined.

(** C9, as the specification words it, fails: on the scenario of the
    specification the oracle price is the rescaled peg and the two
    valuations are 2500000 apart (the fee), and at a peg of 0.5000 without
    fee they are 1000000000 apart. *)
Lemma mint_valuations_differ_at_peg :
  (Mint.getMintQuote scenario_input = Ok scenario_mint_quote /\
   Mint.toBigInt (QuoteInput.oraclePriceUsd scenario_input)
   = Ok (Config.pegPriceUsd (QuoteInput.config scenario_input) * 10 ^ 4) /\
   Z.abs (Mint.oracleAmount scenario_mint_quote
          - Mint.oneToOneAmount scenario_mint_quote) = 2500000 /\
   ~ Z.abs (Mint.oracleAmount scenario_mint_quote
            - Mint.oneToOneAmount scenario_mint_quote) <= 1)
  /\
  (exists q,
     Mint.getMintQuote half_peg_input = Ok q /\
     Mint.toBigInt (QuoteInput.oraclePriceUsd half_peg_input)
     = Ok (Config.pegPriceUsd (QuoteInput.config half_peg_input) * 10 ^ 4) /\
     Mint.oracleAmount q = 1000000000 /\
     Mint.oneToOneAmount q = 2000000000 /\
     ~ Z.abs (Mint.oracleAmount q - Mint.oneToOneAmount q) <= 1).
Proof.
  split.
  - repeat split; try reflexivity. vm_compute. intros H. apply H. reflexivity.
  - eexists. split; [vm_compute; reflexivity|].
    repeat split; try reflexivity. vm_compute. intros H. apply H. reflexivity.
Qed.

(** C10. Whenever [getRedeemQuote] succeeds, its [oracleAmount] is the floor
    of [amountIn * pegPriceUsd * vaultScale * 10^8
        / (oraclePriceUsd * lpScale * 10^4)]
    and its [oneToOneAmount] is the floor of
    [netAmount * pegPriceUsd * vaultScale / (10^4 * lpScale)]. *)
Theorem redeem_amount_formulas :
  forall input q a p vd ld,
    Redeem.toBigInt (QuoteInput.amountIn input) = Ok a ->
    Redeem.toBigInt (QuoteInput.oraclePriceUsd input) = Ok p ->
    Vault.decimals (QuoteInput.vault input) = Int vd ->
    Config.decimals (QuoteInput.config input) = Int ld ->
    Redeem.getRedeemQuote input = Ok q ->
    let pegPriceUsd := Config.pegPriceUsd (QuoteInput.config input) in
    let lpScale := 10 ^ ld in
    let vaultScale := 10 ^ vd in
    Redeem.oracleAmount q
    = (a * pegPriceUsd * vaultScale * 10 ^ 8) / (p * lpScale * 10 ^ 4)
    /\
    Redeem.oneToOneAmount q
    = (Redeem.netAmount q * pegPriceUsd * vaultScale) / (10 ^ 4 * lpScale).
Proof.
  intros input q a p vd ld Ea Ep Evd Eld H.
  apply getRedeemQuote_Ok_inv in H.
  destruct H as (a' & p' & vd' & ld' & r & H). decompose [and] H. clear H.
  cbv zeta in *.
  assert (a' = a) by congruence. assert (p' = p) by congruence.
  assert (vd' = vd) by congruence. assert (ld' = ld) by congruence.
  subst a' p' vd' ld' q.
  cbn [Redeem.oracleAmount Redeem.oneToOneAmount Redeem.netAmount].
  pose proof (pow10_pos vd ltac:(lia)). pose proof (pow10_pos ld ltac:(lia)).
  split; apply quot_is_floor; nia.
Qed.

Lemma redeem_amount_formulas_witness :
  Redeem.oracleAmount scenario_redeem_quote
  = (1000000000 * 10000 * 10 ^ 6 * 10 ^ 8) / (100000000 * 10 ^ 6 * 10 ^ 4)
  /\
  Redeem.oneToOneAmount scenario_redeem_quote
  = (Redeem.netAmount scenario_redeem_quote * 10000 * 10 ^ 6)
    / (10 ^ 4 * 10 ^ 6).
Proof.
  apply (redeem_amount_formulas scenario_input scenario_redeem_quote
           1000000000 100000000 6 6); reflexivity.
Defined.

(** ** Period limits *)

Lemma getRemainingCapacity_eq limit now operation :
  PeriodLimits.getRemainingCapacity limit now operation =
  Ok (remaining_of limit now operation).
Proof.
  unfold PeriodLimits.getRemainingCapacity, bind, remaining_of,
    maxAmount_of, counter_of.
  cbn [PeriodLimits.toBigInt].
  destruct (PeriodLimit.durationSeconds limit =? 0); [reflexivity|].
  destruct operation; cbn [PeriodLimits.toBigInt].
  - destruct (PeriodLimit.maxMintAmount limit =? 0); [reflexivity|].
    destruct (now - PeriodLimit.windowStart limit
              >=? PeriodLimit.durationSeconds limit);
      cbn [PeriodLimits.toBigInt]; [rewrite Z.sub_0_r|]; reflexivity.
  - destruct (PeriodLimit.maxRedeemAmount limit =? 0); [reflexivity|].
    destruct (now - PeriodLimit.windowStart limit
              >=? PeriodLimit.durationSeconds limit);
      cbn [PeriodLimits.toBigInt]; [rewrite Z.sub_0_r|]; reflexivity.
Qed.

Lemma findLimitExceedance_cons limit rest amount now operation :
  PeriodLimits.findLimitExceedance (limit :: rest) amount now operation =
  match remaining_of limit now operation with
  | Some r =>
      if amount >? r then Ok (Some (Z.max r 0))
      else PeriodLimits.findLimitExceedance rest amount now operation
  | None => PeriodLimits.findLimitExceedance rest amount now operation
  end.
Proof.
  cbn [PeriodLimits.findLimitExceedance]. unfold bind.
  rewrite getRemainingCapacity_eq.
  destruct (remaining_of limit now operation) as [r|]; try reflexivity.
  destruct (amount >? r); [|reflexivity].
  destruct (Z.gtb_spec r 0); do 2 f_equal; lia.
Qed.

Lemma slot_violated_eq amount now operation limit :
  slot_violated amount now operation limit =
  match remaining_of limit now operation with
  | Some r => amount >? r
  | None => false
  end.
Proof.
  unfold slot_violated. rewrite getRemainingCapacity_eq. reflexivity.
Qed.

(** C4. For a positive amount and a slot at the head of the slots still to
    check: a slot with [durationSeconds = 0] is skipped; otherwise, if the
    cap of the operation is 0 the remaining capacity is 0 and the amount
    violates it; otherwise the used amount is 0 once
    [now - windowStart >= durationSeconds], whatever the counters, and the
    persisted counter before that, the remaining capacity is the cap minus
    the used amount, the slot is violated exactly when the amount exceeds
    it, and the reported remaining amount is the remaining capacity, or 0
    if that is negative. *)
Theorem period_limit_slot_rules :
  forall amount now operation limit rest,
    0 < amount ->
    let duration := PeriodLimit.durationSeconds limit in
    let maxAmount := maxAmount_of operation limit in
    let expired := duration <= now - PeriodLimit.windowStart limit in
    let check := PeriodLimits.findLimitExceedance in
    (duration = 0 ->
       PeriodLimits.getRemainingCapacity limit now operation = Ok None /\
       check (limit :: rest) amount now operation
       = check rest amount now operation)
    /\
    (duration <> 0 -> maxAmount = 0 ->
       PeriodLimits.getRemainingCapacity limit now operation = Ok (Some 0) /\
       check (limit :: rest) amount now operation = Ok (Some 0))
    /\
    (duration <> 0 -> maxAmount <> 0 ->
       exists usedAmount,
         (expired -> usedAmount = 0) /\
         (~ expired -> usedAmount = counter_of operation limit) /\
         let remaining := maxAmount - usedAmount in
         PeriodLimits.getRemainingCapacity limit now operation
         = Ok (Some remaining) /\
         (amount > remaining ->
            check (limit :: rest) amount now operation
            = Ok (Some (Z.max remaining 0))) /\
         (amount <= remaining ->
            check (limit :: rest) amount now operation
            = check rest amount now operation)).
Proof.
  intros amount now operation limit rest Hamount.
  cbv zeta.
  rewrite findLimitExceedance_cons, getRemainingCapacity_eq.
  unfold remaining_of.
  split; [|split].
  - intros ->. split; reflexivity.
  - intros Hd ->.
    destruct (Z.eqb_spec (PeriodLimit.durationSeconds limit) 0); [lia|].
    cbn [Z.eqb]. split; [reflexivity|].
    destruct (Z.gtb_spec amount 0); [reflexivity | lia].
  - intros Hd Hm.
    destruct (Z.eqb_spec (PeriodLimit.durationSeconds limit) 0); [lia|].
    destruct (Z.eqb_spec (maxAmount_of operation limit) 0); [lia|].
    rewrite Z.geb_leb.
    destruct (Z.leb_spec (PeriodLimit.durationSeconds limit)
                (now - PeriodLimit.windowStart limit)).
    + exists 0. rewrite Z.sub_0_r.
      repeat split; try reflexivity; try lia.
      * intros G. destruct (Z.gtb_spec amount (maxAmount_of operation limit));
          [reflexivity | lia].
      * intros G. destruct (Z.gtb_spec amount (maxAmount_of operation limit));
          [lia | reflexivity].
    + exists (counter_of operation limit).
      repeat split; try reflexivity; try lia.
      * intros G.
        destruct (Z.gtb_spec amount
                    (maxAmount_of operation limit - counter_of operation limit));
          [reflexivity | lia].
      * intros G.
        destruct (Z.gtb_spec amount
                    (maxAmount_of operation limit - counter_of operation limit));
          [lia | reflexivity].
Qed.

Lemma period_limit_slot_rules_witness :
  0 < 150 /\
  PeriodLimits.getRemainingCapacity hourly_limit 1800 PeriodLimits.mint
  = Ok (Some 100) /\
  PeriodLimits.findLimitExceedance [hourly_limit] 150 1800 PeriodLimits.mint
  = Ok (Some 100).
Proof.
  destruct (period_limit_slot_rules 150 1800 PeriodLimits.mint hourly_limit []
              ltac:(lia)) as (_ & _ & H).
  destruct (H ltac:(vm_compute; discriminate) ltac:(vm_compute; discriminate))
    as (used & Hexp & Hlive & H').
  cbv zeta in H'. destruct H' as (Hcap & Hover & _).
  rewrite (Hlive ltac:(vm_compute; intros G; apply G; reflexivity)) in Hcap, Hover.
  split; [lia|]. split; [exact Hcap|].
  apply Hover. vm_compute. reflexivity.
Defined.

(** The tests of the specification: 900 of 1000 used half an hour into a
    one-hour window leave 100, so 150 is refused and 100 passes; once the
    window has run out the counter no longer counts. *)
Example period_limit_spec_tests :
  PeriodLimits.findPeriodLimitViolation 1800 (limited_below_config 150)
  = Ok (Some {| PeriodLimits.account := PeriodLimits.account_vault;
                PeriodLimits.remainingAmount := 100 |})
  /\ PeriodLimits.findPeriodLimitViolation 1800 (limited_below_config 100)
     = Ok None
  /\ PeriodLimits.findPeriodLimitViolation 7200 (limited_below_config 150)
     = Ok None
  /\ PeriodLimits.findPeriodLimitViolation 7200 (limited_below_config 1001)
     = Ok (Some {| PeriodLimits.account := PeriodLimits.account_vault;
                   PeriodLimits.remainingAmount := 1000 |}).
Proof. repeat split. Qed.

(** The slot loop never fails; it finds nothing exactly when no slot is
    violated, and otherwise reports the first violated slot. *)
Lemma findLimitExceedance_None limits amount now operation :
  PeriodLimits.findLimitExceedance limits amount now operation = Ok None
  <-> forall l, In l limits -> slot_violated amount now operation l = false.
Proof.
  induction limits as [|limit rest IH].
  - cbn. split; [intros _ l [] | reflexivity].
  - rewrite findLimitExceedance_cons.
    pose proof (slot_violated_eq amount now operation limit) as V.
    destruct (remaining_of limit now operation) as [r|].
    + destruct (amount >? r).
      * split; [discriminate|]. intros H.
        rewrite (H limit (or_introl eq_refl)) in V. discriminate V.
      * rewrite IH. split.
        -- intros H l [<-|Hl]; [assumption | apply H, Hl].
        -- intros H l Hl. apply H. right. assumption.
    + rewrite IH. split.
      * intros H l [<-|Hl]; [assumption | apply H, Hl].
      * intros H l Hl. apply H. right. assumption.
Qed.

Lemma findLimitExceedance_first before limit after amount now operation r :
  (forall l, In l before -> slot_violated amount now operation l = false) ->
  remaining_of limit now operation = Some r ->
  amount > r ->
  PeriodLimits.findLimitExceedance (before ++ limit :: after)
    amount now operation
  = Ok (Some (Z.max r 0)).
Proof.
  intros Hbefore Hr Hgt. induction before as [|b before IH].
  - cbn [app]. rewrite findLimitExceedance_cons, Hr.
    destruct (Z.gtb_spec amount r); [reflexivity | lia].
  - cbn [app]. rewrite findLimitExceedance_cons.
    pose proof (Hbefore b (or_introl eq_refl)) as V.
    rewrite slot_violated_eq in V.
    destruct (remaining_of b now operation) as [rb|].
    + rewrite V. apply IH. intros l Hl. apply Hbefore. right. assumption.
    + apply IH. intros l Hl. apply Hbefore. right. assumption.
Qed.

Lemma findLimitExceedance_Some limits amount now operation :
  (exists l, In l limits /\ slot_violated amount now operation l = true)
  -> exists r,
       PeriodLimits.findLimitExceedance limits amount now operation
       = Ok (Some r).
Proof.
  intros (l & Hl & V).
  destruct (PeriodLimits.findLimitExceedance limits amount now operation)
    as [[r|]|e] eqn:E.
  - exists r. reflexivity.
  - pose proof (proj1 (findLimitExceedance_None _ _ _ _) E) as N.
    rewrite (N l Hl) in V. discriminate.
  - exfalso. clear l Hl V. induction limits as [|limit rest IH].
    + discriminate E.
    + rewrite findLimitExceedance_cons in E.
      destruct (remaining_of limit now operation) as [r|];
        [destruct (amount >? r); [discriminate E|]|]; apply IH, E.
Qed.

(** C5. The lists are checked in the order config, vault, benefactor, each
    in index order, and the first violation found is returned with its
    owner, without a look at the later slots and owners; in particular,
    past the config list, which comes first, a violated vault slot gives a
    violation of account "vault", also when a benefactor slot is violated
    too. *)
Theorem period_limit_priority :
  forall now input amount,
    PeriodLimits.toBigInt (PeriodLimits.amount input) amount_field
    = Ok amount ->
    0 < amount ->
    let operation := PeriodLimits.operation input in
    let check limits :=
      PeriodLimits.findLimitExceedance limits amount now operation in
    let violated := slot_violated amount now operation in
    let configLimits := Config.periodLimits (PeriodLimits.config input) in
    let vaultLimits := Vault.periodLimits (PeriodLimits.vault input) in
    let benefactorLimits :=
      Benefactor.periodLimits (PeriodLimits.benefactor input) in
    let found account r :=
      Ok (Some {| PeriodLimits.account := account;
                  PeriodLimits.remainingAmount := r |}) in
    (* within one list: index order, first violation wins *)
    (forall before limit after r,
       (forall l, In l before -> violated l = false) ->
       PeriodLimits.getRemainingCapacity limit now operation = Ok (Some r) ->
       amount > r ->
       check (before ++ limit :: after) = Ok (Some (Z.max r 0)))
    /\
    (* across the owners: config, then vault, then benefactor *)
    (forall r, check configLimits = Ok (Some r) ->
       PeriodLimits.findPeriodLimitViolation now input
       = found PeriodLimits.account_config r)
    /\
    (forall r, check configLimits = Ok None ->
       check vaultLimits = Ok (Some r) ->
       PeriodLimits.findPeriodLimitViolation now input
       = found PeriodLimits.account_vault r)
    /\
    (forall r, check configLimits = Ok None ->
       check vaultLimits = Ok None ->
       check benefactorLimits = Ok (Some r) ->
       PeriodLimits.findPeriodLimitViolation now input
       = found PeriodLimits.account_benefactor r)
    /\
    (check configLimits = Ok None ->
     check vaultLimits = Ok None ->
     check benefactorLimits = Ok None ->
     PeriodLimits.findPeriodLimitViolation now input = Ok None)
    /\
    (* a vault violation hides a benefactor violation *)
    ((forall l, In l configLimits -> violated l = false) ->
     (exists l, In l vaultLimits /\ violated l = true) ->
     exists r,
       PeriodLimits.findPeriodLimitViolation now input
       = found PeriodLimits.account_vault r).
Proof.
  intros now input amount Ea Ha. cbv zeta.
  assert (run : PeriodLimits.findPeriodLimitViolation now input =
    match PeriodLimits.findLimitExceedance
            (Config.periodLimits (PeriodLimits.config input))
            amount now (PeriodLimits.operation input) with
    | Ok (Some r) =>
        Ok (Some {| PeriodLimits.account := PeriodLimits.account_config;
                    PeriodLimits.remainingAmount := r |})
    | Ok None =>
        match PeriodLimits.findLimitExceedance
                (Vault.periodLimits (PeriodLimits.vault input))
                amount now (PeriodLimits.operation input) with
        | Ok (Some r) =>
            Ok (Some {| PeriodLimits.account := PeriodLimits.account_vault;
                        PeriodLimits.remainingAmount := r |})
        | Ok None =>
            match PeriodLimits.findLimitExceedance
                    (Benefactor.periodLimits (PeriodLimits.benefactor input))
                    amount now (PeriodLimits.operation input) with
            | Ok (Some r) =>
                Ok (Some {| PeriodLimits.account :=
                              PeriodLimits.account_benefactor;
                            PeriodLimits.remainingAmount := r |})
            | Ok None => Ok None
            | Err e => Err e
            end
        | Err e => Err e
        end
    | Err e => Err e
    end).
  { unfold PeriodLimits.findPeriodLimitViolation, bind. rewrite Ea.
    destruct (Z.leb_spec amount 0); [lia|].
    repeat match goal with
           | |- context [match ?x with _ => _ end] =>
               destruct x as [[?|]|?]; try reflexivity
           end. }
  rewrite run. clear run.
  split; [|split; [|split; [|split; [|split]]]].
  - intros before limit after r Hbefore Hr Hgt.
    apply findLimitExceedance_first; try assumption.
    rewrite getRemainingCapacity_eq in Hr. congruence.
  - intros r ->. reflexivity.
  - intros r -> ->. reflexivity.
  - intros r -> -> ->. reflexivity.
  - intros -> -> ->. reflexivity.
  - intros Hc Hv.
    rewrite (proj2 (findLimitExceedance_None _ _ _ _) Hc).
    apply findLimitExceedance_Some in Hv. destruct Hv as [r ->].
    exists r. reflexivity.
Qed.

Lemma period_limit_priority_witness :
  exists r,
    PeriodLimits.findPeriodLimitViolation 1800 (limited_below_config 150)
    = Ok (Some {| PeriodLimits.account := PeriodLimits.account_vault;
                  PeriodLimits.remainingAmount := r |}).
Proof.
  apply (period_limit_priority 1800 (limited_below_config 150) 150
           eq_refl ltac:(lia)).
  - intros l [].
  - exists hourly_limit. split; [left; reflexivity | reflexivity].
Defined.

(** The config list comes before both: with the same violated slot in all
    three lists the violation returned is the config's. *)
Lemma vault_violation_hidden_by_config :
  (exists l,
     In l (Vault.periodLimits (PeriodLimits.vault (limited_everywhere 150)))
     /\ slot_violated 150 1800 PeriodLimits.mint l = true)
  /\
  (exists l,
     In l (Benefactor.periodLimits
             (PeriodLimits.benefactor (limited_everywhere 150)))
     /\ slot_violated 150 1800 PeriodLimits.mint l = true)
  /\
  PeriodLimits.findPeriodLimitViolation 1800 (limited_everywhere 150)
  = Ok (Some {| PeriodLimits.account := PeriodLimits.account_config;
                PeriodLimits.remainingAmount := 100 |})
  /\
  (forall v,
     PeriodLimits.findPeriodLimitViolation 1800 (limited_everywhere 150)
     = Ok (Some v) ->
     PeriodLimits.account v <> PeriodLimits.account_vault).
Proof.
  split; [|split; [|split]].
  - exists hourly_limit. split; [left; reflexivity | reflexivity].
  - exists hourly_limit. split; [left; reflexivity | reflexivity].
  - reflexivity.
  - intros v H. vm_compute in H. injection H as <-. discriminate.
Qed.

(** ** The peg-price flag *)

Lemma digit_not_dot c : Cli.is_digit c = true -> Ascii.eqb c "." = false.
Proof.
  intros H. destruct (Ascii.eqb_spec c "."); [|reflexivity].
  subst c. discriminate H.
Qed.

Lemma digit_value_bounds c :
  Cli.is_digit c = true -> 0 <= Cli.digit_value c <= 9.
Proof.
  unfold Cli.is_digit, Cli.digit_value. intros H.
  apply andb_true_iff in H. destruct H as [H1 H2].
  apply Nat.leb_le in H1. apply Nat.leb_le in H2. lia.
Qed.

Lemma decimal_value_nonneg s :
  forallb Cli.is_digit s = true -> 0 <= decimal_value s.
Proof.
  induction s as [|c s IH]; cbn [forallb decimal_value]; [lia|].
  intros H. apply andb_true_iff in H. destruct H as [Hc Hs].
  pose proof (digit_value_bounds c Hc).
  pose proof (pow10_pos (Z.of_nat (length s)) ltac:(lia)).
  specialize (IH Hs). nia.
Qed.

Lemma decimal_value_app s t :
  decimal_value (s ++ t)
  = decimal_value s * 10 ^ Z.of_nat (length t) + decimal_value t.
Proof.
  induction s as [|c s IH]; cbn [app decimal_value]; [lia|].
  rewrite IH, length_app, Nat2Z.inj_add, Z.pow_add_r by lia. ring.
Qed.

Lemma decimal_value_zeros k : decimal_value (repeat "0"%char k) = 0.
Proof.
  induction k as [|k IH]; cbn [repeat decimal_value]; [reflexivity|].
  rewrite IH. reflexivity.
Qed.

Lemma BigInt_of_string_value s : Cli.BigInt_of_string s = decimal_value s.
Proof.
  unfold Cli.BigInt_of_string.
  assert (G : forall acc,
             fold_left (fun acc c => 10 * acc + Cli.digit_value c) s acc
             = acc * 10 ^ Z.of_nat (length s) + decimal_value s).
  { induction s as [|c s IH]; intros acc; cbn [fold_left decimal_value length].
    - change (10 ^ Z.of_nat 0) with 1. lia.
    - rewrite IH, Nat2Z.inj_succ, Z.pow_succ_r by lia. ring. }
  rewrite G. lia.
Qed.

Lemma padEnd_value f :
  (length f <= Cli.PEG_PRICE_DECIMALS)%nat ->
  decimal_value (Cli.padEnd f Cli.PEG_PRICE_DECIMALS)
  = decimal_value f * 10 ^ (4 - Z.of_nat (length f)).
Proof.
  intros H. unfold Cli.padEnd, Cli.PEG_PRICE_DECIMALS in *.
  rewrite decimal_value_app, decimal_value_zeros, repeat_length.
  rewrite Nat2Z.inj_sub by lia. change (Z.of_nat 4) with 4. lia.
Qed.

Lemma take_digits_app w rest :
  forallb Cli.is_digit w = true ->
  match rest with [] => True | c :: _ => Cli.is_digit c = false end ->
  Cli.take_digits (w ++ rest) = (w, rest).
Proof.
  intros Hw Hrest. induction w as [|c w IH]; cbn [app].
  - destruct rest as [|c r]; [reflexivity|]. cbn [Cli.take_digits].
    rewrite Hrest. reflexivity.
  - cbn [forallb] in Hw. apply andb_true_iff in Hw. destruct Hw as [Hc Hw].
    cbn [Cli.take_digits]. rewrite Hc, (IH Hw). reflexivity.
Qed.

Lemma take_digits_spec s :
  forall d r,
    Cli.take_digits s = (d, r) ->
    s = d ++ r /\ forallb Cli.is_digit d = true.
Proof.
  induction s as [|c s IH]; intros d r H; cbn [Cli.take_digits] in H.
  - injection H as <- <-. split; reflexivity.
  - destruct (Cli.is_digit c) eqn:Hc.
    + destruct (Cli.take_digits s) as [d' r'].
      injection H as <- <-. destruct (IH d' r' eq_refl) as [-> Hd].
      split; [reflexivity|]. cbn [forallb]. rewrite Hc, Hd. reflexivity.
    + injection H as <- <-. split; reflexivity.
Qed.

Lemma split_digits w :
  forallb Cli.is_digit w = true -> Cli.split "." w = [w].
Proof.
  induction w as [|c w IH]; intros H; [reflexivity|].
  cbn [forallb] in H. apply andb_true_iff in H. destruct H as [Hc Hw].
  cbn [Cli.split]. rewrite (digit_not_dot c Hc), (IH Hw). reflexivity.
Qed.

Lemma split_digits_dot w f :
  forallb Cli.is_digit w = true ->
  Cli.split "." (w ++ "."%char :: f) = w :: Cli.split "." f.
Proof.
  induction w as [|c w IH]; intros H; [reflexivity|].
  cbn [forallb] in H. apply andb_true_iff in H. destruct H as [Hc Hw].
  cbn [app Cli.split]. rewrite (digit_not_dot c Hc), (IH Hw). reflexivity.
Qed.

Lemma test_decimal_shape s whole fraction :
  decimal_shape s whole fraction -> Cli.test_decimal s = true.
Proof.
  intros (Hne & Hw & Hf & ->). unfold Cli.test_decimal.
  rewrite take_digits_app; try assumption.
  - destruct whole as [|c w]; [contradiction Hne; reflexivity|].
    destruct fraction as [|d f]; [reflexivity|].
    rewrite Ascii.eqb_refl. exact Hf.
  - destruct fraction; [exact I | reflexivity].
Qed.

Lemma test_decimal_inv s :
  Cli.test_decimal s = true -> exists whole fraction, decimal_shape s whole fraction.
Proof.
  unfold Cli.test_decimal. intros H.
  destruct (Cli.take_digits s) as [d r] eqn:E.
  apply take_digits_spec in E. destruct E as [-> Hd].
  destruct d as [|c d]; [discriminate H|].
  destruct r as [|x f].
  - exists (c :: d), []. repeat split; try assumption. discriminate.
  - apply andb_true_iff in H. destruct H as [Hx Hf].
    apply Ascii.eqb_eq in Hx. subst x.
    destruct f as [|y f]; [discriminate Hf|].
    exists (c :: d), (y :: f). repeat split; try assumption. discriminate.
Qed.

Lemma split_shape s whole fraction :
  decimal_shape s whole fraction ->
  nth 0 (Cli.split "." s) [] = whole /\ nth 1 (Cli.split "." s) [] = fraction.
Proof.
  intros (Hne & Hw & Hf & ->). destruct fraction as [|d f].
  - rewrite app_nil_r, split_digits by assumption. split; reflexivity.
  - rewrite split_digits_dot, split_digits by assumption. split; reflexivity.
Qed.

(** What the parser does on a numeral of at most four fractional digits. *)
Lemma parsePegPriceFlag_shape value whole fraction :
  decimal_shape (Cli.trim value) whole fraction ->
  (length fraction <= Cli.PEG_PRICE_DECIMALS)%nat ->
  Cli.parsePegPriceFlag value =
    if decimal_value whole >? Z.shiftl 1 64 - 1
    then Err (Cli.UnableToParseU64 "peg-price-usd" whole)
    else if scaled_of whole fraction <=? 0 then Err Cli.PegPriceNotPositive'
    else if scaled_of whole fraction >=? 2 * 10 ^ 4
    then Err (Cli.PegPriceTooLarge value)
    else Ok {| Cli.scaledValue := scaled_of whole fraction;
               Cli.displayValue :=
                 Cli.strip_final_dot
                   (whole ++ "."%char
                      :: firstn Cli.PEG_PRICE_DECIMALS
                           (Cli.padEnd fraction Cli.PEG_PRICE_DECIMALS)) |}.
Proof.
  intros Hshape Hlen. unfold Cli.parsePegPriceFlag.
  rewrite (test_decimal_shape _ _ _ Hshape). cbn [negb].
  destruct (split_shape _ _ _ Hshape) as [-> ->].
  destruct (Nat.ltb_spec Cli.PEG_PRICE_DECIMALS (length fraction)); [lia|].
  destruct Hshape as (Hne & Hw & Hf & _).
  unfold Cli.parseU64StringFlag, bind.
  assert (Cli.test_digits whole = true) as ->.
  { destruct whole; [contradiction Hne; reflexivity | exact Hw]. }
  cbn [negb]. rewrite BigInt_of_string_value.
  destruct (decimal_value whole >? Z.shiftl 1 64 - 1); [reflexivity|].
  assert (match Cli.padEnd fraction Cli.PEG_PRICE_DECIMALS with
          | [] => 0
          | _ :: _ =>
              Cli.BigInt_of_string (Cli.padEnd fraction Cli.PEG_PRICE_DECIMALS)
          end = decimal_value fraction * 10 ^ (4 - Z.of_nat (length fraction)))
    as ->.
  { rewrite <- padEnd_value by assumption.
    destruct (Cli.padEnd fraction Cli.PEG_PRICE_DECIMALS);
      [reflexivity | apply BigInt_of_string_value]. }
  change (Z.of_nat Cli.PEG_PRICE_DECIMALS) with 4.
  fold (scaled_of whole fraction). reflexivity.
Qed.

(** C8, as the code has it.  The parser maps "1.0025" to 10025, rejects "2"
    and "0", and on a numeral with at most four fractional digits (white
    space around it apart) it succeeds exactly when the scaled value is in
    [1, 2 * 10^4), returning that value; whatever it accepts is such a
    numeral. *)
Theorem peg_price_parser :
  Cli.parsePegPriceFlag (str "1.0025")
  = Ok {| Cli.scaledValue := 10025; Cli.displayValue := str "1.0025" |}
  /\
  Cli.parsePegPriceFlag (str "2") = Err (Cli.PegPriceTooLarge (str "2"))
  /\
  Cli.parsePegPriceFlag (str "0") = Err Cli.PegPriceNotPositive'
  /\
  (forall value whole fraction,
     decimal_shape (Cli.trim value) whole fraction ->
     (length fraction <= 4)%nat ->
     (succeeds (Cli.parsePegPriceFlag value)
      <-> 1 <= scaled_of whole fraction < 2 * 10 ^ 4) /\
     (fails (Cli.parsePegPriceFlag value)
      <-> ~ 1 <= scaled_of whole fraction < 2 * 10 ^ 4) /\
     (forall r, Cli.parsePegPriceFlag value = Ok r ->
                Cli.scaledValue r = scaled_of whole fraction))
  /\
  (forall value r,
     Cli.parsePegPriceFlag value = Ok r ->
     exists whole fraction,
       decimal_shape (Cli.trim value) whole fraction /\
       (length fraction <= 4)%nat /\
       Cli.scaledValue r = scaled_of whole fraction /\
       1 <= Cli.scaledValue r < 2 * 10 ^ 4).
Proof.
  assert (core : forall value whole fraction,
     decimal_shape (Cli.trim value) whole fraction ->
     (length fraction <= 4)%nat ->
     (1 <= scaled_of whole fraction < 2 * 10 ^ 4 /\
      exists d, Cli.parsePegPriceFlag value
                = Ok {| Cli.scaledValue := scaled_of whole fraction;
                        Cli.displayValue := d |})
     \/
     (~ 1 <= scaled_of whole fraction < 2 * 10 ^ 4 /\
      exists e, Cli.parsePegPriceFlag value = Err e)).
  { intros value whole fraction Hshape Hlen.
    rewrite (parsePegPriceFlag_shape value whole fraction Hshape Hlen).
    pose proof Hshape as (_ & Hw & Hf & _).
    pose proof (decimal_value_nonneg whole Hw) as Pw.
    pose proof (decimal_value_nonneg fraction Hf) as Pf.
    assert (0 < 10 ^ (4 - Z.of_nat (length fraction)))
      by (apply pow10_pos; lia).
    assert (Hs : decimal_value whole * 10 ^ 4 <= scaled_of whole fraction)
      by (unfold scaled_of; nia).
    change (Z.shiftl 1 64 - 1) with 18446744073709551615.
    change (2 * 10 ^ 4) with 20000 in *. change (10 ^ 4) with 10000 in Hs.
    destruct (Z.gtb_spec (decimal_value whole) 18446744073709551615).
    { right. split; [lia | eexists; reflexivity]. }
    destruct (Z.leb_spec (scaled_of whole fraction) 0).
    { right. split; [lia | eexists; reflexivity]. }
    rewrite Z.geb_leb.
    destruct (Z.leb_spec 20000 (scaled_of whole fraction)).
    { right. split; [lia | eexists; reflexivity]. }
    left. split; [lia | eexists; reflexivity]. }
  split; [reflexivity|]. split; [reflexivity|]. split; [reflexivity|].
  split.
  - intros value whole fraction Hshape Hlen.
    destruct (core value whole fraction Hshape Hlen)
      as [(Hin & d & E) | (Hout & e & E)]; rewrite E.
    + split; [|split].
      * split; [intros _; assumption | intros _; eexists; reflexivity].
      * split; [intros [e He]; discriminate He | intros G; contradiction].
      * intros r Hr. injection Hr as <-. reflexivity.
    + split; [|split].
      * split; [intros [q Hq]; discriminate Hq | intros G; contradiction].
      * split; [intros _; assumption | intros _; eexists; reflexivity].
      * intros r Hr. discriminate Hr.
  - intros value r H.
    assert (T : Cli.test_decimal (Cli.trim value) = true).
    { unfold Cli.parsePegPriceFlag in H.
      destruct (Cli.test_decimal (Cli.trim value)); [reflexivity|].
      discriminate H. }
    destruct (test_decimal_inv _ T) as (whole & fraction & Hshape).
    assert (Hlen : (length fraction <= 4)%nat).
    { unfold Cli.parsePegPriceFlag in H. rewrite T in H. cbn [negb] in H.
      destruct (split_shape _ _ _ Hshape) as [_ Ef]. rewrite Ef in H.
      destruct (Nat.ltb_spec Cli.PEG_PRICE_DECIMALS (length fraction));
        [discriminate H|]. exact H0. }
    exists whole, fraction.
    destruct (core value whole fraction Hshape Hlen)
      as [(Hin & d & E) | (Hout & e & E)]; rewrite E in H.
    + injection H as <-. cbn [Cli.scaledValue].
      split; [exact Hshape|]. split; [exact Hlen|].
      split; [reflexivity | exact Hin].
    + discriminate H.
Qed.

Lemma peg_price_parser_witness :
  succeeds (Cli.parsePegPriceFlag (str " 1.5 "))
  <-> 1 <= scaled_of (str "1") (str "5") < 2 * 10 ^ 4.
Proof.
  apply (proj1 (proj2 (proj2 (proj2 peg_price_parser)))
           (str " 1.5 ") (str "1") (str "5")).
  - vm_compute. repeat split; discriminate.
  - vm_compute. lia.
Defined.

(** C8, as worded, fails on a fifth fractional digit: "1.00250" is a
    well-formed decimal (the parser's own format test accepts it), it
    denotes the same number as "1.0025", whose scaled value 10025 is in
    [1, 2 * 10^4), and the parser accepts "1.0025" but rejects "1.00250"
    for its precision. *)
Lemma peg_price_fifth_digit_rejected :
  decimal_shape (Cli.trim (str "1.00250")) (str "1") (str "00250")
  /\
  Cli.test_decimal (Cli.trim (str "1.00250")) = true
  /\
  (* 1.00250 * 10^4 = 10025: the numeral is 100250 / 10^5 *)
  ((decimal_value (str "1") * 10 ^ 5 + decimal_value (str "00250")) * 10 ^ 4
   = 10025 * 10 ^ 5)
  /\
  (1 <= 10025 < 2 * 10 ^ 4)
  /\
  (Cli.parsePegPriceFlag (str "1.0025")
   = Ok {| Cli.scaledValue := 10025; Cli.displayValue := str "1.0025" |})
  /\
  (Cli.parsePegPriceFlag (str "1.00250")
   = Err (Cli.PegPricePrecision (str "1.00250")))
  /\
  ~ succeeds (Cli.parsePegPriceFlag (str "1.00250")).
Proof.
  split; [vm_compute; repeat split; discriminate|].
  split; [reflexivity|]. split; [reflexivity|]. split; [lia|].
  split; [reflexivity|]. split; [reflexivity|].
  intros [r Hr]. discriminate Hr.
Qed.

(** * Further properties of the quotes *)

(** A fee within the amount means a rate within the basis points. *)
Lemma fee_within_amount_rate (a r : Z) :
  0 < a -> 0 <= r -> Mint.ceilBigInt (a * r) 10000 <= a -> r <= 10000.
Proof.
  intros Ha Hr Hfee.
  pose proof (ceilBigInt_ceiling (a * r) 10000 ltac:(nia) ltac:(lia)).
  nia.
Qed.

(** X1. [getMintQuote] succeeds exactly when the amount and the oracle price
    are positive integers, the peg price is positive, the oracle price is
    not below the vault's rescaled minimum, both decimals are non-negative
    integers and the mint fee rate is an integer between 0 and 10000. *)
Theorem getMintQuote_succeeds_iff :
  forall input,
    succeeds (Mint.getMintQuote input) <->
    exists a p vd ld r,
      Mint.toBigInt (QuoteInput.amountIn input) = Ok a /\
      Mint.toBigInt (QuoteInput.oraclePriceUsd input) = Ok p /\
      Vault.decimals (QuoteInput.vault input) = Int vd /\
      Config.decimals (QuoteInput.config input) = Int ld /\
      Benefactor.mintFeeRate (QuoteInput.benefactor input) = Int r /\
      0 < a /\ 0 < Config.pegPriceUsd (QuoteInput.config input) /\ 0 < p /\
      Vault.minOraclePriceUsd (QuoteInput.vault input) * 10 ^ 4 <= p /\
      0 <= vd /\ 0 <= ld /\ 0 <= r <= 10000.
Proof.
  intros input. split.
  - intros [q H]. apply getMintQuote_Ok_inv in H.
    destruct H as (a & p & vd & ld & r & H). decompose [and] H. clear H.
    exists a, p, vd, ld, r.
    pose proof (fee_within_amount_rate a r ltac:(lia) ltac:(lia) ltac:(lia)).
    repeat split; try assumption; lia.
  - intros (a & p & vd & ld & r & H). decompose [and] H. clear H.
    pose proof (ceilBigInt_le a r ltac:(lia) ltac:(lia)).
    eexists. apply (getMintQuote_Ok_intro input a p vd ld r);
      try assumption; lia.
Qed.

Lemma getMintQuote_succeeds_iff_witness :
  succeeds (Mint.getMintQuote scenario_input).
Proof.
  apply (proj2 (getMintQuote_succeeds_iff scenario_input)).
  exists 1000000000, 100000000, 6, 6, 25.
  repeat split; try reflexivity; try lia; vm_compute; discriminate.
Defined.

(** X2. [getRedeemQuote] succeeds exactly under the same conditions on the
    redeem fee rate, with the oracle price also not above the vault's
    rescaled maximum. *)
Theorem getRedeemQuote_succeeds_iff :
  forall input,
    succeeds (Redeem.getRedeemQuote input) <->
    exists a p vd ld r,
      Redeem.toBigInt (QuoteInput.amountIn input) = Ok a /\
      Redeem.toBigInt (QuoteInput.oraclePriceUsd input) = Ok p /\
      Vault.decimals (QuoteInput.vault input) = Int vd /\
      Config.decimals (QuoteInput.config input) = Int ld /\
      Benefactor.redeemFeeRate (QuoteInput.benefactor input) = Int r /\
      0 < a /\ 0 < Config.pegPriceUsd (QuoteInput.config input) /\ 0 < p /\
      Vault.minOraclePriceUsd (QuoteInput.vault input) * 10 ^ 4 <= p /\
      p <= Vault.maxOraclePriceUsd (QuoteInput.vault input) * 10 ^ 4 /\
      0 <= vd /\ 0 <= ld /\ 0 <= r <= 10000.
Proof.
  intros input. split.
  - intros [q H]. apply getRedeemQuote_Ok_inv in H.
    destruct H as (a & p & vd & ld & r & H). decompose [and] H. clear H.
    exists a, p, vd, ld, r.
    pose proof (fee_within_amount_rate a r ltac:(lia) ltac:(lia) ltac:(lia)).
    repeat split; try assumption; lia.
  - intros (a & p & vd & ld & r & H). decompose [and] H. clear H.
    pose proof (ceilBigInt_le a r ltac:(lia) ltac:(lia)).
    eexists. apply (getRedeemQuote_Ok_intro input a p vd ld r);
      try assumption; lia.
Qed.

Lemma getRedeemQuote_succeeds_iff_witness :
  succeeds (Redeem.getRedeemQuote scenario_input).
Proof.
  apply (proj2 (getRedeemQuote_succeeds_iff scenario_input)).
  exists 1000000000, 100000000, 6, 6, 25.
  repeat split; try reflexivity; try lia; vm_compute; discriminate.
Defined.

(** X3. On a successful mint quote the [oneToOneAmount] is the floor of
    [netAmount * 10^4 * lpScale / (pegPriceUsd * vaultScale)], where
    [netAmount] is the amount less the fee. *)
Theorem mint_oneToOneAmount_formula :
  forall input q vd ld,
    Vault.decimals (QuoteInput.vault input) = Int vd ->
    Config.decimals (QuoteInput.config input) = Int ld ->
    Mint.getMintQuote input = Ok q ->
    Mint.netAmount q = Mint.amountIn q - Mint.feeAmount q /\
    Mint.oneToOneAmount q
    = (Mint.netAmount q * 10 ^ 4 * 10 ^ ld)
      / (Config.pegPriceUsd (QuoteInput.config input) * 10 ^ vd).
Proof.
  intros input q vd ld Evd Eld H.
  apply getMintQuote_Ok_inv in H.
  destruct H as (a & p & vd' & ld' & r & H). decompose [and] H. clear H.
  cbv zeta in *.
  assert (vd' = vd) by congruence. assert (ld' = ld) by congruence.
  subst vd' ld' q.
  cbn [Mint.netAmount Mint.amountIn Mint.feeAmount Mint.oneToOneAmount].
  split; [reflexivity|].
  pose proof (pow10_pos vd ltac:(lia)). pose proof (pow10_pos ld ltac:(lia)).
  apply quot_is_floor; nia.
Qed.

Lemma mint_oneToOneAmount_formula_witness :
  Mint.netAmount scenario_mint_quote
  = Mint.amountIn scenario_mint_quote - Mint.feeAmount scenario_mint_quote /\
  Mint.oneToOneAmount scenario_mint_quote
  = (Mint.netAmount scenario_mint_quote * 10 ^ 4 * 10 ^ 6)
    / (Config.pegPriceUsd (QuoteInput.config scenario_input) * 10 ^ 6).
Proof.
  apply (mint_oneToOneAmount_formula scenario_input scenario_mint_quote 6 6);
    reflexivity.
Defined.

(** X4. No amount of a successful quote is negative, in either direction:
    the amount is positive, the fee is between 0 and the amount, fee and net
    amount add up to the amount, and both valuations and the amount paid
    out are non-negative. *)
Theorem quote_amounts_nonnegative :
  (forall input q,
     Mint.getMintQuote input = Ok q ->
     0 < Mint.amountIn q /\
     0 <= Mint.feeAmount q <= Mint.amountIn q /\
     Mint.feeAmount q + Mint.netAmount q = Mint.amountIn q /\
     0 <= Mint.netAmount q /\
     0 <= Mint.oracleAmount q /\
     0 <= Mint.oneToOneAmount q /\
     0 <= Mint.mintAmount q)
  /\
  (forall input q,
     Redeem.getRedeemQuote input = Ok q ->
     0 < Redeem.amountIn q /\
     0 <= Redeem.feeAmount q <= Redeem.amountIn q /\
     Redeem.feeAmount q + Redeem.netAmount q = Redeem.amountIn q /\
     0 <= Redeem.netAmount q /\
     0 <= Redeem.oracleAmount q /\
     0 <= Redeem.oneToOneAmount q /\
     0 <= Redeem.redeemAmount q).
Proof.
  split; intros input q H.
  - apply getMintQuote_Ok_inv in H.
    destruct H as (a & p & vd & ld & r & H). decompose [and] H. clear H.
    cbv zeta in *. subst q.
    cbn [Mint.amountIn Mint.feeAmount Mint.netAmount Mint.oracleAmount
         Mint.oneToOneAmount Mint.mintAmount].
    pose proof (fee_within_amount_rate a r ltac:(lia) ltac:(lia) ltac:(lia)).
    pose proof (ceilBigInt_le a r ltac:(lia) ltac:(lia)).
    pose proof (pow10_pos vd ltac:(lia)). pose proof (pow10_pos ld ltac:(lia)).
    set (peg := Config.pegPriceUsd (QuoteInput.config input)) in *.
    assert (0 <= Z.quot (a * p * 10 ^ ld * 10 ^ 4) (peg * 10 ^ vd * 10 ^ 8))
      by (apply Z.quot_pos; nia).
    assert (0 <= Z.quot ((a - Mint.ceilBigInt (a * r) 10000) * 10 ^ 4 * 10 ^ ld)
                        (peg * 10 ^ vd))
      by (apply Z.quot_pos; nia).
    repeat split; try lia.
    match goal with |- context [?x <? ?y] => destruct (x <? y) end; lia.
  - apply getRedeemQuote_Ok_inv in H.
    destruct H as (a & p & vd & ld & r & H). decompose [and] H. clear H.
    cbv zeta in *. subst q.
    cbn [Redeem.amountIn Redeem.feeAmount Redeem.netAmount Redeem.oracleAmount
         Redeem.oneToOneAmount Redeem.redeemAmount].
    pose proof (fee_within_amount_rate a r ltac:(lia) ltac:(lia) ltac:(lia)).
    pose proof (ceilBigInt_le a r ltac:(lia) ltac:(lia)).
    pose proof (pow10_pos vd ltac:(lia)). pose proof (pow10_pos ld ltac:(lia)).
    set (peg := Config.pegPriceUsd (QuoteInput.config input)) in *.
    assert (0 <= Z.quot (a * peg * 10 ^ vd * 10 ^ 8) (p * 10 ^ ld * 10 ^ 4))
      by (apply Z.quot_pos; nia).
    assert (0 <= Z.quot ((a - Mint.ceilBigInt (a * r) 10000) * peg * 10 ^ vd)
                        (10 ^ 4 * 10 ^ ld))
      by (apply Z.quot_pos; nia).
    repeat split; try lia.
    match goal with |- context [?x <? ?y] => destruct (x <? y) end; lia.
Qed.

Lemma quote_amounts_nonnegative_witness :
  0 < Mint.amountIn scenario_mint_quote /\
  0 <= Mint.feeAmount scenario_mint_quote <= Mint.amountIn scenario_mint_quote /\
  Mint.feeAmount scenario_mint_quote + Mint.netAmount scenario_mint_quote
  = Mint.amountIn scenario_mint_quote /\
  0 <= Mint.netAmount scenario_mint_quote /\
  0 <= Mint.oracleAmount scenario_mint_quote /\
  0 <= Mint.oneToOneAmount scenario_mint_quote /\
  0 <= Mint.mintAmount scenario_mint_quote.
Proof.
  apply (proj1 quote_amounts_nonnegative scenario_input). reflexivity.
Defined.

(** What is left after the fee grows with the amount. *)
Lemma net_amount_monotone (a1 a2 r : Z) :
  0 <= a1 <= a2 -> 0 <= r <= 10000 ->
  a1 - Mint.ceilBigInt (a1 * r) 10000 <= a2 - Mint.ceilBigInt (a2 * r) 10000.
Proof.
  intros Ha Hr.
  pose proof (ceilBigInt_ceiling (a1 * r) 10000 ltac:(nia) ltac:(lia)).
  pose proof (ceilBigInt_ceiling (a2 * r) 10000 ltac:(nia) ltac:(lia)).
  nia.
Qed.

Lemma quot_monotone (n1 n2 d : Z) :
  0 <= n1 <= n2 -> 0 < d -> Z.quot n1 d <= Z.quot n2 d.
Proof.
  intros Hn Hd. rewrite !quot_is_floor by lia.
  apply Z.div_le_mono; lia.
Qed.

(** X5. Minting is monotone in the amount: of two successful mint quotes
    for the same config, benefactor, vault and oracle price, the one for
    the larger amount has the larger or equal net amount, valuations and
    mint amount. *)
Theorem mint_monotone_in_amount :
  forall input1 input2 q1 q2,
    QuoteInput.config input1 = QuoteInput.config input2 ->
    QuoteInput.benefactor input1 = QuoteInput.benefactor input2 ->
    QuoteInput.vault input1 = QuoteInput.vault input2 ->
    QuoteInput.oraclePriceUsd input1 = QuoteInput.oraclePriceUsd input2 ->
    Mint.getMintQuote input1 = Ok q1 ->
    Mint.getMintQuote input2 = Ok q2 ->
    Mint.amountIn q1 <= Mint.amountIn q2 ->
    Mint.netAmount q1 <= Mint.netAmount q2 /\
    Mint.oracleAmount q1 <= Mint.oracleAmount q2 /\
    Mint.oneToOneAmount q1 <= Mint.oneToOneAmount q2 /\
    Mint.mintAmount q1 <= Mint.mintAmount q2.
Proof.
  intros input1 input2 q1 q2 Ec Eb Ev Eo H1 H2.
  apply getMintQuote_Ok_inv in H1, H2.
  destruct H1 as (a1 & p1 & vd1 & ld1 & r1 & H1).
  destruct H2 as (a2 & p2 & vd2 & ld2 & r2 & H2).
  rewrite Ec, Eb, Ev, Eo in H1.
  decompose [and] H1. decompose [and] H2. clear H1 H2. cbv zeta in *.
  assert (p1 = p2) by congruence. assert (vd1 = vd2) by congruence.
  assert (ld1 = ld2) by congruence. assert (r1 = r2) by congruence.
  subst p1 vd1 ld1 r1 q1 q2.
  cbn [Mint.amountIn Mint.netAmount Mint.oracleAmount Mint.oneToOneAmount
       Mint.mintAmount].
  intros Hle.
  set (peg := Config.pegPriceUsd (QuoteInput.config input2)) in *.
  pose proof (fee_within_amount_rate a2 r2 ltac:(lia) ltac:(lia) ltac:(lia)).
  pose proof (net_amount_monotone a1 a2 r2 ltac:(lia) ltac:(lia)) as Hnet.
  pose proof (pow10_pos vd2 ltac:(lia)). pose proof (pow10_pos ld2 ltac:(lia)).
  assert (Ho : Z.quot (a1 * p2 * 10 ^ ld2 * 10 ^ 4) (peg * 10 ^ vd2 * 10 ^ 8)
               <= Z.quot (a2 * p2 * 10 ^ ld2 * 10 ^ 4)
                         (peg * 10 ^ vd2 * 10 ^ 8))
    by (apply quot_monotone; nia).
  assert (Hone : Z.quot ((a1 - Mint.ceilBigInt (a1 * r2) 10000)
                       * 10 ^ 4 * 10 ^ ld2) (peg * 10 ^ vd2)
               <= Z.quot ((a2 - Mint.ceilBigInt (a2 * r2) 10000)
                          * 10 ^ 4 * 10 ^ ld2) (peg * 10 ^ vd2))
    by (apply quot_monotone; nia).
  repeat split; try assumption.
  repeat match goal with
         | |- context [?x <? ?y] => destruct (Z.ltb_spec x y)
         end; lia.
Qed.

Lemma mint_monotone_in_amount_witness :
  Mint.netAmount half_amount_mint_quote <= Mint.netAmount scenario_mint_quote /\
  Mint.oracleAmount half_amount_mint_quote
  <= Mint.oracleAmount scenario_mint_quote /\
  Mint.oneToOneAmount half_amount_mint_quote
  <= Mint.oneToOneAmount scenario_mint_quote /\
  Mint.mintAmount half_amount_mint_quote <= Mint.mintAmount scenario_mint_quote.
Proof.
  apply (mint_monotone_in_amount half_amount_input scenario_input);
    try reflexivity. vm_compute. discriminate.
Defined.

(** X6. Redeeming is monotone in the amount in the same way. *)
Theorem redeem_monotone_in_amount :
  forall input1 input2 q1 q2,
    QuoteInput.config input1 = QuoteInput.config input2 ->
    QuoteInput.benefactor input1 = QuoteInput.benefactor input2 ->
    QuoteInput.vault input1 = QuoteInput.vault input2 ->
    QuoteInput.oraclePriceUsd input1 = QuoteInput.oraclePriceUsd input2 ->
    Redeem.getRedeemQuote input1 = Ok q1 ->
    Redeem.getRedeemQuote input2 = Ok q2 ->
    Redeem.amountIn q1 <= Redeem.amountIn q2 ->
    Redeem.netAmount q1 <= Redeem.netAmount q2 /\
    Redeem.oracleAmount q1 <= Redeem.oracleAmount q2 /\
    Redeem.oneToOneAmount q1 <= Redeem.oneToOneAmount q2 /\
    Redeem.redeemAmount q1 <= Redeem.redeemAmount q2.
Proof.
  intros input1 input2 q1 q2 Ec Eb Ev Eo H1 H2.
  apply getRedeemQuote_Ok_inv in H1, H2.
  destruct H1 as (a1 & p1 & vd1 & ld1 & r1 & H1).
  destruct H2 as (a2 & p2 & vd2 & ld2 & r2 & H2).
  rewrite Ec, Eb, Ev, Eo in H1.
  decompose [and] H1. decompose [and] H2. clear H1 H2. cbv zeta in *.
  assert (p1 = p2) by congruence. assert (vd1 = vd2) by congruence.
  assert (ld1 = ld2) by congruence. assert (r1 = r2) by congruence.
  subst p1 vd1 ld1 r1 q1 q2.
  cbn [Redeem.amountIn Redeem.netAmount Redeem.oracleAmount
       Redeem.oneToOneAmount Redeem.redeemAmount].
  intros Hle.
  set (peg := Config.pegPriceUsd (QuoteInput.config input2)) in *.
  pose proof (fee_within_amount_rate a2 r2 ltac:(lia) ltac:(lia) ltac:(lia)).
  pose proof (net_amount_monotone a1 a2 r2 ltac:(lia) ltac:(lia)) as Hnet.
  pose proof (pow10_pos vd2 ltac:(lia)). pose proof (pow10_pos ld2 ltac:(lia)).
  assert (Ho : Z.quot (a1 * peg * 10 ^ vd2 * 10 ^ 8) (p2 * 10 ^ ld2 * 10 ^ 4)
               <= Z.quot (a2 * peg * 10 ^ vd2 * 10 ^ 8)
                         (p2 * 10 ^ ld2 * 10 ^ 4))
    by (apply quot_monotone; nia).
  assert (Hone : Z.quot ((a1 - Mint.ceilBigInt (a1 * r2) 10000)
                       * peg * 10 ^ vd2) (10 ^ 4 * 10 ^ ld2)
               <= Z.quot ((a2 - Mint.ceilBigInt (a2 * r2) 10000)
                          * peg * 10 ^ vd2) (10 ^ 4 * 10 ^ ld2))
    by (apply quot_monotone; nia).
  repeat split; try assumption.
  repeat match goal with
         | |- context [?x <? ?y] => destruct (Z.ltb_spec x y)
         end; lia.
Qed.

Lemma redeem_monotone_in_amount_witness :
  Redeem.netAmount half_amount_redeem_quote
  <= Redeem.netAmount scenario_redeem_quote /\
  Redeem.oracleAmount half_amount_redeem_quote
  <= Redeem.oracleAmount scenario_redeem_quote /\
  Redeem.oneToOneAmount half_amount_redeem_quote
  <= Redeem.oneToOneAmount scenario_redeem_quote /\
  Redeem.redeemAmount half_amount_redeem_quote
  <= Redeem.redeemAmount scenario_redeem_quote.
Proof.
  apply (redeem_monotone_in_amount half_amount_input scenario_input);
    try reflexivity. vm_compute. discriminate.
Defined.

(** X7. Minting and redeeming back creates no collateral: when a redeem
    quote for at most the minted amount succeeds under the same peg price
    and decimals, whatever the oracle prices and fee rates of the two
    quotes, it pays out at most the net amount of the mint, hence at most
    the amount deposited. *)
Theorem redeem_of_mint_no_gain :
  forall minput rinput mq rq,
    Config.pegPriceUsd (QuoteInput.config minput)
    = Config.pegPriceUsd (QuoteInput.config rinput) ->
    Config.decimals (QuoteInput.config minput)
    = Config.decimals (QuoteInput.config rinput) ->
    Vault.decimals (QuoteInput.vault minput)
    = Vault.decimals (QuoteInput.vault rinput) ->
    Mint.getMintQuote minput = Ok mq ->
    Redeem.getRedeemQuote rinput = Ok rq ->
    Redeem.amountIn rq <= Mint.mintAmount mq ->
    Redeem.redeemAmount rq <= Mint.netAmount mq /\
    Redeem.redeemAmount rq <= Mint.amountIn mq.
Proof.
  intros minput rinput mq rq Epeg Eld Evd Hm Hr.
  apply getMintQuote_Ok_inv in Hm. apply getRedeemQuote_Ok_inv in Hr.
  destruct Hm as (a & p & vd & ld & r & Hm).
  destruct Hr as (a' & p' & vd' & ld' & r' & Hr).
  rewrite Epeg, Eld, Evd in Hm.
  decompose [and] Hm. decompose [and] Hr. clear Hm Hr. cbv zeta in *.
  assert (vd' = vd) by congruence. assert (ld' = ld) by congruence.
  subst vd' ld' mq rq.
  cbn [Redeem.amountIn Redeem.redeemAmount Mint.mintAmount Mint.netAmount
       Mint.amountIn].
  pose proof (fee_within_amount_rate a r ltac:(lia) ltac:(lia) ltac:(lia)).
  pose proof (ceilBigInt_le a r ltac:(lia) ltac:(lia)).
  pose proof (fee_within_amount_rate a' r' ltac:(lia) ltac:(lia) ltac:(lia)).
  pose proof (ceilBigInt_le a' r' ltac:(lia) ltac:(lia)).
  pose proof (pow10_pos vd ltac:(lia)). pose proof (pow10_pos ld ltac:(lia)).
  set (peg := Config.pegPriceUsd (QuoteInput.config rinput)) in *.
  set (fee := Mint.ceilBigInt (a * r) 10000) in *.
  set (fee' := Mint.ceilBigInt (a' * r') 10000) in *.
  set (V := 10 ^ vd) in *. set (L := 10 ^ ld) in *.
  change (10 ^ 4) with 10000 in *. change (10 ^ 8) with 100000000 in *.
  rewrite (quot_is_floor ((a - fee) * 10000 * L) (peg * V)) by nia.
  rewrite (quot_is_floor ((a' - fee') * peg * V) (10000 * L)) by nia.
  intros Hle.
  assert (Hone : a' <= ((a - fee) * 10000 * L) / (peg * V)).
  { revert Hle.
    match goal with
    | |- context [?x <? ?y] => destruct (Z.ltb_spec x y)
    end; lia. }
  assert (Hup : a' * (peg * V) <= (a - fee) * 10000 * L).
  { pose proof (Z.mul_div_le ((a - fee) * 10000 * L) (peg * V) ltac:(nia)).
    nia. }
  assert (Hback : ((a' - fee') * peg * V) / (10000 * L) <= a - fee).
  { apply Z.div_le_upper_bound; nia. }
  match goal with
  | |- context [?x <? ?y] => destruct (Z.ltb_spec x y)
  end; lia.
Qed.

Lemma redeem_of_mint_no_gain_witness :
  Redeem.redeemAmount redeem_minted_quote <= Mint.netAmount scenario_mint_quote
  /\
  Redeem.redeemAmount redeem_minted_quote <= Mint.amountIn scenario_mint_quote.
Proof.
  apply (redeem_of_mint_no_gain scenario_input redeem_minted_input);
    try reflexivity; vm_compute; discriminate.
Defined.

(** X8. Only the difference between the two decimals matters to a quote:
    raising [config.decimals] and [vault.decimals] by the same [k >= 0]
    changes neither the mint quote nor the redeem quote. *)
Theorem quotes_invariant_under_decimals_shift :
  forall amountIn peg configLimits benefactor vmin vmax vaultLimits oracle
         vd ld k,
    0 <= vd -> 0 <= ld -> 0 <= k ->
    let input d1 d2 :=
      {| QuoteInput.amountIn := amountIn;
         QuoteInput.config :=
           {| Config.pegPriceUsd := peg;
              Config.decimals := Int d1;
              Config.periodLimits := configLimits |};
         QuoteInput.benefactor := benefactor;
         QuoteInput.vault :=
           {| Vault.minOraclePriceUsd := vmin;
              Vault.maxOraclePriceUsd := vmax;
              Vault.decimals := Int d2;
              Vault.periodLimits := vaultLimits |};
         QuoteInput.oraclePriceUsd := oracle |} in
    Mint.getMintQuote (input (ld + k) (vd + k))
    = Mint.getMintQuote (input ld vd)
    /\
    Redeem.getRedeemQuote (input (ld + k) (vd + k))
    = Redeem.getRedeemQuote (input ld vd).
Proof.
  intros amountIn peg configLimits benefactor vmin vmax vaultLimits oracle
         vd ld k Hvd Hld Hk input.
  assert (P : 0 < 10 ^ k) by (apply pow10_pos; lia).
  pose proof (pow10_pos vd Hvd). pose proof (pow10_pos ld Hld).
  split.
  - unfold Mint.getMintQuote, bind, input.
    cbn [QuoteInput.amountIn QuoteInput.config QuoteInput.benefactor
         QuoteInput.vault QuoteInput.oraclePriceUsd Config.pegPriceUsd
         Config.decimals Vault.minOraclePriceUsd Vault.decimals
         Mint.toBigInt Mint.ensureNonNegativeInteger].
    destruct (Mint.toBigInt amountIn) as [a|]; [|reflexivity].
    destruct (a <=? 0); [reflexivity|].
    destruct (Z.leb_spec peg 0); [reflexivity|].
    destruct (Mint.toBigInt oracle) as [p|]; [|reflexivity].
    destruct (p <=? 0); [reflexivity|].
    destruct (p <? _); [reflexivity|].
    destruct (Z.ltb_spec (vd + k) 0); [lia|].
    destruct (Z.ltb_spec vd 0); [lia|].
    destruct (Z.ltb_spec (ld + k) 0); [lia|].
    destruct (Z.ltb_spec ld 0); [lia|].
    cbn [Mint.pow10].
    destruct (Z.ltb_spec (vd + k) 0); [lia|].
    destruct (Z.ltb_spec vd 0); [lia|].
    destruct (Z.ltb_spec (ld + k) 0); [lia|].
    destruct (Z.ltb_spec ld 0); [lia|].
    destruct (Mint.computeMintFee a _) as [fee|]; [|reflexivity].
    destruct (fee >? a); [reflexivity|].
    unfold Mint.computeOracleAmount, Mint.computeOneToOneAmount.
    destruct (Z.eqb_spec peg 0); [lia|].
    rewrite !Z.pow_add_r by lia.
    replace (a * p * (10 ^ ld * 10 ^ k) * Mint.PEG_PRICE_SCALE)
      with (a * p * 10 ^ ld * Mint.PEG_PRICE_SCALE * 10 ^ k) by ring.
    replace (peg * (10 ^ vd * 10 ^ k) * Mint.ORACLE_PRICE_SCALE)
      with (peg * 10 ^ vd * Mint.ORACLE_PRICE_SCALE * 10 ^ k) by ring.
    replace ((a - fee) * Mint.PEG_PRICE_SCALE * (10 ^ ld * 10 ^ k))
      with ((a - fee) * Mint.PEG_PRICE_SCALE * 10 ^ ld * 10 ^ k) by ring.
    replace (peg * (10 ^ vd * 10 ^ k)) with (peg * 10 ^ vd * 10 ^ k) by ring.
    change Mint.ORACLE_PRICE_SCALE with (10 ^ 8).
    rewrite !Z.quot_mul_cancel_r by nia. reflexivity.
  - unfold Redeem.getRedeemQuote, bind, input.
    cbn [QuoteInput.amountIn QuoteInput.config QuoteInput.benefactor
         QuoteInput.vault QuoteInput.oraclePriceUsd Config.pegPriceUsd
         Config.decimals Vault.minOraclePriceUsd Vault.maxOraclePriceUsd
         Vault.decimals Redeem.toBigInt Redeem.ensureNonNegativeInteger].
    destruct (Redeem.toBigInt amountIn) as [a|]; [|reflexivity].
    destruct (a <=? 0); [reflexivity|].
    destruct (Z.leb_spec peg 0); [reflexivity|].
    destruct (Redeem.toBigInt oracle) as [p|]; [|reflexivity].
    destruct (Z.leb_spec p 0); [reflexivity|].
    destruct ((p <? _) || (p >? _)); [reflexivity|].
    destruct (Z.ltb_spec (vd + k) 0); [lia|].
    destruct (Z.ltb_spec vd 0); [lia|].
    destruct (Z.ltb_spec (ld + k) 0); [lia|].
    destruct (Z.ltb_spec ld 0); [lia|].
    cbn [Redeem.pow10].
    destruct (Z.ltb_spec (vd + k) 0); [lia|].
    destruct (Z.ltb_spec vd 0); [lia|].
    destruct (Z.ltb_spec (ld + k) 0); [lia|].
    destruct (Z.ltb_spec ld 0); [lia|].
    destruct (Redeem.computeRedeemFee a _) as [fee|]; [|reflexivity].
    destruct (fee >? a); [reflexivity|].
    unfold Redeem.computeOracleAmount, Redeem.computeOneToOneAmount.
    destruct (Z.eqb_spec p 0); [lia|].
    destruct (Z.eqb_spec peg 0); [lia|].
    rewrite !Z.pow_add_r by lia.
    replace (a * peg * (10 ^ vd * 10 ^ k) * Mint.ORACLE_PRICE_SCALE)
      with (a * peg * 10 ^ vd * Mint.ORACLE_PRICE_SCALE * 10 ^ k) by ring.
    replace (p * (10 ^ ld * 10 ^ k) * Mint.PEG_PRICE_SCALE)
      with (p * 10 ^ ld * Mint.PEG_PRICE_SCALE * 10 ^ k) by ring.
    replace ((a - fee) * peg * (10 ^ vd * 10 ^ k))
      with ((a - fee) * peg * 10 ^ vd * 10 ^ k) by ring.
    replace (Mint.PEG_PRICE_SCALE * (10 ^ ld * 10 ^ k))
      with (Mint.PEG_PRICE_SCALE * 10 ^ ld * 10 ^ k) by ring.
    change Mint.PEG_PRICE_SCALE with (10 ^ 4).
    rewrite !Z.quot_mul_cancel_r by nia. reflexivity.
Qed.

Lemma quotes_invariant_under_decimals_shift_witness :
  Mint.getMintQuote
    {| QuoteInput.amountIn := BigInt 1000000000;
       QuoteInput.config :=
         {| Config.pegPriceUsd := 10000;
            Config.decimals := Int (6 + 3);
            Config.periodLimits := [] |};
       QuoteInput.benefactor := scenario_benefactor;
       QuoteInput.vault :=
         {| Vault.minOraclePriceUsd := 9000;
            Vault.maxOraclePriceUsd := 11000;
            Vault.decimals := Int (6 + 3);
            Vault.periodLimits := [] |};
       QuoteInput.oraclePriceUsd := BigInt 100000000 |}
  = Mint.getMintQuote scenario_input.
Proof.
  apply (quotes_invariant_under_decimals_shift
           (BigInt 1000000000) 10000 [] scenario_benefactor 9000 11000 []
           (BigInt 100000000) 6 6 3); lia.
Defined.

(** * Further properties of the period limits *)

Lemma findLimitExceedance_total limits amount now operation :
  exists found,
    PeriodLimits.findLimitExceedance limits amount now operation = Ok found.
Proof.
  induction limits as [|limit rest IH].
  - exists None. reflexivity.
  - rewrite findLimitExceedance_cons.
    destruct (remaining_of limit now operation) as [r|]; [|exact IH].
    destruct (amount >? r); [eexists; reflexivity | exact IH].
Qed.

Lemma findLimitExceedance_Some_inv limits amount now operation x :
  PeriodLimits.findLimitExceedance limits amount now operation = Ok (Some x) ->
  exists l r,
    In l limits /\ remaining_of l now operation = Some r /\
    amount > r /\ x = Z.max r 0.
Proof.
  induction limits as [|limit rest IH]; [discriminate|].
  rewrite findLimitExceedance_cons.
  destruct (remaining_of limit now operation) as [r|] eqn:E.
  - destruct (Z.gtb_spec amount r) as [Hgt|Hle].
    + intros G. injection G as <-. exists limit, r.
      split; [left; reflexivity|]. split; [exact E|].
      split; [lia | reflexivity].
    + intros G. destruct (IH G) as (l & r' & Hl & G').
      exists l, r'. split; [right; assumption | exact G'].
  - intros G. destruct (IH G) as (l & r' & Hl & G').
    exists l, r'. split; [right; assumption | exact G'].
Qed.

(** The check as a cascade over the three lists, for a positive amount. *)
Lemma findPeriodLimitViolation_cascade now input amount :
  PeriodLimits.toBigInt (PeriodLimits.amount input) amount_field = Ok amount ->
  0 < amount ->
  PeriodLimits.findPeriodLimitViolation now input =
  let check account :=
    PeriodLimits.findLimitExceedance (limits_of account input)
      amount now (PeriodLimits.operation input) in
  let found account r :=
    Ok (Some {| PeriodLimits.account := account;
                PeriodLimits.remainingAmount := r |}) in
  match check PeriodLimits.account_config with
  | Ok (Some r) => found PeriodLimits.account_config r
  | Ok None =>
      match check PeriodLimits.account_vault with
      | Ok (Some r) => found PeriodLimits.account_vault r
      | Ok None =>
          match check PeriodLimits.account_benefactor with
          | Ok (Some r) => found PeriodLimits.account_benefactor r
          | Ok None => Ok None
          | Err e => Err e
          end
      | Err e => Err e
      end
  | Err e => Err e
  end.
Proof.
  intros Ea Ha. unfold PeriodLimits.findPeriodLimitViolation, bind.
  rewrite Ea. destruct (Z.leb_spec amount 0); [lia|].
  cbv zeta. cbn [limits_of].
  repeat match goal with
         | |- context [match ?x with _ => _ end] =>
             destruct x as [[?|]|?]; try reflexivity
         end.
Qed.

Lemma no_violation_iff_each_owner now input amount :
  PeriodLimits.toBigInt (PeriodLimits.amount input) amount_field = Ok amount ->
  0 < amount ->
  (PeriodLimits.findPeriodLimitViolation now input = Ok None <->
   forall account l,
     In l (limits_of account input) ->
     slot_violated amount now (PeriodLimits.operation input) l = false).
Proof.
  intros Ea Ha.
  rewrite (findPeriodLimitViolation_cascade now input amount Ea Ha).
  cbv beta zeta.
  pose proof (fun account =>
                findLimitExceedance_None (limits_of account input)
                  amount now (PeriodLimits.operation input)) as N.
  split.
  - intros H account l Hl. apply (N account); [|assumption].
    destruct (PeriodLimits.findLimitExceedance
                (limits_of PeriodLimits.account_config input)
                amount now (PeriodLimits.operation input))
      as [[?|]|?] eqn:Ec; try discriminate H.
    destruct (PeriodLimits.findLimitExceedance
                (limits_of PeriodLimits.account_vault input)
                amount now (PeriodLimits.operation input))
      as [[?|]|?] eqn:Ev; try discriminate H.
    destruct (PeriodLimits.findLimitExceedance
                (limits_of PeriodLimits.account_benefactor input)
                amount now (PeriodLimits.operation input))
      as [[?|]|?] eqn:Eb; try discriminate H.
    destruct account; assumption.
  - intros H.
    rewrite (proj2 (N PeriodLimits.account_config)),
      (proj2 (N PeriodLimits.account_vault)),
      (proj2 (N PeriodLimits.account_benefactor));
      [reflexivity| | |]; intros l Hl; apply (H _ l Hl).
Qed.

(** X9. For a positive amount the check finds no violation exactly when no
    slot of the config, of the vault or of the benefactor is violated. *)
Theorem no_violation_iff_all_slots_fit :
  forall now input amount,
    PeriodLimits.toBigInt (PeriodLimits.amount input) amount_field
    = Ok amount ->
    0 < amount ->
    (PeriodLimits.findPeriodLimitViolation now input = Ok None <->
     forall l,
       In l (Config.periodLimits (PeriodLimits.config input)
             ++ Vault.periodLimits (PeriodLimits.vault input)
             ++ Benefactor.periodLimits (PeriodLimits.benefactor input)) ->
       slot_violated amount now (PeriodLimits.operation input) l = false).
Proof.
  intros now input amount Ea Ha.
  rewrite (no_violation_iff_each_owner now input amount Ea Ha).
  split.
  - intros H l Hl. apply in_app_or in Hl. destruct Hl as [Hl|Hl];
      [|apply in_app_or in Hl; destruct Hl as [Hl|Hl]].
    + apply (H PeriodLimits.account_config l Hl).
    + apply (H PeriodLimits.account_vault l Hl).
    + apply (H PeriodLimits.account_benefactor l Hl).
  - intros H account l Hl. apply H.
    destruct account; cbn [limits_of] in Hl; auto using in_or_app.
Qed.

Lemma no_violation_iff_all_slots_fit_witness :
  PeriodLimits.findPeriodLimitViolation 1800 (limited_everywhere 100) = Ok None
  <->
  forall l,
    In l ([hourly_limit] ++ [hourly_limit] ++ [hourly_limit]) ->
    slot_violated 100 1800 PeriodLimits.mint l = false.
Proof.
  apply (no_violation_iff_all_slots_fit 1800 (limited_everywhere 100) 100);
    [reflexivity | lia].
Defined.

(** X10. A reported violation is real: some slot in the list of the owner
    it names has a remaining capacity below the amount, and the reported
    remaining amount is that capacity, or 0 if it is negative; so it is
    never negative and always below the amount asked for. *)
Theorem violation_is_real :
  forall now input v,
    PeriodLimits.findPeriodLimitViolation now input = Ok (Some v) ->
    exists amount l r,
      PeriodLimits.toBigInt (PeriodLimits.amount input) amount_field
      = Ok amount /\
      In l (limits_of (PeriodLimits.account v) input) /\
      PeriodLimits.getRemainingCapacity l now (PeriodLimits.operation input)
      = Ok (Some r) /\
      r < amount /\
      PeriodLimits.remainingAmount v = Z.max r 0 /\
      0 <= PeriodLimits.remainingAmount v < amount.
Proof.
  intros now input v H.
  destruct (PeriodLimits.toBigInt (PeriodLimits.amount input) amount_field)
    as [amount|] eqn:Ea;
    [|unfold PeriodLimits.findPeriodLimitViolation, bind in H;
      rewrite Ea in H; discriminate H].
  assert (Ha : 0 < amount).
  { unfold PeriodLimits.findPeriodLimitViolation, bind in H.
    rewrite Ea in H. destruct (Z.leb_spec amount 0); [discriminate H | lia]. }
  rewrite (findPeriodLimitViolation_cascade now input amount Ea Ha) in H.
  cbv beta zeta in H.
  assert (G : exists account x,
             PeriodLimits.findLimitExceedance (limits_of account input)
               amount now (PeriodLimits.operation input) = Ok (Some x) /\
             v = {| PeriodLimits.account := account;
                    PeriodLimits.remainingAmount := x |}).
  { destruct (PeriodLimits.findLimitExceedance
                (limits_of PeriodLimits.account_config input) _ _ _)
      as [[x|]|?] eqn:Ec; try discriminate H.
    { injection H as <-. eauto. }
    destruct (PeriodLimits.findLimitExceedance
                (limits_of PeriodLimits.account_vault input) _ _ _)
      as [[x|]|?] eqn:Ev; try discriminate H.
    { injection H as <-. eauto. }
    destruct (PeriodLimits.findLimitExceedance
                (limits_of PeriodLimits.account_benefactor input) _ _ _)
      as [[x|]|?] eqn:Eb; try discriminate H.
    injection H as <-. eauto. }
  destruct G as (account & x & Hx & ->).
  apply findLimitExceedance_Some_inv in Hx.
  destruct Hx as (l & r & Hl & Hr & Hgt & ->).
  exists amount, l, r. cbn [PeriodLimits.account PeriodLimits.remainingAmount].
  rewrite getRemainingCapacity_eq, Hr.
  repeat split; try assumption; lia.
Qed.

Lemma violation_is_real_witness :
  exists amount l r,
    PeriodLimits.toBigInt
      (PeriodLimits.amount (limited_below_config 150)) amount_field
    = Ok amount /\
    In l (limits_of PeriodLimits.account_vault (limited_below_config 150)) /\
    PeriodLimits.getRemainingCapacity l 1800 PeriodLimits.mint
    = Ok (Some r) /\
    r < amount /\
    100 = Z.max r 0 /\
    0 <= 100 < amount.
Proof.
  apply (violation_is_real 1800 (limited_below_config 150)
           {| PeriodLimits.account := PeriodLimits.account_vault;
              PeriodLimits.remainingAmount := 100 |}).
  reflexivity.
Defined.

Lemma slot_violated_monotone a1 a2 now operation l :
  a1 <= a2 ->
  slot_violated a2 now operation l = false ->
  slot_violated a1 now operation l = false.
Proof.
  intros Hle. rewrite !slot_violated_eq.
  destruct (remaining_of l now operation) as [r|]; [|reflexivity].
  destruct (Z.gtb_spec a2 r); [discriminate|].
  destruct (Z.gtb_spec a1 r); [lia | reflexivity].
Qed.

(** X11. What fits, fits for less: if an amount passes the check, every
    smaller positive amount passes it for the same operation, accounts and
    time. *)
Theorem smaller_amount_fits :
  forall now input1 input2 a1 a2,
    PeriodLimits.operation input1 = PeriodLimits.operation input2 ->
    PeriodLimits.benefactor input1 = PeriodLimits.benefactor input2 ->
    PeriodLimits.config input1 = PeriodLimits.config input2 ->
    PeriodLimits.vault input1 = PeriodLimits.vault input2 ->
    PeriodLimits.toBigInt (PeriodLimits.amount input1) amount_field = Ok a1 ->
    PeriodLimits.toBigInt (PeriodLimits.amount input2) amount_field = Ok a2 ->
    0 < a1 <= a2 ->
    PeriodLimits.findPeriodLimitViolation now input2 = Ok None ->
    PeriodLimits.findPeriodLimitViolation now input1 = Ok None.
Proof.
  intros now input1 input2 a1 a2 Eo Eb Ec Ev E1 E2 Ha H.
  apply (no_violation_iff_each_owner now input1 a1 E1 ltac:(lia)).
  pose proof (proj1 (no_violation_iff_each_owner now input2 a2 E2 ltac:(lia)) H)
    as N.
  intros account l Hl. rewrite Eo.
  apply (slot_violated_monotone a1 a2); [lia|].
  apply (N account).
  destruct account; cbn [limits_of] in *; congruence.
Qed.

Lemma smaller_amount_fits_witness :
  PeriodLimits.findPeriodLimitViolation 1800 (limited_everywhere 40) = Ok None.
Proof.
  apply (smaller_amount_fits 1800 (limited_everywhere 40)
           (limited_everywhere 100) 40 100);
    try reflexivity. lia.
Defined.


Lemma Js_eqb_eq a : forall b, Js.eqb a b = true <-> a = b.
Proof.
  induction a as [|x a IH]; intros [|y b]; cbn [Js.eqb];
    try (split; [discriminate | discriminate]); [split; reflexivity|].
  rewrite andb_true_iff, Ascii.eqb_eq, IH.
  split; [intros [-> ->]; reflexivity | intros E; injection E; auto].
Qed.





(** The operation named "burn" is refused, but only after the amount; the
    two named operations are checked against the slots. *)
Example period_check_on_burn :
  PeriodLimitsUntyped.findPeriodLimitViolation 1800
    (limited_everywhere_as (str "burn") 0)
  = Err AmountNotPositive
  /\
  PeriodLimitsUntyped.findPeriodLimitViolation 1800
    (limited_everywhere_as (str "burn") 150)
  = Err OperationInvalid
  /\
  PeriodLimitsUntyped.findPeriodLimitViolation 1800
    (limited_everywhere_as (str "mint") 150)
  = Ok (Some {| PeriodLimits.account := PeriodLimits.account_config;
                PeriodLimits.remainingAmount := 100 |})
  /\
  PeriodLimitsUntyped.findPeriodLimitViolation 1800
    (limited_everywhere_as (str "redeem") 40)
  = Ok None.
Proof. repeat split. Qed.

(** X13. A slot that is switched on with a cap of 0 for the operation
    blocks it: whichever list holds it, every positive amount is refused
    with some violation. *)
Theorem zero_cap_blocks :
  forall now input amount account l,
    PeriodLimits.toBigInt (PeriodLimits.amount input) amount_field
    = Ok amount ->
    0 < amount ->
    In l (limits_of account input) ->
    PeriodLimit.durationSeconds l <> 0 ->
    maxAmount_of (PeriodLimits.operation input) l = 0 ->
    exists v, PeriodLimits.findPeriodLimitViolation now input = Ok (Some v).
Proof.
  intros now input amount account l Ea Ha Hl Hd Hm.
  assert (V : slot_violated amount now (PeriodLimits.operation input) l = true).
  { rewrite slot_violated_eq. unfold remaining_of.
    destruct (Z.eqb_spec (PeriodLimit.durationSeconds l) 0); [contradiction|].
    rewrite Hm. cbn [Z.eqb]. destruct (Z.gtb_spec amount 0); [reflexivity|lia]. }
  destruct (PeriodLimits.findPeriodLimitViolation now input)
    as [[v|]|e] eqn:E.
  - exists v. reflexivity.
  - pose proof (proj1 (no_violation_iff_each_owner now input amount Ea Ha) E
                  account l Hl) as N.
    rewrite N in V. discriminate V.
  - exfalso.
    rewrite (findPeriodLimitViolation_cascade now input amount Ea Ha) in E.
    cbv beta zeta in E.
    destruct (findLimitExceedance_total
                (limits_of PeriodLimits.account_config input) amount now
                (PeriodLimits.operation input)) as [[c|] Ec];
      rewrite Ec in E; [discriminate E|].
    destruct (findLimitExceedance_total
                (limits_of PeriodLimits.account_vault input) amount now
                (PeriodLimits.operation input)) as [[c|] Ev];
      rewrite Ev in E; [discriminate E|].
    destruct (findLimitExceedance_total
                (limits_of PeriodLimits.account_benefactor input) amount now
                (PeriodLimits.operation input)) as [[c|] Eb];
      rewrite Eb in E; discriminate E.
Qed.

Lemma zero_cap_blocks_witness :
  exists v,
    PeriodLimits.findPeriodLimitViolation 5 (blocked_input 1) = Ok (Some v).
Proof.
  apply (zero_cap_blocks 5 (blocked_input 1) 1
           PeriodLimits.account_benefactor blocked_limit).
  - reflexivity.
  - lia.
  - left. reflexivity.
  - discriminate.
  - reflexivity.
Defined.

(** * Further properties of the flag parsers *)

(** X14. [parseU64StringFlag] accepts exactly the non-empty strings of
    decimal digits that denote a number up to [2^64 - 1] and returns that
    number (leading zeros are allowed); any other character gives the
    invalid-value error and a larger number the unable-to-parse error. *)
Theorem parseU64StringFlag_spec :
  forall raw flagName,
    (forall v,
       Cli.parseU64StringFlag raw flagName = Ok v <->
       raw <> [] /\ forallb Cli.is_digit raw = true /\
       v = decimal_value raw /\ 0 <= v <= 2 ^ 64 - 1)
    /\
    (raw = [] \/ forallb Cli.is_digit raw = false ->
     Cli.parseU64StringFlag raw flagName
     = Err (Cli.InvalidU64Flag flagName raw))
    /\
    (raw <> [] -> forallb Cli.is_digit raw = true ->
     2 ^ 64 - 1 < decimal_value raw ->
     Cli.parseU64StringFlag raw flagName
     = Err (Cli.UnableToParseU64 flagName raw)).
Proof.
  intros raw flagName. unfold Cli.parseU64StringFlag.
  rewrite BigInt_of_string_value.
  change (Z.shiftl 1 64 - 1) with (2 ^ 64 - 1).
  assert (T : Cli.test_digits raw = true <->
              raw <> [] /\ forallb Cli.is_digit raw = true).
  { destruct raw as [|c raw]; cbn [Cli.test_digits].
    - split; [discriminate | intros [H _]; contradiction H; reflexivity].
    - split; [intros H; split; [discriminate | exact H] | intros [_ H]; exact H]. }
  split; [|split].
  - intros v. destruct (Cli.test_digits raw) eqn:D; cbn [negb].
    + destruct (proj1 T eq_refl) as [Hne Hd].
      pose proof (decimal_value_nonneg raw Hd).
      destruct (Z.gtb_spec (decimal_value raw) (2 ^ 64 - 1)).
      * split; [discriminate | intros (_ & _ & -> & Hv); lia].
      * split.
        -- intros E. injection E as <-. repeat split; try assumption; lia.
        -- intros (_ & _ & -> & _). reflexivity.
    + split; [discriminate|]. intros (Hne & Hd & _).
      discriminate (proj2 T (conj Hne Hd)).
  - intros H. destruct (Cli.test_digits raw) eqn:D; [|reflexivity].
    destruct (proj1 T eq_refl) as [Hne Hd].
    destruct H as [H|H]; [contradiction | rewrite H in Hd; discriminate Hd].
  - intros Hne Hd Hbig. rewrite (proj2 T (conj Hne Hd)). cbn [negb].
    destruct (Z.gtb_spec (decimal_value raw) (2 ^ 64 - 1)); [reflexivity | lia].
Qed.

Lemma parseU64StringFlag_spec_witness :
  Cli.parseU64StringFlag (str "007") "amount" = Ok 7
  /\
  Cli.parseU64StringFlag (str "18446744073709551616") "amount"
  = Err (Cli.UnableToParseU64 "amount" (str "18446744073709551616")).
Proof.
  split.
  - apply (proj1 (parseU64StringFlag_spec (str "007") "amount")).
    repeat split; try discriminate; vm_compute; discriminate.
  - apply (proj2 (proj2 (parseU64StringFlag_spec
                           (str "18446744073709551616") "amount"))).
    + discriminate.
    + reflexivity.
    + vm_compute. reflexivity.
Defined.

(** *** White space around a flag *)

Lemma digit_not_whitespace c :
  Cli.is_digit c = true -> Cli.is_whitespace c = false.
Proof.
  unfold Cli.is_digit, Cli.is_whitespace. intros H.
  apply andb_true_iff in H. destruct H as [H1 H2].
  apply Nat.leb_le in H1. apply Nat.leb_le in H2.
  destruct (Nat.leb_spec (nat_of_ascii c) 13); [lia|].
  destruct (Nat.eqb_spec (nat_of_ascii c) 32); [lia|].
  destruct (Nat.eqb_spec (nat_of_ascii c) 160); [lia|].
  rewrite andb_false_r. reflexivity.
Qed.

Lemma trimStart_cons c s :
  Cli.is_whitespace c = false -> Cli.trimStart (c :: s) = c :: s.
Proof. intros H. cbn [Cli.trimStart]. rewrite H. reflexivity. Qed.

Lemma trimStart_head s :
  Cli.trimStart s = [] \/
  exists c r, Cli.trimStart s = c :: r /\ Cli.is_whitespace c = false.
Proof.
  induction s as [|c s IH]; [left; reflexivity|].
  cbn [Cli.trimStart]. destruct (Cli.is_whitespace c) eqn:W; [exact IH|].
  right. exists c, s. split; [reflexivity | exact W].
Qed.

Lemma trimStart_snoc l c :
  Cli.is_whitespace c = false ->
  Cli.trimStart (l ++ [c]) = Cli.trimStart l ++ [c].
Proof.
  intros W. induction l as [|x l IH]; cbn [app Cli.trimStart].
  - rewrite W. reflexivity.
  - destruct (Cli.is_whitespace x); [exact IH | reflexivity].
Qed.

Lemma trimEnd_cons c s :
  Cli.is_whitespace c = false -> Cli.trimEnd (c :: s) = c :: Cli.trimEnd s.
Proof.
  intros W. unfold Cli.trimEnd. cbn [rev].
  rewrite (trimStart_snoc _ _ W), rev_app_distr. reflexivity.
Qed.

Lemma trimEnd_snoc l c :
  Cli.is_whitespace c = false -> Cli.trimEnd (l ++ [c]) = l ++ [c].
Proof.
  intros W. unfold Cli.trimEnd.
  rewrite rev_app_distr. cbn [rev app].
  rewrite (trimStart_cons _ _ W). cbn [rev]. rewrite rev_involutive.
  reflexivity.
Qed.

Lemma trimStart_idempotent s :
  Cli.trimStart (Cli.trimStart s) = Cli.trimStart s.
Proof.
  destruct (trimStart_head s) as [-> | (c & r & -> & W)];
    [reflexivity | apply trimStart_cons, W].
Qed.

Lemma trimEnd_idempotent s : Cli.trimEnd (Cli.trimEnd s) = Cli.trimEnd s.
Proof.
  unfold Cli.trimEnd. rewrite rev_involutive, trimStart_idempotent.
  reflexivity.
Qed.

Lemma trim_idempotent s : Cli.trim (Cli.trim s) = Cli.trim s.
Proof.
  unfold Cli.trim.
  destruct (trimStart_head s) as [-> | (c & r & -> & W)]; [reflexivity|].
  rewrite (trimEnd_cons _ _ W), (trimStart_cons _ _ W),
    (trimEnd_cons _ _ W), trimEnd_idempotent.
  reflexivity.
Qed.

(** X15. White space around a peg price does not matter: the parser
    accepts a string exactly when it accepts the trimmed string, with the
    same result. *)
Theorem parsePegPriceFlag_ignores_whitespace :
  forall value r,
    Cli.parsePegPriceFlag value = Ok r
    <-> Cli.parsePegPriceFlag (Cli.trim value) = Ok r.
Proof.
  intros value r. unfold Cli.parsePegPriceFlag, bind.
  rewrite trim_idempotent.
  set (t := Cli.trim value). clearbody t.
  destruct (Cli.test_decimal t); cbn [negb]; [|split; discriminate].
  destruct (Cli.PEG_PRICE_DECIMALS <? length (nth 1 (Cli.split "." t) []))%nat;
    cbv iota; [split; discriminate|].
  destruct (Cli.parseU64StringFlag _ _); cbv iota; [|split; discriminate].
  destruct (_ <=? 0); cbv iota; [split; discriminate|].
  destruct (_ >=? _); cbv iota; [split; discriminate|].
  reflexivity.
Qed.

Lemma parsePegPriceFlag_ignores_whitespace_witness :
  Cli.parsePegPriceFlag (str "  1.5 ")
  = Ok {| Cli.scaledValue := 15000; Cli.displayValue := str "1.5000" |}.
Proof.
  apply (proj2 (parsePegPriceFlag_ignores_whitespace (str "  1.5 ") _)).
  reflexivity.
Defined.

(** *** The display value of a peg price *)

Lemma parsePegPriceFlag_Ok_shape value r :
  Cli.parsePegPriceFlag value = Ok r ->
  exists whole fraction,
    decimal_shape (Cli.trim value) whole fraction /\
    (length fraction <= Cli.PEG_PRICE_DECIMALS)%nat.
Proof.
  intros H.
  assert (T : Cli.test_decimal (Cli.trim value) = true).
  { unfold Cli.parsePegPriceFlag in H.
    destruct (Cli.test_decimal (Cli.trim value)); [reflexivity|].
    discriminate H. }
  destruct (test_decimal_inv _ T) as (whole & fraction & Hshape).
  exists whole, fraction. split; [exact Hshape|].
  unfold Cli.parsePegPriceFlag in H. rewrite T in H. cbn [negb] in H.
  destruct (split_shape _ _ _ Hshape) as [_ Ef]. rewrite Ef in H.
  destruct (Nat.ltb_spec Cli.PEG_PRICE_DECIMALS (length fraction));
    [discriminate H | assumption].
Qed.

Lemma padEnd_full s n : (length s = n)%nat -> Cli.padEnd s n = s.
Proof.
  intros <-. unfold Cli.padEnd. rewrite Nat.sub_diag. apply app_nil_r.
Qed.

Lemma padEnd_length s n : (length s <= n)%nat -> length (Cli.padEnd s n) = n.
Proof.
  intros H. unfold Cli.padEnd. rewrite length_app, repeat_length. lia.
Qed.

Lemma padEnd_digits s n :
  forallb Cli.is_digit s = true ->
  forallb Cli.is_digit (Cli.padEnd s n) = true.
Proof.
  intros H. unfold Cli.padEnd. rewrite forallb_app, H.
  induction (n - length s)%nat as [|k IH]; [reflexivity | exact IH].
Qed.

Lemma strip_final_dot_digit s c :
  Cli.is_digit c = true -> Cli.strip_final_dot (s ++ [c]) = s ++ [c].
Proof.
  intros H. unfold Cli.strip_final_dot. rewrite rev_app_distr. cbn [rev app].
  rewrite (digit_not_dot c H). reflexivity.
Qed.

Lemma last_digit s :
  s <> [] -> forallb Cli.is_digit s = true ->
  exists front c, s = front ++ [c] /\ Cli.is_digit c = true.
Proof.
  intros Hne Hd. destruct (exists_last Hne) as (front & c & ->).
  exists front, c. split; [reflexivity|].
  rewrite forallb_app in Hd. apply andb_true_iff in Hd.
  destruct Hd as [_ Hc]. cbn [forallb] in Hc. rewrite andb_true_r in Hc.
  exact Hc.
Qed.

(** X16. The display value of an accepted peg price is its whole part, a
    dot and exactly four fractional digits, and it is a fixed point of the
    parser: parsing the display value gives the same scaled value and the
    same display value again. *)
Theorem displayValue_fixed_point :
  forall value r,
    Cli.parsePegPriceFlag value = Ok r ->
    (exists whole padded,
       Cli.displayValue r = whole ++ "."%char :: padded /\
       whole <> [] /\ forallb Cli.is_digit whole = true /\
       length padded = 4%nat /\ forallb Cli.is_digit padded = true) /\
    Cli.parsePegPriceFlag (Cli.displayValue r) = Ok r.
Proof.
  intros value r H.
  destruct (parsePegPriceFlag_Ok_shape value r H)
    as (whole & fraction & Hshape & Hlen).
  pose proof Hshape as (Hne & Hw & Hf & _).
  set (padded := Cli.padEnd fraction Cli.PEG_PRICE_DECIMALS).
  assert (Lp : length padded = Cli.PEG_PRICE_DECIMALS)
    by (apply padEnd_length; assumption).
  assert (Dp : forallb Cli.is_digit padded = true)
    by (apply padEnd_digits; assumption).
  assert (Np : padded <> []) by (intros E; rewrite E in Lp; discriminate Lp).
  destruct (last_digit padded Np Dp) as (front & c & Ep & Hc).
  set (display := whole ++ "."%char :: padded).
  assert (Estrip : Cli.strip_final_dot display = display).
  { unfold display. rewrite Ep.
    change (whole ++ "."%char :: front ++ [c])
      with (whole ++ ("."%char :: front) ++ [c]).
    rewrite app_assoc. apply strip_final_dot_digit, Hc. }
  assert (Etrim : Cli.trim display = display).
  { unfold Cli.trim, display. destruct whole as [|w whole'];
      [contradiction Hne; reflexivity|].
    cbn [forallb] in Hw. apply andb_true_iff in Hw. destruct Hw as [Hw0 _].
    cbn [app]. rewrite (trimStart_cons _ _ (digit_not_whitespace w Hw0)).
    rewrite Ep.
    change (w :: whole' ++ "."%char :: front ++ [c])
      with ((w :: whole') ++ ("."%char :: front) ++ [c]).
    rewrite app_assoc.
    apply trimEnd_snoc, digit_not_whitespace, Hc. }
  assert (Hshape' : decimal_shape (Cli.trim display) whole padded).
  { rewrite Etrim. unfold display. repeat split; try assumption.
    destruct padded; [contradiction Np; reflexivity | reflexivity]. }
  assert (Escaled : scaled_of whole padded = scaled_of whole fraction).
  { unfold scaled_of. fold padded in Lp. rewrite Lp.
    unfold padded at 1. rewrite padEnd_value by assumption.
    change (4 - Z.of_nat Cli.PEG_PRICE_DECIMALS) with 0.
    change (10 ^ 0) with 1. lia. }
  assert (Er : r = {| Cli.scaledValue := scaled_of whole fraction;
                      Cli.displayValue := display |}).
  { rewrite (parsePegPriceFlag_shape value whole fraction Hshape Hlen) in H.
    fold padded in H. rewrite (firstn_all2 padded) in H by lia.
    fold display in H. rewrite Estrip in H.
    destruct (_ >? _); [discriminate H|].
    destruct (_ <=? 0); [discriminate H|].
    destruct (_ >=? _); [discriminate H|].
    injection H as <-. reflexivity. }
  split.
  - exists whole, padded. rewrite Er. cbn [Cli.displayValue].
    repeat split; assumption.
  - rewrite Er at 1. cbn [Cli.displayValue].
    rewrite (parsePegPriceFlag_shape display whole padded Hshape')
      by (rewrite Lp; reflexivity).
    rewrite (padEnd_full padded) by assumption.
    rewrite (firstn_all2 padded) by lia. fold display.
    rewrite Estrip, Escaled.
    rewrite (parsePegPriceFlag_shape value whole fraction Hshape Hlen) in H.
    destruct (_ >? _); [discriminate H|].
    destruct (_ <=? 0); [discriminate H|].
    destruct (_ >=? _); [discriminate H|].
    rewrite Er. reflexivity.
Qed.

Lemma displayValue_fixed_point_witness :
  Cli.parsePegPriceFlag (str "1.5000")
  = Ok {| Cli.scaledValue := 15000; Cli.displayValue := str "1.5000" |}.
Proof.
  apply (proj2 (displayValue_fixed_point (str " 1.5")
                  {| Cli.scaledValue := 15000;
                     Cli.displayValue := str "1.5000" |} eq_refl)).
Defined.

(** * Properties of the print helpers *)

Lemma digit_char_decimal d :
  0 <= d < 10 ->
  Cli.is_digit (Js.digit_char d) = true /\
  Cli.digit_value (Js.digit_char d) = d.
Proof.
  intros H.
  assert (d = 0 \/ d = 1 \/ d = 2 \/ d = 3 \/ d = 4 \/ d = 5 \/ d = 6
          \/ d = 7 \/ d = 8 \/ d = 9) as C by lia.
  repeat (destruct C as [-> | C]; [split; reflexivity|]).
  subst d. split; reflexivity.
Qed.

Lemma digits_acc_decimal fuel :
  forall n acc,
    0 <= n < 2 ^ Z.of_nat fuel ->
    decimal_value (Js.digits_acc fuel 10 n acc)
    = n * 10 ^ Z.of_nat (length acc) + decimal_value acc
    /\ (forallb Cli.is_digit acc = true ->
        forallb Cli.is_digit (Js.digits_acc fuel 10 n acc) = true)
    /\ (acc <> [] \/ fuel <> O -> Js.digits_acc fuel 10 n acc <> []).
Proof.
  induction fuel as [|fuel IH]; intros n acc Hn.
  - cbn [Js.digits_acc]. change (2 ^ Z.of_nat 0) with 1 in Hn.
    assert (n = 0) by lia. subst n.
    split; [lia|]. split; [auto|]. intros [H|H]; [exact H | contradiction].
  - cbn [Js.digits_acc].
    pose proof (Z.mod_pos_bound n 10 ltac:(lia)) as Hd.
    pose proof (Z.div_mod n 10 ltac:(lia)) as Hdm.
    destruct (digit_char_decimal (n mod 10) Hd) as [Dd Dv].
    destruct (Z.eqb_spec (n / 10) 0) as [Hz|Hz].
    + cbn [decimal_value forallb]. rewrite Dd, Dv.
      split; [nia|]. split; [auto|]. intros _. discriminate.
    + assert (Hq : 0 <= n / 10 < 2 ^ Z.of_nat fuel).
      { rewrite Nat2Z.inj_succ, Z.pow_succ_r in Hn by lia.
        split; [apply Z.div_pos; lia|].
        apply Z.div_lt_upper_bound; lia. }
      destruct (IH (n / 10) (Js.digit_char (n mod 10) :: acc) Hq)
        as (Hv & Hdig & Hne).
      split; [|split].
      * rewrite Hv. cbn [decimal_value length]. rewrite Dv.
        rewrite Nat2Z.inj_succ, Z.pow_succ_r by lia. nia.
      * intros Hacc. apply Hdig. cbn [forallb]. rewrite Dd, Hacc. reflexivity.
      * intros _. apply Hne. left. discriminate.
Qed.

(** A non-negative bigint prints as its decimal digits. *)
Lemma toString_decimal n :
  0 <= n ->
  decimal_value (Js.toString 10 n) = n /\
  forallb Cli.is_digit (Js.toString 10 n) = true /\
  Js.toString 10 n <> [].
Proof.
  intros Hn. unfold Js.toString. rewrite Z.abs_eq by lia.
  destruct (Z.ltb_spec n 0); [lia|].
  assert (B : 0 <= n < 2 ^ Z.of_nat (S (Z.to_nat (Z.log2 n)))).
  { rewrite Nat2Z.inj_succ, Z2Nat.id by apply Z.log2_nonneg.
    destruct (Z.eq_dec n 0) as [->|]; [cbn; lia|].
    pose proof (Z.log2_spec n ltac:(lia)). lia. }
  destruct (digits_acc_decimal _ n [] B) as (Hv & Hd & Hne).
  split; [|split].
  - rewrite Hv. cbn [length decimal_value]. change (10 ^ Z.of_nat 0) with 1. lia.
  - apply Hd. reflexivity.
  - apply Hne. right. discriminate.
Qed.

Lemma sum_bytes_value value :
  forall i result,
    0 <= i ->
    Print.sum_bytes value i result = result + 256 ^ i * le_value value.
Proof.
  induction value as [|b rest IH]; intros i result Hi;
    cbn [Print.sum_bytes le_value]; [lia|].
  rewrite IH by lia. rewrite Z.shiftl_mul_pow2 by lia.
  replace (2 ^ (i * 8)) with (256 ^ i)
    by (change 256 with (2 ^ 8); rewrite <- Z.pow_mul_r by lia; f_equal; lia).
  rewrite Z.pow_add_r by lia. change (256 ^ 1) with 256. ring.
Qed.

Lemma le_value_bounds bytes :
  0 <= le_value bytes < 256 ^ Z.of_nat (length bytes).
Proof.
  induction bytes as [|b rest IH]; cbn [le_value length].
  - change (256 ^ Z.of_nat 0) with 1. lia.
  - pose proof (Byte.to_N_bounded b) as Hb.
    rewrite Nat2Z.inj_succ, Z.pow_succ_r by lia.
    assert (0 <= Z.of_N (Byte.to_N b) <= 255) by lia. lia.
Qed.

Lemma byte_to_N_injective b1 b2 : Byte.to_N b1 = Byte.to_N b2 -> b1 = b2.
Proof.
  intros H. pose proof (Byte.of_to_N b1) as H1. rewrite H in H1.
  rewrite Byte.of_to_N in H1. injection H1 as ->. reflexivity.
Qed.

Lemma le_value_injective bytes1 :
  forall bytes2,
    length bytes1 = length bytes2 ->
    le_value bytes1 = le_value bytes2 -> bytes1 = bytes2.
Proof.
  induction bytes1 as [|b1 rest1 IH]; intros [|b2 rest2] Hlen Hv;
    try discriminate Hlen; [reflexivity|].
  cbn [le_value] in Hv. injection Hlen as Hlen.
  pose proof (Byte.to_N_bounded b1). pose proof (Byte.to_N_bounded b2).
  assert (Z.of_N (Byte.to_N b1) = Z.of_N (Byte.to_N b2)) as Hb by lia.
  apply N2Z.inj in Hb. apply byte_to_N_injective in Hb. subst b2.
  f_equal. apply IH; [assumption | lia].
Qed.

(** X17. [formatU128Le] prints, in decimal digits, the number its bytes
    denote least significant byte first; for 16 bytes that number is below
    [2^128], and arrays of the same length that print alike are equal. *)
Theorem formatU128Le_decodes_little_endian :
  forall value,
    forallb Cli.is_digit (Print.formatU128Le value) = true /\
    decimal_value (Print.formatU128Le value) = le_value value /\
    0 <= le_value value < 256 ^ Z.of_nat (length value) /\
    (length value = 16%nat -> le_value value < 2 ^ 128) /\
    (forall other,
       length other = length value ->
       Print.formatU128Le other = Print.formatU128Le value ->
       other = value).
Proof.
  intros value. unfold Print.formatU128Le.
  assert (E : forall v, Print.sum_bytes v 0 0 = le_value v).
  { intros v. rewrite sum_bytes_value by lia. change (256 ^ 0) with 1. lia. }
  rewrite E. pose proof (le_value_bounds value) as B.
  destruct (toString_decimal (le_value value) ltac:(lia)) as (Hv & Hd & _).
  repeat split; try assumption; try lia.
  - intros L. rewrite L in B. change (256 ^ Z.of_nat 16) with (2 ^ 128) in B.
    lia.
  - intros other Hlen Heq. rewrite E in Heq.
    apply le_value_injective; [assumption|].
    pose proof (le_value_bounds other).
    destruct (toString_decimal (le_value other) ltac:(lia)) as (Hv' & _).
    rewrite <- Hv', Heq. exact Hv.
Qed.

Lemma formatU128Le_decodes_little_endian_witness :
  le_value [Byte.x01; Byte.x02; Byte.x00; Byte.x00; Byte.x00; Byte.x00;
            Byte.x00; Byte.x00; Byte.x00; Byte.x00; Byte.x00; Byte.x00;
            Byte.x00; Byte.x00; Byte.x00; Byte.x00] < 2 ^ 128.
Proof.
  apply (proj1 (proj2 (proj2 (proj2
           (formatU128Le_decodes_little_endian
              [Byte.x01; Byte.x02; Byte.x00; Byte.x00; Byte.x00; Byte.x00;
               Byte.x00; Byte.x00; Byte.x00; Byte.x00; Byte.x00; Byte.x00;
               Byte.x00; Byte.x00; Byte.x00; Byte.x00]))))).
  reflexivity.
Defined.

(** *** Printing a peg price *)

Lemma digits_acc_length fuel :
  forall n acc k,
    0 <= n < 10 ^ Z.of_nat (S k) ->
    (length (Js.digits_acc fuel 10 n acc) <= length acc + S k)%nat.
Proof.
  induction fuel as [|fuel IH]; intros n acc k Hn; cbn [Js.digits_acc]; [lia|].
  destruct (Z.eqb_spec (n / 10) 0) as [Hz|Hz]; [cbn [length]; lia|].
  rewrite Nat2Z.inj_succ, Z.pow_succ_r in Hn by lia.
  assert (Hq : 0 <= n / 10 < 10 ^ Z.of_nat k).
  { split; [apply Z.div_pos; lia | apply Z.div_lt_upper_bound; lia]. }
  destruct k as [|k].
  - change (10 ^ Z.of_nat 0) with 1 in Hq. lia.
  - pose proof (IH (n / 10) (Js.digit_char (n mod 10) :: acc) k Hq) as L.
    cbn [length] in L. lia.
Qed.

Lemma toString_length n k :
  0 <= n < 10 ^ Z.of_nat (S k) -> (length (Js.toString 10 n) <= S k)%nat.
Proof.
  intros Hn. unfold Js.toString. rewrite Z.abs_eq by lia.
  destruct (Z.ltb_spec n 0); [lia|].
  apply (digits_acc_length _ n [] k Hn).
Qed.

Lemma padStart_spec s n :
  (length s <= n)%nat ->
  forallb Cli.is_digit s = true ->
  length (Js.padStart s n) = n /\
  forallb Cli.is_digit (Js.padStart s n) = true /\
  decimal_value (Js.padStart s n) = decimal_value s.
Proof.
  intros Hlen Hd. unfold Js.padStart.
  rewrite length_app, repeat_length, forallb_app, decimal_value_app,
    decimal_value_zeros, Hd.
  split; [lia|]. split; [|lia].
  rewrite andb_true_r.
  induction (n - length s)%nat as [|k IH]; [reflexivity | exact IH].
Qed.

Lemma drop_zeros_spec s :
  exists k,
    s = repeat "0"%char k ++ Js.drop_zeros s /\
    match Js.drop_zeros s with
    | [] => True
    | c :: _ => Ascii.eqb c "0" = false
    end.
Proof.
  induction s as [|c s (k & E & H)]; [exists O; split; [reflexivity|exact I]|].
  cbn [Js.drop_zeros]. destruct (Ascii.eqb_spec c "0") as [->|Hc].
  - exists (S k). cbn [repeat app]. split; [f_equal; exact E | exact H].
  - exists O. split; [reflexivity|]. apply Ascii.eqb_neq, Hc.
Qed.

Lemma rev_zeros k : rev (repeat "0"%char k) = repeat "0"%char k.
Proof.
  induction k as [|k IH]; [reflexivity|].
  cbn [repeat rev]. rewrite IH. clear IH.
  induction k as [|k IH]; [reflexivity|].
  cbn [repeat app]. f_equal. exact IH.
Qed.

Lemma strip_final_zeros_spec s :
  exists k, s = Js.strip_final_zeros s ++ repeat "0"%char k.
Proof.
  destruct (drop_zeros_spec (rev s)) as (k & E & _).
  exists k. unfold Js.strip_final_zeros.
  rewrite <- (rev_involutive s) at 1. rewrite E at 1.
  rewrite rev_app_distr, rev_zeros. reflexivity.
Qed.

(** X18. Printing and parsing a peg price are inverse on every price the
    parser accepts: for a scaled price from 1 to 19999, [formatPegPrice]
    gives a string that [parsePegPriceFlag] accepts with that scaled price
    as the result. *)
Theorem formatPegPrice_round_trip :
  forall v,
    1 <= v < 2 * 10 ^ 4 ->
    exists display,
      Cli.parsePegPriceFlag (Print.formatPegPrice v)
      = Ok {| Cli.scaledValue := v; Cli.displayValue := display |}.
Proof.
  intros v Hv. change (2 * 10 ^ 4) with 20000 in Hv.
  unfold Print.formatPegPrice.
  change (10 ^ Z.of_nat Print.PEG_PRICE_DECIMALS) with 10000.
  rewrite Z.quot_div_nonneg, Z.rem_mod_nonneg by lia.
  pose proof (Z.div_mod v 10000 ltac:(lia)) as Hdm.
  pose proof (Z.mod_pos_bound v 10000 ltac:(lia)) as Hm.
  assert (Hw : 0 <= v / 10000 <= 1).
  { split; [apply Z.div_pos; lia|].
    apply Z.lt_succ_r, Z.div_lt_upper_bound; lia. }
  destruct (toString_decimal (v / 10000) ltac:(lia)) as (Wv & Wd & Wne).
  set (W := Js.toString 10 (v / 10000)) in *.
  destruct (last_digit W Wne Wd) as (wfront & wlast & EW & Hwlast).
  assert (Wfirst : exists w0 w', W = w0 :: w' /\ Cli.is_digit w0 = true).
  { destruct W as [|w0 w']; [contradiction Wne; reflexivity|].
    exists w0, w'. split; [reflexivity|].
    cbn [forallb] in Wd. apply andb_true_iff in Wd. apply Wd. }
  destruct Wfirst as (w0 & w' & EW0 & Hw0).
  (* what the parser answers on a numeral of this value *)
  assert (answer : forall fs,
            decimal_shape (Cli.trim (W ++ match fs with
                                          | [] => []
                                          | _ :: _ => "."%char :: fs
                                          end)) W fs ->
            (length fs <= Cli.PEG_PRICE_DECIMALS)%nat ->
            scaled_of W fs = v ->
            exists display,
              Cli.parsePegPriceFlag (W ++ match fs with
                                          | [] => []
                                          | _ :: _ => "."%char :: fs
                                          end)
              = Ok {| Cli.scaledValue := v; Cli.displayValue := display |}).
  { intros fs Hshape Hlen Hs.
    rewrite (parsePegPriceFlag_shape _ W fs Hshape Hlen), Hs, Wv.
    change (Z.shiftl 1 64 - 1) with 18446744073709551615.
    change (2 * 10 ^ 4) with 20000.
    destruct (Z.gtb_spec (v / 10000) 18446744073709551615); [lia|].
    destruct (Z.leb_spec v 0); [lia|].
    rewrite Z.geb_leb. destruct (Z.leb_spec 20000 v); [lia|].
    eexists. reflexivity. }
  destruct (Z.eqb_spec (v mod 10000) 0) as [Hz|Hnz].
  - (* no fractional part *)
    specialize (answer []). cbn [length] in answer. rewrite app_nil_r in answer.
    apply answer.
    + assert (Cli.trim W = W) as ->.
      { unfold Cli.trim. rewrite EW0.
        rewrite (trimStart_cons _ _ (digit_not_whitespace w0 Hw0)).
        rewrite <- EW0, EW.
        apply trimEnd_snoc, digit_not_whitespace, Hwlast. }
      repeat split; try assumption. rewrite app_nil_r. reflexivity.
    + unfold Cli.PEG_PRICE_DECIMALS. lia.
    + unfold scaled_of. rewrite Wv. cbn [decimal_value length].
      change (10 ^ 4) with 10000. lia.
  - (* a fractional part, printed without its final zeros *)
    destruct (toString_decimal (v mod 10000) ltac:(lia)) as (Fv & Fd & _).
    pose proof (toString_length (v mod 10000) 3 ltac:(change (10 ^ Z.of_nat 4) with 10000; lia))
      as Fl.
    destruct (padStart_spec (Js.toString 10 (v mod 10000))
                Print.PEG_PRICE_DECIMALS Fl Fd) as (Pl & Pd & Pv).
    set (padded := Js.padStart (Js.toString 10 (v mod 10000))
                     Print.PEG_PRICE_DECIMALS) in *.
    destruct (strip_final_zeros_spec padded) as (k & Ek).
    set (fs := Js.strip_final_zeros padded) in *.
    assert (Hfd : forallb Cli.is_digit fs = true).
    { rewrite Ek, forallb_app in Pd. apply andb_true_iff in Pd. apply Pd. }
    assert (Hfl : (length fs + k = 4)%nat).
    { rewrite Ek, length_app, repeat_length in Pl. exact Pl. }
    assert (Hfv : decimal_value fs * 10 ^ Z.of_nat k = v mod 10000).
    { rewrite <- Fv, <- Pv, Ek, decimal_value_app, decimal_value_zeros,
        repeat_length. lia. }
    assert (Hfne : fs <> []).
    { intros E. rewrite E in Hfv. cbn [decimal_value] in Hfv. lia. }
    destruct (Nat.ltb_spec 0 (length fs));
      [|destruct fs; [contradiction Hfne; reflexivity | cbn [length] in *; lia]].
    destruct (last_digit fs Hfne Hfd) as (ffront & flast & Ef & Hflast).
    specialize (answer fs).
    destruct fs as [|f0 fs'] eqn:Efs; [contradiction Hfne; reflexivity|].
    rewrite <- Efs in *. apply answer.
    + assert (Cli.trim (W ++ "."%char :: fs) = W ++ "."%char :: fs) as ->.
      { unfold Cli.trim. rewrite EW0. cbn [app].
        rewrite (trimStart_cons _ _ (digit_not_whitespace w0 Hw0)).
        rewrite Ef.
        change (w0 :: w' ++ "."%char :: ffront ++ [flast])
          with ((w0 :: w') ++ ("."%char :: ffront) ++ [flast]).
        rewrite app_assoc.
        apply trimEnd_snoc, digit_not_whitespace, Hflast. }
      repeat split; try assumption.
      rewrite Efs. rewrite <- Efs. reflexivity.
    + unfold Cli.PEG_PRICE_DECIMALS. lia.
    + unfold scaled_of. rewrite Wv.
      replace (4 - Z.of_nat (length fs)) with (Z.of_nat k) by lia.
      change (10 ^ 4) with 10000. lia.
Qed.

Lemma formatPegPrice_round_trip_witness :
  exists display,
    Cli.parsePegPriceFlag (Print.formatPegPrice 10025)
    = Ok {| Cli.scaledValue := 10025; Cli.displayValue := display |}.
Proof.
  apply (formatPegPrice_round_trip 10025). lia.
Defined.

(** *** Printing a role mask *)

Lemma land_bit_test v i :
  0 <= i -> (Z.land v (Z.shiftl 1 i) =? 0) = negb (Z.testbit v i).
Proof.
  intros Hi. rewrite Z.shiftl_1_l.
  destruct (Z.testbit v i) eqn:B; cbn [negb].
  - apply Z.eqb_neq. intros E.
    assert (Z.testbit (Z.land v (2 ^ i)) i = true) as T
      by (rewrite Z.land_spec, B, Z.pow2_bits_eqb, Z.eqb_refl by lia;
          reflexivity).
    rewrite E, Z.bits_0 in T. discriminate T.
  - apply Z.eqb_eq. apply Z.bits_inj'. intros m Hm.
    rewrite Z.land_spec, Z.bits_0, Z.pow2_bits_eqb by lia.
    destruct (Z.eqb_spec i m) as [<-|]; [rewrite B|rewrite andb_false_r];
      reflexivity.
Qed.

Lemma activeRoles_from_filter v names :
  forall i,
    Print.activeRoles_from names (Z.of_nat i) v
    = map role_label
        (filter (fun role => Z.testbit v (snd role))
           (combine names (map Z.of_nat (seq i (length names))))).
Proof.
  induction names as [|name rest IH]; intros i; [reflexivity|].
  cbn [Print.activeRoles_from length seq map combine filter snd].
  rewrite land_bit_test by lia.
  replace (Z.of_nat i + 1) with (Z.of_nat (S i)) by lia. rewrite IH.
  destruct (Z.testbit v (Z.of_nat i)); reflexivity.
Qed.

Lemma bits_total_filter v names :
  forall i,
    bits_total
      (filter (fun role => Z.testbit v (snd role))
         (combine names (map Z.of_nat (seq i (length names)))))
    = 2 ^ Z.of_nat i * ((v / 2 ^ Z.of_nat i) mod 2 ^ Z.of_nat (length names)).
Proof.
  induction names as [|name rest IH]; intros i.
  - cbn. rewrite Z.mod_1_r. lia.
  - cbn [length seq map combine filter snd].
    assert (P : 0 < 2 ^ Z.of_nat i) by (apply Z.pow_pos_nonneg; lia).
    assert (step : bits_total
                     (filter (fun role => Z.testbit v (snd role))
                        (combine rest (map Z.of_nat (seq (S i) (length rest)))))
                   = 2 ^ Z.of_nat i
                     * (2 * (((v / 2 ^ Z.of_nat i) / 2)
                             mod 2 ^ Z.of_nat (length rest)))).
    { rewrite IH, Nat2Z.inj_succ, Z.pow_succ_r by lia.
      replace (2 * 2 ^ Z.of_nat i) with (2 ^ Z.of_nat i * 2) by ring.
      rewrite <- Z.div_div by lia. ring. }
    rewrite (Nat2Z.inj_succ (length rest)), Z.pow_succ_r by lia.
    rewrite Z.rem_mul_r by (try apply Z.pow_pos_nonneg; lia).
    rewrite (Z.testbit_eqb v (Z.of_nat i)) by lia.
    pose proof (Z.mod_pos_bound (v / 2 ^ Z.of_nat i) 2 ltac:(lia)) as Hb.
    destruct (Z.eqb_spec ((v / 2 ^ Z.of_nat i) mod 2) 1) as [E|E].
    + cbn [bits_total fold_right snd]. fold (bits_total
        (filter (fun role => Z.testbit v (snd role))
           (combine rest (map Z.of_nat (seq (S i) (length rest)))))).
      rewrite step, E. ring.
    + rewrite step. assert ((v / 2 ^ Z.of_nat i) mod 2 = 0) as -> by lia.
      ring.
Qed.

Lemma unknownMask_value v : Print.unknownMask v = 512 * (v / 512).
Proof.
  unfold Print.unknownMask. change Print.knownMask with (Z.ones 9).
  rewrite <- Z.ldiff_land, Z.ldiff_ones_r by lia.
  rewrite Z.shiftr_div_pow2, Z.shiftl_mul_pow2 by lia.
  change (2 ^ 9) with 512. ring.
Qed.

(** X19. [formatRole] prints a role mask in full.  Its output is, for the
    mask 0, "none", and for any other mask the labels of the named roles
    whose bits the mask sets, in bit order and joined by ", ", then, if the
    mask sets a bit from 9 up, "unknown mask 0x" with those bits in
    hexadecimal, the two parts joined by "; "; in either case the mask in
    decimal follows as " (raw ...)".  No bit is lost: the mask is the sum of
    the named bits and of the unknown mask, which is zero exactly for masks
    from 0 to 511, and only the mask 0 has nothing to name. *)
Theorem formatRole_reports_every_bit :
  forall value,
    let named := map role_label (reported_roles value) in
    let unknown := 512 * (value / 512) in
    Print.formatRole value
    = (if value =? 0 then str "none"
       else Js.join (str "; ")
              (match named with
               | [] => []
               | _ :: _ => [Js.join (str ", ") named]
               end
               ++ (if unknown =? 0 then []
                   else [str "unknown mask 0x" ++ Js.toString 16 unknown])))
      ++ str " (raw " ++ Js.toString 10 value ++ str ")"
    /\
    Print.activeRoles_from Print.OPERATOR_ROLE_NAMES 0 value = named
    /\
    Print.unknownMask value = unknown
    /\
    value = bits_total (reported_roles value) + Print.unknownMask value
    /\
    (Print.unknownMask value = 0 <-> 0 <= value < 2 ^ 9)
    /\
    (Print.activeRoles_from Print.OPERATOR_ROLE_NAMES 0 value = [] /\
     Print.unknownMask value = 0 <-> value = 0)
    /\
    (value = 0 -> Print.formatRole value = str "none (raw 0)").
Proof.
  intros value. cbv zeta.
  pose proof (activeRoles_from_filter value Print.OPERATOR_ROLE_NAMES 0)
    as Hroles.
  change (Z.of_nat 0) with 0 in Hroles. fold role_bits in Hroles.
  fold (reported_roles value) in Hroles.
  pose proof (bits_total_filter value Print.OPERATOR_ROLE_NAMES 0) as Hsum.
  fold role_bits in Hsum. fold (reported_roles value) in Hsum.
  change (2 ^ Z.of_nat 0) with 1 in Hsum.
  change (2 ^ Z.of_nat (length Print.OPERATOR_ROLE_NAMES)) with 512 in Hsum.
  rewrite Z.div_1_r, Z.mul_1_l in Hsum.
  pose proof (unknownMask_value value) as Hun.
  pose proof (Z.div_mod value 512 ltac:(lia)) as Hdm.
  pose proof (Z.mod_pos_bound value 512 ltac:(lia)) as Hm.
  change (2 ^ 9) with 512.
  assert (Hu : Print.unknownMask value = 0 <-> 0 <= value < 512)
    by (rewrite Hun; lia).
  split; [|split; [exact Hroles|]; split; [exact Hun|]; split; [lia|];
           split; [exact Hu|]; split].
  - destruct (Z.eqb_spec value 0) as [->|Hv]; [reflexivity|].
    unfold Print.formatRole. cbv zeta. rewrite Hroles, Hun.
    destruct (reported_roles value) as [|role roles].
    + cbn [bits_total fold_right] in Hsum.
      destruct (Z.eqb_spec (512 * (value / 512)) 0) as [E|E]; [lia|].
      reflexivity.
    + cbn [map length Nat.eqb Nat.ltb Nat.leb andb]. reflexivity.
  - split.
    + intros [Hnone Hzero]. rewrite Hroles in Hnone.
      apply map_eq_nil in Hnone. rewrite Hnone in Hsum.
      cbn [bits_total fold_right] in Hsum. lia.
    + intros ->. split; reflexivity.
  - intros ->. reflexivity.
Qed.

Lemma formatRole_reports_every_bit_witness :
  Print.formatRole 0 = str "none (raw 0)"
  /\
  Print.formatRole 1029
  = str "admin (bit 0), global-disabler (bit 2); unknown mask 0x400 (raw 1029)".
Proof.
  split.
  - apply (proj2 (proj2 (proj2 (proj2 (proj2 (proj2
             (formatRole_reports_every_bit 0))))))).
    reflexivity.
  - rewrite (proj1 (formatRole_reports_every_bit 1029)). reflexivity.
Defined.

(** The mask with bit 10 alone, and one with two named bits beside it. *)
Example formatRole_unknown_mask :
  Print.formatRole 1024 = str "unknown mask 0x400 (raw 1024)" /\
  Print.formatRole 1029
  = str "admin (bit 0), global-disabler (bit 2); unknown mask 0x400 (raw 1029)".
Proof. split; reflexivity. Qed.

(** * Properties of the status and fee-rate flags *)

(** X20. The benefactor status flag extends the boolean flag: whenever
    [parseBooleanFlag] accepts a string, [parseBenefactorStatusFlag] accepts
    it too, as active for true and disabled for false; the name it returns
    always matches the status; and it fails exactly when the boolean flag
    fails on a string that is neither "active" nor "inactive" once trimmed
    and lower-cased. *)
Theorem parseBenefactorStatusFlag_extends_boolean :
  forall raw flagName,
    let normalized := Js.toLowerCase (Cli.trim raw) in
    (forall b,
       Flags.parseBooleanFlag raw flagName = Ok b ->
       Flags.parseBenefactorStatusFlag raw flagName
       = Ok {| Flags.benefactor_name :=
                 if b then str "active" else str "disabled";
               Flags.benefactor_status :=
                 if b then Flags.Active else Flags.Disabled |})
    /\
    (forall r,
       Flags.parseBenefactorStatusFlag raw flagName = Ok r ->
       (Flags.benefactor_status r = Flags.Active /\
        Flags.benefactor_name r = str "active")
       \/
       (Flags.benefactor_status r = Flags.Disabled /\
        Flags.benefactor_name r = str "disabled"))
    /\
    (fails (Flags.parseBenefactorStatusFlag raw flagName) <->
     fails (Flags.parseBooleanFlag raw flagName) /\
     normalized <> str "active" /\ normalized <> str "inactive").
Proof.
  intros raw flagName normalized.
  unfold Flags.parseBenefactorStatusFlag, Flags.parseBooleanFlag.
  fold normalized.
  destruct (Js.eqb normalized (str "active")) eqn:Ea.
  { apply Js_eqb_eq in Ea. rewrite Ea. cbn [Flags.includes].
    split; [intros b H; discriminate H|].
    split; [intros r H; injection H as <-; left; split; reflexivity|].
    split; [intros [e H]; discriminate H|].
    intros (_ & H & _). contradiction H. reflexivity. }
  destruct (Js.eqb normalized (str "disabled")) eqn:Ed.
  { apply Js_eqb_eq in Ed. rewrite Ed. cbn [orb].
    split; [intros b H; vm_compute in H; injection H as <-; reflexivity|].
    split; [intros r H; injection H as <-; right; split; reflexivity|].
    split; [intros [e H]; discriminate H|].
    intros ([e H] & _). vm_compute in H. discriminate H. }
  destruct (Js.eqb normalized (str "inactive")) eqn:Ei.
  { apply Js_eqb_eq in Ei. rewrite Ei. cbn [orb].
    split; [intros b H; vm_compute in H; discriminate H|].
    split; [intros r H; injection H as <-; right; split; reflexivity|].
    split; [intros [e H]; discriminate H|].
    intros (_ & _ & H). contradiction H. reflexivity. }
  cbn [orb].
  assert (Na : normalized <> str "active")
    by (intros E; apply Js_eqb_eq in E; congruence).
  assert (Ni : normalized <> str "inactive")
    by (intros E; apply Js_eqb_eq in E; congruence).
  destruct (Flags.includes Flags.true_words normalized).
  { split; [intros b H; injection H as <-; reflexivity|].
    split; [intros r H; injection H as <-; left; split; reflexivity|].
    split; [intros [e H]; discriminate H | intros ([e H] & _); discriminate H]. }
  destruct (Flags.includes Flags.false_words normalized).
  { split; [intros b H; injection H as <-; reflexivity|].
    split; [intros r H; injection H as <-; right; split; reflexivity|].
    split; [intros [e H]; discriminate H | intros ([e H] & _); discriminate H]. }
  split; [intros b H; discriminate H|].
  split; [intros r H; discriminate H|].
  split; [intros _ | intros _; eexists; reflexivity].
  split; [eexists; reflexivity | split; assumption].
Qed.

Lemma parseBenefactorStatusFlag_extends_boolean_witness :
  Flags.parseBenefactorStatusFlag (str " Enabled ") "status"
  = Ok {| Flags.benefactor_name := str "active";
          Flags.benefactor_status := Flags.Active |}.
Proof.
  apply (proj1 (parseBenefactorStatusFlag_extends_boolean
                  (str " Enabled ") "status") true).
  reflexivity.
Defined.

Lemma mint_fee_errors_unreachable input z :
  Benefactor.mintFeeRate (QuoteInput.benefactor input) = Int z ->
  0 <= z <= 10000 ->
  Mint.getMintQuote input <> Err MintFeeRateInvalid /\
  Mint.getMintQuote input <> Err MintFeeExceedsAmount.
Proof.
  intros Er Hz.
  split; intros H; unfold Mint.getMintQuote, bind in H; rewrite Er in H;
    unfold Mint.toBigInt, Mint.ensureNonNegativeInteger, Mint.pow10,
      Mint.computeMintFee, Mint.computeOracleAmount,
      Mint.computeOneToOneAmount in H;
    change Mint.BASIS_POINTS with 10000 in H;
    walk H; tests_to_props; try lia;
    match goal with
    | G : _ < Mint.ceilBigInt (?a * z) 10000 |- _ =>
        pose proof (ceilBigInt_le a z ltac:(lia) Hz)
    end;
    lia.
Qed.

Lemma redeem_fee_errors_unreachable input z :
  Benefactor.redeemFeeRate (QuoteInput.benefactor input) = Int z ->
  0 <= z <= 10000 ->
  Redeem.getRedeemQuote input <> Err RedeemFeeRateInvalid /\
  Redeem.getRedeemQuote input <> Err RedeemFeeExceedsAmount.
Proof.
  intros Er Hz.
  split; intros H; unfold Redeem.getRedeemQuote, bind in H; rewrite Er in H;
    unfold Redeem.toBigInt, Redeem.ensureNonNegativeInteger, Redeem.pow10,
      Redeem.computeRedeemFee, Redeem.computeOracleAmount,
      Redeem.computeOneToOneAmount in H;
    change Redeem.BASIS_POINTS with 10000 in H;
    walk H; tests_to_props; try lia;
    match goal with
    | G : _ < Mint.ceilBigInt (?a * z) 10000 |- _ =>
        pose proof (ceilBigInt_le a z ltac:(lia) Hz)
    end;
    lia.
Qed.

(** X21. [parseBenefactorFeeRateFlag] accepts exactly the integers from 0
    to 10000 and returns them unchanged, and a rate it accepted never makes
    a quote fail on the fee: neither the invalid-rate error nor the
    fee-exceeds-amount error of [getMintQuote] and [getRedeemQuote] can
    occur with it. *)
Theorem accepted_fee_rate_fits_quotes :
  forall value flagName,
    (forall rate,
       Flags.parseBenefactorFeeRateFlag value flagName = Ok rate <->
       exists z, value = Some (Int z) /\ rate = Int z /\ 0 <= z <= 10000)
    /\
    (forall rate input,
       Flags.parseBenefactorFeeRateFlag value flagName = Ok rate ->
       (Benefactor.mintFeeRate (QuoteInput.benefactor input) = rate ->
        Mint.getMintQuote input <> Err MintFeeRateInvalid /\
        Mint.getMintQuote input <> Err MintFeeExceedsAmount)
       /\
       (Benefactor.redeemFeeRate (QuoteInput.benefactor input) = rate ->
        Redeem.getRedeemQuote input <> Err RedeemFeeRateInvalid /\
        Redeem.getRedeemQuote input <> Err RedeemFeeExceedsAmount)).
Proof.
  intros value flagName.
  assert (accepted : forall rate,
            Flags.parseBenefactorFeeRateFlag value flagName = Ok rate <->
            exists z, value = Some (Int z) /\ rate = Int z /\ 0 <= z <= 10000).
  { intros rate. unfold Flags.parseBenefactorFeeRateFlag.
    destruct value as [[z|]|].
    - destruct (Z.ltb_spec z 0); cbn [orb].
      + split; [discriminate|]. intros (z' & E & _ & Hz).
        injection E as <-. lia.
      + destruct (Z.gtb_spec z 10000).
        * split; [discriminate|]. intros (z' & E & _ & Hz).
          injection E as <-. lia.
        * split.
          -- intros E. injection E as <-. exists z.
             repeat split; lia.
          -- intros (z' & E & -> & _). injection E as <-. reflexivity.
    - split; [discriminate | intros (z & E & _); discriminate E].
    - split; [discriminate | intros (z & E & _); discriminate E]. }
  split; [exact accepted|].
  intros rate input H. apply accepted in H.
  destruct H as (z & _ & -> & Hz).
  split; intros Er.
  - apply (mint_fee_errors_unreachable input z Er Hz).
  - apply (redeem_fee_errors_unreachable input z Er Hz).
Qed.

Lemma accepted_fee_rate_fits_quotes_witness :
  Mint.getMintQuote scenario_input <> Err MintFeeRateInvalid /\
  Mint.getMintQuote scenario_input <> Err MintFeeExceedsAmount.
Proof.
  apply (proj1 (proj2 (accepted_fee_rate_fits_quotes (Some (Int 25)) "mint-fee-rate")
                  (Int 25) scenario_input eq_refl)).
  reflexivity.
Defined.

(** * Properties of the Pyth feed id flag *)

Lemma hex_digit_char d :
  0 <= d < 16 ->
  UpdateVault.is_hex (Js.digit_char d) = true /\
  UpdateVault.hex_value (Js.digit_char d) = d /\
  Js.lower_char (Js.digit_char d) = Js.digit_char d /\
  Ascii.eqb (Js.digit_char d) "x" = false.
Proof.
  intros H.
  assert (d = 0 \/ d = 1 \/ d = 2 \/ d = 3 \/ d = 4 \/ d = 5 \/ d = 6
          \/ d = 7 \/ d = 8 \/ d = 9 \/ d = 10 \/ d = 11 \/ d = 12
          \/ d = 13 \/ d = 14 \/ d = 15) as C by lia.
  repeat (destruct C as [-> | C]; [repeat split; reflexivity|]).
  subst d. repeat split; reflexivity.
Qed.

Lemma hex_char_value c :
  UpdateVault.is_hex c = true ->
  0 <= UpdateVault.hex_value c < 16 /\
  Js.digit_char (UpdateVault.hex_value c) = c.
Proof.
  destruct c as [[] [] [] [] [] [] [] []]; intros H;
    vm_compute in H; try discriminate H;
    (split; [vm_compute; split; congruence | reflexivity]).
Qed.

Lemma hex_pair_byte a b :
  UpdateVault.is_hex a = true -> UpdateVault.is_hex b = true ->
  let byte := UpdateVault.parseInt16 [a; b] in
  0 <= byte < 256 /\
  [Js.digit_char (byte / 16); Js.digit_char (byte mod 16)] = [a; b].
Proof.
  intros Ha Hb. cbv zeta. unfold UpdateVault.parseInt16. cbn [fold_left].
  destruct (hex_char_value a Ha) as [Ra Ea].
  destruct (hex_char_value b Hb) as [Rb Eb].
  set (x := UpdateVault.hex_value a) in *.
  set (y := UpdateVault.hex_value b) in *.
  assert ((16 * (16 * 0 + x) + y) / 16 = x) as ->
    by (symmetry; apply (Z.div_unique_pos _ 16 x y); lia).
  assert ((16 * (16 * 0 + x) + y) mod 16 = y) as ->
    by (symmetry; apply (Z.mod_unique_pos _ 16 x y); lia).
  rewrite Ea, Eb. split; [lia | reflexivity].
Qed.

Lemma byte_hex_pair b :
  0 <= b < 256 ->
  UpdateVault.parseInt16 [Js.digit_char (b / 16); Js.digit_char (b mod 16)] = b.
Proof.
  intros Hb. unfold UpdateVault.parseInt16. cbn [fold_left].
  pose proof (Z.mod_pos_bound b 16 ltac:(lia)).
  assert (0 <= b / 16 < 16)
    by (split; [apply Z.div_pos; lia | apply Z.div_lt_upper_bound; lia]).
  destruct (hex_digit_char (b / 16) ltac:(lia)) as (_ & -> & _).
  destruct (hex_digit_char (b mod 16) ltac:(lia)) as (_ & -> & _).
  pose proof (Z.div_mod b 16 ltac:(lia)). lia.
Qed.

(** The bytes read from index [i] on spell the rest of the digits. *)
Lemma fill_bytes_spells count :
  forall i s,
    forallb UpdateVault.is_hex s = true ->
    (length s = 2 * (i + count))%nat ->
    length (UpdateVault.fill_bytes count i s) = count /\
    Forall (fun b => 0 <= b < 256) (UpdateVault.fill_bytes count i s) /\
    hex_of_bytes (UpdateVault.fill_bytes count i s) = skipn (2 * i) s.
Proof.
  induction count as [|count IH]; intros i s Hs Hlen.
  - cbn [UpdateVault.fill_bytes hex_of_bytes flat_map length].
    split; [reflexivity|]. split; [constructor|].
    symmetry. apply skipn_all2. lia.
  - cbn [UpdateVault.fill_bytes].
    destruct (IH (S i) s Hs ltac:(lia)) as (Hl & Hr & Hh).
    assert (Hskip : exists a b,
               skipn (2 * i) s = a :: b :: skipn (2 * S i) s /\
               UpdateVault.is_hex a = true /\ UpdateVault.is_hex b = true).
    { pose proof (length_skipn (2 * i) s) as L.
      assert (Hd : forallb UpdateVault.is_hex (skipn (2 * i) s) = true).
      { rewrite <- (firstn_skipn (2 * i) s), forallb_app in Hs.
        apply andb_true_iff in Hs. apply Hs. }
      replace (2 * S i)%nat with (2 + 2 * i)%nat by lia.
      rewrite <- skipn_skipn.
      destruct (skipn (2 * i) s) as [|a [|b rest]];
        cbn [length] in L; try lia.
      cbn [forallb] in Hd. apply andb_true_iff in Hd. destruct Hd as [Ha Hd].
      apply andb_true_iff in Hd. destruct Hd as [Hb _].
      exists a, b. repeat split; assumption. }
    destruct Hskip as (a & b & Es & Ha & Hb).
    assert (Eslice : UpdateVault.slice s (i * 2) (i * 2 + 2) = [a; b]).
    { unfold UpdateVault.slice.
      replace (i * 2 + 2 - i * 2)%nat with 2%nat by lia.
      replace (i * 2)%nat with (2 * i)%nat by lia.
      rewrite Es. reflexivity. }
    rewrite Eslice.
    destruct (hex_pair_byte a b Ha Hb) as [Rb Eb].
    cbn [length hex_of_bytes flat_map]. fold (hex_of_bytes
      (UpdateVault.fill_bytes count (S i) s)).
    split; [lia|]. split; [constructor; assumption|].
    rewrite Eb, Hh, Es. reflexivity.
Qed.

(** Reading back, from index [i] on, the digits written for some bytes. *)
Lemma fill_bytes_reads bytes :
  forall i before,
    length before = (2 * i)%nat ->
    Forall (fun b => 0 <= b < 256) bytes ->
    UpdateVault.fill_bytes (length bytes) i (before ++ hex_of_bytes bytes)
    = bytes.
Proof.
  induction bytes as [|b bytes IH]; intros i before Hlen Hr; [reflexivity|].
  inversion Hr as [|? ? Hb Hrest]; subst.
  cbn [length UpdateVault.fill_bytes hex_of_bytes flat_map].
  fold (hex_of_bytes bytes). f_equal.
  - unfold UpdateVault.slice.
    replace (i * 2 + 2 - i * 2)%nat with 2%nat by lia.
    replace (i * 2)%nat with (length before + 0)%nat by lia.
    rewrite skipn_app, skipn_all2, Nat.add_0_r, Nat.sub_diag by lia.
    cbn [app skipn firstn]. apply byte_hex_pair, Hb.
  - specialize (IH (S i) (before ++ [Js.digit_char (b / 16);
                                     Js.digit_char (b mod 16)])).
    rewrite <- app_assoc in IH. cbn [app] in IH. cbn [app].
    apply IH; [rewrite length_app; cbn [length]; lia | assumption].
Qed.

Lemma hex_of_bytes_spec bytes :
  Forall (fun b => 0 <= b < 256) bytes ->
  length (hex_of_bytes bytes) = (2 * length bytes)%nat /\
  forallb UpdateVault.is_hex (hex_of_bytes bytes) = true /\
  Js.toLowerCase (hex_of_bytes bytes) = hex_of_bytes bytes /\
  UpdateVault.strip_0x (hex_of_bytes bytes) = hex_of_bytes bytes.
Proof.
  intros Hr. induction Hr as [|b bytes Hb Hr (Hl & Hh & Hlow & _)].
  - repeat split.
  - cbn [hex_of_bytes flat_map]. fold (hex_of_bytes bytes).
    pose proof (Z.mod_pos_bound b 16 ltac:(lia)).
    assert (0 <= b / 16 < 16)
      by (split; [apply Z.div_pos; lia | apply Z.div_lt_upper_bound; lia]).
    destruct (hex_digit_char (b / 16) ltac:(lia)) as (H1 & _ & L1 & _).
    destruct (hex_digit_char (b mod 16) ltac:(lia)) as (H2 & _ & L2 & X2).
    cbn [app length forallb Js.toLowerCase map UpdateVault.strip_0x].
    fold (Js.toLowerCase (hex_of_bytes bytes)).
    rewrite H1, H2, L1, L2, Hlow, X2, Hh, andb_false_r.
    repeat split; lia.
Qed.

(** X22. [parsePythFeedId] reads 32 bytes from 64 hexadecimal digits: what
    it returns are 32 bytes whose lower-case hexadecimal spelling is the
    input, lower-cased and without its 0x prefix; and the spelling of any
    32 bytes is read back as those bytes, with or without a 0x or 0X
    prefix. *)
Theorem parsePythFeedId_round_trip :
  (forall value bytes,
     UpdateVault.parsePythFeedId value = Ok bytes ->
     length bytes = 32%nat /\
     Forall (fun b => 0 <= b < 256) bytes /\
     hex_of_bytes bytes = UpdateVault.strip_0x (Js.toLowerCase value))
  /\
  (forall bytes,
     length bytes = 32%nat ->
     Forall (fun b => 0 <= b < 256) bytes ->
     UpdateVault.parsePythFeedId (hex_of_bytes bytes) = Ok bytes /\
     UpdateVault.parsePythFeedId (str "0x" ++ hex_of_bytes bytes) = Ok bytes /\
     UpdateVault.parsePythFeedId (str "0X" ++ hex_of_bytes bytes) = Ok bytes).
Proof.
  split.
  - intros value bytes H. unfold UpdateVault.parsePythFeedId in H.
    set (normalized := UpdateVault.strip_0x (Js.toLowerCase value)) in *.
    destruct (UpdateVault.test_hex64 normalized) eqn:T; [|discriminate H].
    cbn [negb] in H. injection H as <-.
    unfold UpdateVault.test_hex64 in T. apply andb_true_iff in T.
    destruct T as [Tl Th]. apply Nat.eqb_eq in Tl.
    destruct (fill_bytes_spells 32 0 normalized Th ltac:(lia))
      as (Hl & Hr & Hh).
    repeat split; assumption.
  - intros bytes Hlen Hr.
    destruct (hex_of_bytes_spec bytes Hr) as (Hl & Hh & Hlow & Hstrip).
    assert (read : UpdateVault.fill_bytes 32 0 (hex_of_bytes bytes) = bytes).
    { rewrite <- Hlen. apply (fill_bytes_reads bytes 0 []); [reflexivity|].
      assumption. }
    assert (T : UpdateVault.test_hex64 (hex_of_bytes bytes) = true).
    { unfold UpdateVault.test_hex64. rewrite Hh, Hl, Hlen. reflexivity. }
    assert (plain : UpdateVault.parsePythFeedId (hex_of_bytes bytes)
                    = Ok bytes).
    { unfold UpdateVault.parsePythFeedId.
      rewrite Hlow, Hstrip, T, read. reflexivity. }
    split; [exact plain|].
    split; unfold UpdateVault.parsePythFeedId;
      cbn [str list_ascii_of_string app Js.toLowerCase map];
      fold (Js.toLowerCase (hex_of_bytes bytes)); rewrite Hlow;
      change (UpdateVault.strip_0x
                (Js.lower_char "0" :: Js.lower_char "x" :: hex_of_bytes bytes))
        with (hex_of_bytes bytes);
      change (UpdateVault.strip_0x
                (Js.lower_char "0" :: Js.lower_char "X" :: hex_of_bytes bytes))
        with (hex_of_bytes bytes);
      rewrite T, read; reflexivity.
Qed.

Lemma parsePythFeedId_round_trip_witness :
  UpdateVault.parsePythFeedId (str "0x" ++ hex_of_bytes sample_feed_id)
  = Ok sample_feed_id.
Proof.
  apply (proj2 parsePythFeedId_round_trip sample_feed_id).
  - reflexivity.
  - repeat constructor; lia.
Defined.

(** * The quotes against the oracle price and the fee rate *)

(** X23. A dearer collateral never mints less and never redeems more: of
    two successful quotes that differ only in the oracle price, the mint
    quote at the higher price has the larger or equal [oracleAmount] and
    [mintAmount], and the redeem quote at the higher price has the smaller
    or equal [oracleAmount] and [redeemAmount]; the one-to-one amounts do
    not depend on the oracle price. *)
Theorem quotes_against_oracle_price :
  forall input1 input2 p1 p2,
    QuoteInput.amountIn input1 = QuoteInput.amountIn input2 ->
    QuoteInput.config input1 = QuoteInput.config input2 ->
    QuoteInput.benefactor input1 = QuoteInput.benefactor input2 ->
    QuoteInput.vault input1 = QuoteInput.vault input2 ->
    Mint.toBigInt (QuoteInput.oraclePriceUsd input1) = Ok p1 ->
    Mint.toBigInt (QuoteInput.oraclePriceUsd input2) = Ok p2 ->
    p1 <= p2 ->
    (forall q1 q2,
       Mint.getMintQuote input1 = Ok q1 ->
       Mint.getMintQuote input2 = Ok q2 ->
       Mint.oracleAmount q1 <= Mint.oracleAmount q2 /\
       Mint.oneToOneAmount q1 = Mint.oneToOneAmount q2 /\
       Mint.mintAmount q1 <= Mint.mintAmount q2)
    /\
    (forall q1 q2,
       Redeem.getRedeemQuote input1 = Ok q1 ->
       Redeem.getRedeemQuote input2 = Ok q2 ->
       Redeem.oracleAmount q2 <= Redeem.oracleAmount q1 /\
       Redeem.oneToOneAmount q1 = Redeem.oneToOneAmount q2 /\
       Redeem.redeemAmount q2 <= Redeem.redeemAmount q1).
Proof.
  intros input1 input2 p1 p2 Ea Ec Eb Ev E1 E2 Hp.
  split; intros q1 q2 H1 H2.
  - apply getMintQuote_Ok_inv in H1, H2.
    destruct H1 as (a1 & p1' & vd1 & ld1 & r1 & H1).
    destruct H2 as (a2 & p2' & vd2 & ld2 & r2 & H2).
    rewrite Ea, Ec, Eb, Ev in H1.
    decompose [and] H1. decompose [and] H2. clear H1 H2. cbv zeta in *.
    assert (a1 = a2) by congruence. assert (p1' = p1) by congruence.
    assert (p2' = p2) by congruence. assert (vd1 = vd2) by congruence.
    assert (ld1 = ld2) by congruence. assert (r1 = r2) by congruence.
    subst a1 p1' p2' vd1 ld1 r1 q1 q2.
    cbn [Mint.oracleAmount Mint.oneToOneAmount Mint.mintAmount].
    set (peg := Config.pegPriceUsd (QuoteInput.config input2)) in *.
    pose proof (pow10_pos vd2 ltac:(lia)).
    pose proof (pow10_pos ld2 ltac:(lia)).
    assert (Ho : Z.quot (a2 * p1 * 10 ^ ld2 * 10 ^ 4) (peg * 10 ^ vd2 * 10 ^ 8)
                 <= Z.quot (a2 * p2 * 10 ^ ld2 * 10 ^ 4)
                           (peg * 10 ^ vd2 * 10 ^ 8))
      by (apply quot_monotone; nia).
    split; [exact Ho|]. split; [reflexivity|].
    repeat match goal with
           | |- context [?x <? ?y] => destruct (Z.ltb_spec x y)
           end; lia.
  - apply getRedeemQuote_Ok_inv in H1, H2.
    destruct H1 as (a1 & p1' & vd1 & ld1 & r1 & H1).
    destruct H2 as (a2 & p2' & vd2 & ld2 & r2 & H2).
    rewrite Ea, Ec, Eb, Ev in H1.
    decompose [and] H1. decompose [and] H2. clear H1 H2. cbv zeta in *.
    change Redeem.toBigInt with Mint.toBigInt in *.
    assert (a1 = a2) by congruence. assert (p1' = p1) by congruence.
    assert (p2' = p2) by congruence. assert (vd1 = vd2) by congruence.
    assert (ld1 = ld2) by congruence. assert (r1 = r2) by congruence.
    subst a1 p1' p2' vd1 ld1 r1 q1 q2.
    cbn [Redeem.oracleAmount Redeem.oneToOneAmount Redeem.redeemAmount].
    set (peg := Config.pegPriceUsd (QuoteInput.config input2)) in *.
    pose proof (pow10_pos vd2 ltac:(lia)).
    pose proof (pow10_pos ld2 ltac:(lia)).
    assert (Ho : Z.quot (a2 * peg * 10 ^ vd2 * 10 ^ 8) (p2 * 10 ^ ld2 * 10 ^ 4)
                 <= Z.quot (a2 * peg * 10 ^ vd2 * 10 ^ 8)
                           (p1 * 10 ^ ld2 * 10 ^ 4)).
    { rewrite !quot_is_floor by nia. apply Z.div_le_compat_l; nia. }
    split; [exact Ho|]. split; [reflexivity|].
    repeat match goal with
           | |- context [?x <? ?y] => destruct (Z.ltb_spec x y)
           end; lia.
Qed.

Lemma quotes_against_oracle_price_witness :
  (Mint.oracleAmount scenario_mint_quote
   <= Mint.oracleAmount dearer_oracle_mint_quote /\
   Mint.oneToOneAmount scenario_mint_quote
   = Mint.oneToOneAmount dearer_oracle_mint_quote /\
   Mint.mintAmount scenario_mint_quote
   <= Mint.mintAmount dearer_oracle_mint_quote)
  /\
  (Redeem.oracleAmount dearer_oracle_redeem_quote
   <= Redeem.oracleAmount scenario_redeem_quote /\
   Redeem.oneToOneAmount scenario_redeem_quote
   = Redeem.oneToOneAmount dearer_oracle_redeem_quote /\
   Redeem.redeemAmount dearer_oracle_redeem_quote
   <= Redeem.redeemAmount scenario_redeem_quote).
Proof.
  pose proof (quotes_against_oracle_price scenario_input dearer_oracle_input
                100000000 105000000 eq_refl eq_refl eq_refl eq_refl
                eq_refl eq_refl ltac:(lia)) as [Hm Hr].
  split.
  - apply (Hm scenario_mint_quote dearer_oracle_mint_quote); reflexivity.
  - apply (Hr scenario_redeem_quote dearer_oracle_redeem_quote); reflexivity.
Defined.

Lemma fee_monotone_in_rate (a r1 r2 : Z) :
  0 <= a -> 0 <= r1 <= r2 ->
  Mint.ceilBigInt (a * r1) 10000 <= Mint.ceilBigInt (a * r2) 10000.
Proof.
  intros Ha Hr.
  pose proof (ceilBigInt_ceiling (a * r1) 10000 ltac:(nia) ltac:(lia)).
  pose proof (ceilBigInt_ceiling (a * r2) 10000 ltac:(nia) ltac:(lia)).
  nia.
Qed.

(** X24. A higher fee rate never pays out more: of two successful quotes
    that differ only in the fee rates of the benefactor, the one with the
    higher rate of its direction has the larger or equal fee, the same
    [oracleAmount], and the smaller or equal net amount, [oneToOneAmount]
    and amount paid out. *)
Theorem quotes_against_fee_rate :
  forall input1 input2,
    QuoteInput.amountIn input1 = QuoteInput.amountIn input2 ->
    QuoteInput.config input1 = QuoteInput.config input2 ->
    QuoteInput.vault input1 = QuoteInput.vault input2 ->
    QuoteInput.oraclePriceUsd input1 = QuoteInput.oraclePriceUsd input2 ->
    (forall r1 r2 q1 q2,
       Benefactor.mintFeeRate (QuoteInput.benefactor input1) = Int r1 ->
       Benefactor.mintFeeRate (QuoteInput.benefactor input2) = Int r2 ->
       r1 <= r2 ->
       Mint.getMintQuote input1 = Ok q1 ->
       Mint.getMintQuote input2 = Ok q2 ->
       Mint.feeAmount q1 <= Mint.feeAmount q2 /\
       Mint.netAmount q2 <= Mint.netAmount q1 /\
       Mint.oracleAmount q1 = Mint.oracleAmount q2 /\
       Mint.oneToOneAmount q2 <= Mint.oneToOneAmount q1 /\
       Mint.mintAmount q2 <= Mint.mintAmount q1)
    /\
    (forall r1 r2 q1 q2,
       Benefactor.redeemFeeRate (QuoteInput.benefactor input1) = Int r1 ->
       Benefactor.redeemFeeRate (QuoteInput.benefactor input2) = Int r2 ->
       r1 <= r2 ->
       Redeem.getRedeemQuote input1 = Ok q1 ->
       Redeem.getRedeemQuote input2 = Ok q2 ->
       Redeem.feeAmount q1 <= Redeem.feeAmount q2 /\
       Redeem.netAmount q2 <= Redeem.netAmount q1 /\
       Redeem.oracleAmount q1 = Redeem.oracleAmount q2 /\
       Redeem.oneToOneAmount q2 <= Redeem.oneToOneAmount q1 /\
       Redeem.redeemAmount q2 <= Redeem.redeemAmount q1).
Proof.
  intros input1 input2 Ea Ec Ev Eo.
  split; intros r1 r2 q1 q2 Er1 Er2 Hr H1 H2.
  - apply getMintQuote_Ok_inv in H1, H2.
    destruct H1 as (a1 & p1 & vd1 & ld1 & r1' & H1).
    destruct H2 as (a2 & p2 & vd2 & ld2 & r2' & H2).
    rewrite Ea, Ec, Ev, Eo in H1.
    decompose [and] H1. decompose [and] H2. clear H1 H2. cbv zeta in *.
    assert (a1 = a2) by congruence. assert (p1 = p2) by congruence.
    assert (vd1 = vd2) by congruence. assert (ld1 = ld2) by congruence.
    assert (r1' = r1) by congruence. assert (r2' = r2) by congruence.
    subst a1 p1 vd1 ld1 r1' r2' q1 q2.
    cbn [Mint.feeAmount Mint.netAmount Mint.oracleAmount Mint.oneToOneAmount
         Mint.mintAmount].
    set (peg := Config.pegPriceUsd (QuoteInput.config input2)) in *.
    pose proof (fee_monotone_in_rate a2 r1 r2 ltac:(lia) ltac:(lia)) as Hfee.
    pose proof (pow10_pos vd2 ltac:(lia)).
    pose proof (pow10_pos ld2 ltac:(lia)).
    assert (Hone : Z.quot ((a2 - Mint.ceilBigInt (a2 * r2) 10000)
                           * 10 ^ 4 * 10 ^ ld2) (peg * 10 ^ vd2)
                   <= Z.quot ((a2 - Mint.ceilBigInt (a2 * r1) 10000)
                              * 10 ^ 4 * 10 ^ ld2) (peg * 10 ^ vd2))
      by (apply quot_monotone; nia).
    split; [exact Hfee|]. split; [lia|]. split; [reflexivity|].
    split; [exact Hone|].
    repeat match goal with
           | |- context [?x <? ?y] => destruct (Z.ltb_spec x y)
           end; lia.
  - apply getRedeemQuote_Ok_inv in H1, H2.
    destruct H1 as (a1 & p1 & vd1 & ld1 & r1' & H1).
    destruct H2 as (a2 & p2 & vd2 & ld2 & r2' & H2).
    rewrite Ea, Ec, Ev, Eo in H1.
    decompose [and] H1. decompose [and] H2. clear H1 H2. cbv zeta in *.
    assert (a1 = a2) by congruence. assert (p1 = p2) by congruence.
    assert (vd1 = vd2) by congruence. assert (ld1 = ld2) by congruence.
    assert (r1' = r1) by congruence. assert (r2' = r2) by congruence.
    subst a1 p1 vd1 ld1 r1' r2' q1 q2.
    cbn [Redeem.feeAmount Redeem.netAmount Redeem.oracleAmount
         Redeem.oneToOneAmount Redeem.redeemAmount].
    set (peg := Config.pegPriceUsd (QuoteInput.config input2)) in *.
    pose proof (fee_monotone_in_rate a2 r1 r2 ltac:(lia) ltac:(lia)) as Hfee.
    pose proof (pow10_pos vd2 ltac:(lia)).
    pose proof (pow10_pos ld2 ltac:(lia)).
    assert (Hone : Z.quot ((a2 - Mint.ceilBigInt (a2 * r2) 10000)
                           * peg * 10 ^ vd2) (10 ^ 4 * 10 ^ ld2)
                   <= Z.quot ((a2 - Mint.ceilBigInt (a2 * r1) 10000)
                              * peg * 10 ^ vd2) (10 ^ 4 * 10 ^ ld2)).
    { assert (0 < peg * 10 ^ vd2) by nia.
      rewrite <- !(Z.mul_assoc _ peg (10 ^ vd2)).
      apply quot_monotone; nia. }
    split; [exact Hfee|]. split; [lia|]. split; [reflexivity|].
    split; [exact Hone|].
    repeat match goal with
           | |- context [?x <? ?y] => destruct (Z.ltb_spec x y)
           end; lia.
Qed.

Lemma quotes_against_fee_rate_witness :
  Mint.feeAmount no_fee_mint_quote <= Mint.feeAmount scenario_mint_quote /\
  Mint.netAmount scenario_mint_quote <= Mint.netAmount no_fee_mint_quote /\
  Mint.oracleAmount no_fee_mint_quote = Mint.oracleAmount scenario_mint_quote /\
  Mint.oneToOneAmount scenario_mint_quote
  <= Mint.oneToOneAmount no_fee_mint_quote /\
  Mint.mintAmount scenario_mint_quote <= Mint.mintAmount no_fee_mint_quote.
Proof.
  apply (proj1 (quotes_against_fee_rate no_fee_input scenario_input
                  eq_refl eq_refl eq_refl eq_refl)
           0 25 no_fee_mint_quote scenario_mint_quote);
    try reflexivity. lia.
Defined.

